(** * gocb: the retry orchestrator and the bulk key-value provider

    A shallow embedding of [retry.go] (retry reasons, actions, strategies,
    [retryOrchMaybeRetry], [recordRetryAttempt], [handleRetriableRequest])
    and of the protostellar bulk provider ([kvBulkProviderPs.Do], its worker
    and the eleven per-kind handlers), with the properties of both.

    Conventions.
    - Go's fixed-width integers are [Z] with the wrap-around written out
      ([wrap_uint32], [wrap_uint64], [wrap_int64]).
    - [time.Duration] is an [int64] count of nanoseconds; [time.Time] is the
      count of nanoseconds since Go's zero [time.Time{}].
    - Readings of the clock, replies of the remote service and the branch a
      [select] takes come from the environment and are explicit arguments.
    - Functions of other packages (gocbcore's back-off tables, the error
      mapper, the mutation-token converter) are [Variable]s of a [Section]. *)

From Stdlib Require Import ZArith String List Bool Lia Permutation Arith.
Import ListNotations.
Open Scope Z_scope.

(** ** Machine integers and time *)

Definition wrap_uint32 (z : Z) : Z := z mod 2 ^ 32.
Definition wrap_uint64 (z : Z) : Z := z mod 2 ^ 64.
Definition wrap_int64 (z : Z) : Z := (z + 2 ^ 63) mod 2 ^ 64 - 2 ^ 63.

Definition in_uint32 (z : Z) : Prop := 0 <= z < 2 ^ 32.
Definition in_int64 (z : Z) : Prop := - 2 ^ 63 <= z < 2 ^ 63.

Definition Duration := Z.
Definition Time := Z.

(** [time.Time{}] *)
Definition zeroTime : Time := 0.

(** [t.Add(d)] *)
Definition Time_Add (t : Time) (d : Duration) : Time := t + d.

Definition maxDuration : Duration := 2 ^ 63 - 1.
Definition minDuration : Duration := - 2 ^ 63.

(** [t.Sub(u)]: the difference, saturated to the range of [Duration]. *)
Definition Time_Sub (t u : Time) : Duration :=
  Z.max minDuration (Z.min maxDuration (t - u)).

(** [time.Since(t)], the clock reading [now] being given. *)
Definition time_Since (now t : Time) : Duration := Time_Sub now t.

(** ** Outcomes of Go calls

    A call either returns or panics (a nil function value called, a nil
    callback invoked). *)

Inductive outcome (A : Type) : Type :=
| Returns (a : A)
| Panics.
Arguments Returns {A} a.
Arguments Panics {A}.

Definition bind {A B} (m : outcome A) (k : A -> outcome B) : outcome B :=
  match m with
  | Returns a => k a
  | Panics => Panics
  end.

Notation "x <- m ;; k" := (bind m (fun x => k))
  (at level 61, m at next level, right associativity).

(** ** Errors

    Error values are compared by the code only through [errors.Is]; the
    structure below is what the code itself builds. *)

Module Errors.

(** [RetryReason] as gocbcore implements it: a comparable struct. *)
Record RetryReason : Type := mkReason {
  AllowsNonIdempotentRetry : bool;
  AlwaysRetry : bool;
  Description : string
}.

Definition RetryReason_eqb (a b : RetryReason) : bool :=
  Bool.eqb (AllowsNonIdempotentRetry a) (AllowsNonIdempotentRetry b)
  && Bool.eqb (AlwaysRetry a) (AlwaysRetry b)
  && String.eqb (Description a) (Description b).

Inductive error : Type :=
| ErrorValue (name : string)
    (** an error value of another package or a package-level sentinel *)
| TimeoutError (InnerError : error) (OperationID : string) (Opaque : string)
               (TimeObserved : Duration) (RetryReasons : list RetryReason)
               (RetryAttempts : Z)
    (** [&TimeoutError{...}] *)
| MappedError (inner : error) (idempotent : bool) (detail : string).
    (** an error produced by the error mapper *)

Definition ErrUnambiguousTimeout : error := ErrorValue "unambiguous timeout".
Definition ErrRequestCanceled : error := ErrorValue "request canceled".

End Errors.
Export Errors.

(** ** retry.go: reasons, actions, strategies, the retry decision *)

Module Retry.

(** [RetryAction]: the two implementations of the package. *)
Inductive RetryAction : Type :=
| NoRetryRetryAction
| WithDurationRetryAction (WithDuration : Duration).

Definition RetryAction_Duration (ra : RetryAction) : Duration :=
  match ra with
  | NoRetryRetryAction => 0
  | WithDurationRetryAction d => d
  end.

(** What a strategy may observe of a request: the [RetryRequest]
    interface. *)
Record RetryRequest : Type := mkRetryRequest {
  RetryAttempts : Z;
  Identifier : string;
  Idempotent : bool;
  RetryReasons : list RetryReason
}.

(** [RetryStrategy]: [RetryAfter] returns an action or nil ([None]). A
    strategy reads the request through the [RetryRequest] interface; it is
    taken not to write through the slice [RetryReasons()] hands out. *)
Definition RetryStrategy : Type :=
  RetryRequest -> RetryReason -> outcome (option RetryAction).

(** [BackoffCalculator func(retryAttempts uint32) time.Duration] *)
Definition BackoffCalculator : Type := Z -> Duration.

(** The [BackoffCalculator] field may hold a nil function value. *)
Record BestEffortRetryStrategy : Type := mkBestEffort {
  BE_BackoffCalculator : option BackoffCalculator
}.

(** [retriableRequestPs]; [sendFn] is played by the environment of
    [handleRetriableRequest], the trace context has no bearing on control
    flow. *)
Record retriableRequestPs : Type := mkReq {
  reasons : list RetryReason;
  attempts : Z;
  operation : string;
  identifier : string;
  idempotent : bool;
  strategy : option RetryStrategy
}.

Definition as_RetryRequest (w : retriableRequestPs) : RetryRequest :=
  {| RetryAttempts := attempts w;
     Identifier := identifier w;
     Idempotent := idempotent w;
     RetryReasons := reasons w |}.

(** [newRetriableRequestPS]; the identifier is six characters of a fresh
    UUID, chosen by the environment. *)
Definition newRetriableRequestPS (op : string) (idem : bool)
    (strat : option RetryStrategy) (uuid6 : string) : retriableRequestPs :=
  {| reasons := []; attempts := 0; operation := op; identifier := uuid6;
     idempotent := idem; strategy := strat |}.

(** The loop of [recordRetryAttempt]: is [reason] among [w.reasons]? *)
Fixpoint reason_found (rs : list RetryReason) (reason : RetryReason) : bool :=
  match rs with
  | [] => false
  | r :: rest => if RetryReason_eqb r reason then true else reason_found rest reason
  end.

Definition recordRetryAttempt (w : retriableRequestPs) (reason : RetryReason)
    : retriableRequestPs :=
  let attempts' := wrap_uint32 (attempts w + 1) in
  let reasons' :=
    if reason_found (reasons w) reason then reasons w
    else reasons w ++ [reason] in
  {| reasons := reasons'; attempts := attempts';
     operation := operation w; identifier := identifier w;
     idempotent := idempotent w; strategy := strategy w |}.

Section WithBackoff.

(** [gocbcore.ControlledBackoff] *)
Variable ControlledBackoff : Z -> Duration.
(** [gocbcore.ExponentialBackoff(1ms, 500ms, 2)] *)
Variable defaultBackoff : BackoffCalculator.

Definition NewBestEffortRetryStrategy (calculator : option BackoffCalculator)
    : BestEffortRetryStrategy :=
  let calculator :=
    match calculator with
    | None => Some defaultBackoff
    | Some c => Some c
    end in
  {| BE_BackoffCalculator := calculator |}.

Definition BestEffort_RetryAfter (rs : BestEffortRetryStrategy)
    (req : RetryRequest) (reason : RetryReason) : outcome RetryAction :=
  if Idempotent req || AllowsNonIdempotentRetry reason then
    match BE_BackoffCalculator rs with
    | Some calc => Returns (WithDurationRetryAction (calc (RetryAttempts req)))
    | None => Panics
    end
  else Returns NoRetryRetryAction.

(** A [*BestEffortRetryStrategy] seen through the [RetryStrategy]
    interface: the action it returns is never nil. *)
Definition BestEffort_as_strategy (rs : BestEffortRetryStrategy) : RetryStrategy :=
  fun req reason => a <- BestEffort_RetryAfter rs req reason ;; Returns (Some a).

(** [retryOrchMaybeRetry]; [now] is the reading of [time.Now()]. The
    result carries the request as the call leaves it. *)
Definition retryOrchMaybeRetry (now : Time) (req : retriableRequestPs)
    (reason : RetryReason) : outcome (bool * Time * retriableRequestPs) :=
  if AlwaysRetry reason then
    let duration := ControlledBackoff (attempts req) in
    let req' := recordRetryAttempt req reason in
    Returns (true, Time_Add now duration, req')
  else
    match strategy req with
    | None => Returns (false, zeroTime, req)
    | Some retryStrategy =>
        action <- retryStrategy (as_RetryRequest req) reason ;;
        match action with
        | None => Returns (false, zeroTime, req)
        | Some action =>
            let duration := RetryAction_Duration action in
            if duration =? 0 then Returns (false, zeroTime, req)
            else
              let req' := recordRetryAttempt req reason in
              Returns (true, Time_Add now duration, req')
        end
    end.

Definition retried (r : outcome (bool * Time * retriableRequestPs)) : Prop :=
  exists wake req', r = Returns (true, wake, req').

Definition not_retried (r : outcome (bool * Time * retriableRequestPs)) : Prop :=
  exists wake req', r = Returns (false, wake, req').


(** *** [handleRetriableRequest] *)

(** The value a successful [Send] returns. *)
Variable Response : Type.
(** [mapPsErrorToGocbError] *)
Variable mapPsErrorToGocbError : error -> bool -> error.
(** [errors.Is(e, ErrTimeout)] *)
Variable errors_Is_ErrTimeout : error -> bool.
(** [errors.Is(e, context.DeadlineExceeded)] *)
Variable errors_Is_DeadlineExceeded : error -> bool.
(** [makeGenericError(e, nil)] *)
Variable makeGenericError : error -> error.

(** Which case of the [select] is taken. *)
Inductive wait_outcome : Type :=
| TimerFired
| CtxDone (err : error).  (** [ctx.Err()] once [ctx.Done()] is closed *)

(** What the environment contributes to one turn of the loop. *)
Record attempt_env : Type := mkAttemptEnv {
  env_send : Response + error;  (** [req.Send(ctx)]; [inl] when [err == nil] *)
  env_now : Time;               (** [time.Now()] in [retryOrchMaybeRetry] *)
  env_wait : wait_outcome;
  env_end : Time                (** [time.Now()] read by [time.Since] *)
}.

Inductive loop_step : Type :=
| Continue (req : retriableRequestPs)
| Done (res : Response + error) (req : retriableRequestPs).

(** One turn of the [for] loop. *)
Definition handle_attempt (createdTime : Time)
    (retryReasonFn : error -> option RetryReason)
    (e : attempt_env) (req : retriableRequestPs) : outcome loop_step :=
  match env_send e with
  | inl res => Returns (Done (inl res) req)
  | inr err =>
      let gocbErr := mapPsErrorToGocbError err (idempotent req) in
      if errors_Is_ErrTimeout gocbErr then
        Returns (Done (inr (TimeoutError err (operation req) (identifier req)
                              (time_Since (env_end e) createdTime)
                              (reasons req) (attempts req))) req)
      else
        match retryReasonFn gocbErr with
        | None => Returns (Done (inr gocbErr) req)
        | Some retryReason =>
            r <- retryOrchMaybeRetry (env_now e) req retryReason ;;
            let '(shouldRetry, retryWait, req') := r in
            if negb shouldRetry then Returns (Done (inr gocbErr) req')
            else
              match env_wait e with
              | TimerFired => Returns (Continue req')
              | CtxDone cerr =>
                  if errors_Is_DeadlineExceeded cerr then
                    Returns (Done (inr (TimeoutError ErrUnambiguousTimeout
                                          (operation req') (identifier req')
                                          (time_Since (env_end e) createdTime)
                                          (reasons req') (attempts req'))) req')
                  else
                    Returns (Done (inr (makeGenericError ErrRequestCanceled)) req')
              end
        end
  end.

(** The loop, run against the turns the environment supplies; it is
    still running ([Continue]) when they are used up. *)
Fixpoint handleRetriableRequest (createdTime : Time)
    (retryReasonFn : error -> option RetryReason)
    (envs : list attempt_env) (req : retriableRequestPs) : outcome loop_step :=
  match envs with
  | [] => Returns (Continue req)
  | e :: rest =>
      s <- handle_attempt createdTime retryReasonFn e req ;;
      match s with
      | Continue req' => handleRetriableRequest createdTime retryReasonFn rest req'
      | Done res req' => Returns (Done res req')
      end
  end.

End WithBackoff.

End Retry.

(** ** The bulk provider: data

    The operation, result, option and collection structs are declared
    outside the sources at hand; each is modelled with the fields the
    provider reads and writes. *)

Module Bulk.

Definition bytes : Type := list Byte.byte.

(** A document value ([interface{}]); only the transcoder looks inside. *)
Definition Value : Type := string.

(** [Transcoder]: [Encode] returns the bytes and the flags, or an error. *)
Record Transcoder : Type := mkTranscoder {
  Encode : Value -> (bytes * Z) + error
}.

(** A span context names the spans from the innermost outwards; the
    nil context is the empty chain. *)
Definition RequestSpanContext : Type := list string.

Record Span : Type := mkSpan {
  span_name : string;
  span_parent : RequestSpanContext;
  span_noAttributes : bool
}.

Definition Span_Context (s : Span) : RequestSpanContext :=
  span_name s :: span_parent s.

(** [context.Context], as far as the provider is concerned. *)
Record Context : Type := mkContext {
  ctx_deadline : option Time
}.

Definition context_Background : Context := {| ctx_deadline := None |}.

(** [context.WithTimeout(parent, timeout)] at clock reading [now]. *)
Definition context_WithTimeout (parent : Context) (now : Time) (timeout : Duration)
    : Context :=
  let d := Time_Add now timeout in
  match ctx_deadline parent with
  | Some cur => if cur <? d then parent else {| ctx_deadline := Some d |}
  | None => {| ctx_deadline := Some d |}
  end.

Record Collection : Type := mkCollection {
  col_name : string;
  col_ScopeName : string;
  col_bucketName : string;
  KVTimeout : Duration;        (** [c.timeoutsConfig.KVTimeout] *)
  col_transcoder : Transcoder
}.

Record BulkOpOptions : Type := mkBulkOpOptions {
  opt_Timeout : Duration;
  opt_Transcoder : option Transcoder;
  opt_ParentSpan : option Span;
  opt_Context : option Context
}.

(** Mutation tokens, on the wire and in the SDK. *)
Record PsMutationToken : Type := mkPsMutationToken {
  ps_BucketName : string; ps_VbucketId : Z; ps_VbucketUuid : Z; ps_SeqNo : Z
}.

Record MutationToken : Type := mkMutationToken {
  mt_bucketName : string; mt_VbID : Z; mt_VbUUID : Z; mt_SeqNo : Z
}.

(** *** Results *)

Record GetResult : Type := mkGetResult {
  gr_cas : Z;
  gr_transcoder : Transcoder;
  gr_contents : bytes;
  gr_flags : Z
}.

Record MutationResult : Type := mkMutationResult {
  mr_mt : option MutationToken;
  mr_cas : Z
}.

Record CounterResult : Type := mkCounterResult {
  cr_mt : option MutationToken;
  cr_cas : Z;
  cr_content : Z
}.

(** *** Operations

    Every operation struct embeds [bulkOp] (the [finishFn] callback) and
    has a [Result] and an [Err] slot next to its own input fields. *)

(** The closure a handler stores in [finishFn]: it captures the span, the
    operation name and the start time. *)
Record finish_closure : Type := mkFinish {
  fc_span : Span;
  fc_operation : string;
  fc_start : Time
}.

Record Op (F R : Type) : Type := mkOp {
  fields : F;
  Result : option R;
  Err : option error;
  finishFn : option finish_closure
}.
Arguments mkOp {F R} _ _ _ _.
Arguments fields {F R} _.
Arguments Result {F R} _.
Arguments Err {F R} _.
Arguments finishFn {F R} _.

Definition set_finishFn {F R} (o : Op F R) (f : finish_closure) : Op F R :=
  mkOp (fields o) (Result o) (Err o) (Some f).

Definition set_Err {F R} (o : Op F R) (e : error) : Op F R :=
  mkOp (fields o) (Result o) (Some e) (finishFn o).

Definition set_Result {F R} (o : Op F R) (r : R) : Op F R :=
  mkOp (fields o) (Some r) (Err o) (finishFn o).

Record GetFields : Type := { Get_ID : string }.
Record GetAndTouchFields : Type := { GetAndTouch_ID : string; GetAndTouch_Expiry : Duration }.
Record TouchFields : Type := { Touch_ID : string; Touch_Expiry : Duration }.
Record RemoveFields : Type := { Remove_ID : string; Remove_Cas : Z }.
Record UpsertFields : Type :=
  { Upsert_ID : string; Upsert_Value : Value; Upsert_Expiry : Duration }.
Record InsertFields : Type :=
  { Insert_ID : string; Insert_Value : Value; Insert_Expiry : Duration }.
Record ReplaceFields : Type :=
  { Replace_ID : string; Replace_Value : Value; Replace_Cas : Z;
    Replace_Expiry : Duration }.
Record AppendFields : Type := { Append_ID : string; Append_Value : string }.
Record PrependFields : Type := { Prepend_ID : string; Prepend_Value : string }.
Record IncrementFields : Type :=
  { Increment_ID : string; Increment_Delta : Z; Increment_Initial : Z;
    Increment_Expiry : Duration }.
Record DecrementFields : Type :=
  { Decrement_ID : string; Decrement_Delta : Z; Decrement_Initial : Z;
    Decrement_Expiry : Duration }.

Definition GetOp := Op GetFields GetResult.
Definition GetAndTouchOp := Op GetAndTouchFields GetResult.
Definition TouchOp := Op TouchFields MutationResult.
Definition RemoveOp := Op RemoveFields MutationResult.
Definition UpsertOp := Op UpsertFields MutationResult.
Definition InsertOp := Op InsertFields MutationResult.
Definition ReplaceOp := Op ReplaceFields MutationResult.
Definition AppendOp := Op AppendFields MutationResult.
Definition PrependOp := Op PrependFields MutationResult.
Definition IncrementOp := Op IncrementFields CounterResult.
Definition DecrementOp := Op DecrementFields CounterResult.

(** [BulkOp]: an interface value, by its dynamic type. The worker's type
    switch has a case for eleven types, each a pointer to an operation
    struct, which the handlers take to be valid. [IsUnmatched] is every
    other value: the nil [BulkOp], which a slice of operations may hold,
    or a value of a type the switch has no case for. *)
Inductive BulkOp : Type :=
| IsGetOp (i : GetOp)
| IsGetAndTouchOp (i : GetAndTouchOp)
| IsTouchOp (i : TouchOp)
| IsRemoveOp (i : RemoveOp)
| IsUpsertOp (i : UpsertOp)
| IsInsertOp (i : InsertOp)
| IsReplaceOp (i : ReplaceOp)
| IsAppendOp (i : AppendOp)
| IsPrependOp (i : PrependOp)
| IsIncrementOp (i : IncrementOp)
| IsDecrementOp (i : DecrementOp)
| IsUnmatched.

(** The case of the type switch a value falls under, [KUnmatched] when it
    falls under none. *)
Inductive OpKind : Type :=
| KGet | KGetAndTouch | KTouch | KRemove | KUpsert | KInsert | KReplace
| KAppend | KPrepend | KIncrement | KDecrement
| KUnmatched.

Definition kind_of (op : BulkOp) : OpKind :=
  match op with
  | IsGetOp _ => KGet | IsGetAndTouchOp _ => KGetAndTouch
  | IsTouchOp _ => KTouch | IsRemoveOp _ => KRemove
  | IsUpsertOp _ => KUpsert | IsInsertOp _ => KInsert
  | IsReplaceOp _ => KReplace | IsAppendOp _ => KAppend
  | IsPrependOp _ => KPrepend | IsIncrementOp _ => KIncrement
  | IsDecrementOp _ => KDecrement
  | IsUnmatched => KUnmatched
  end.

(** The type switch of [worker] has a case for the value. *)
Definition has_case (op : BulkOp) : bool :=
  match op with
  | IsUnmatched => false
  | _ => true
  end.

Definition BulkOp_Err (op : BulkOp) : option error :=
  match op with
  | IsGetOp i => Err i | IsGetAndTouchOp i => Err i | IsTouchOp i => Err i
  | IsRemoveOp i => Err i | IsUpsertOp i => Err i | IsInsertOp i => Err i
  | IsReplaceOp i => Err i | IsAppendOp i => Err i | IsPrependOp i => Err i
  | IsIncrementOp i => Err i | IsDecrementOp i => Err i
  | IsUnmatched => None
  end.

Definition BulkOp_finishFn (op : BulkOp) : option finish_closure :=
  match op with
  | IsGetOp i => finishFn i | IsGetAndTouchOp i => finishFn i
  | IsTouchOp i => finishFn i | IsRemoveOp i => finishFn i
  | IsUpsertOp i => finishFn i | IsInsertOp i => finishFn i
  | IsReplaceOp i => finishFn i | IsAppendOp i => finishFn i
  | IsPrependOp i => finishFn i | IsIncrementOp i => finishFn i
  | IsDecrementOp i => finishFn i
  | IsUnmatched => None
  end.

Definition isSome {A} (o : option A) : bool :=
  match o with Some _ => true | None => false end.

Definition BulkOp_has_Result (op : BulkOp) : bool :=
  match op with
  | IsGetOp i => isSome (Result i)
  | IsGetAndTouchOp i => isSome (Result i)
  | IsTouchOp i => isSome (Result i)
  | IsRemoveOp i => isSome (Result i)
  | IsUpsertOp i => isSome (Result i)
  | IsInsertOp i => isSome (Result i)
  | IsReplaceOp i => isSome (Result i)
  | IsAppendOp i => isSome (Result i)
  | IsPrependOp i => isSome (Result i)
  | IsIncrementOp i => isSome (Result i)
  | IsDecrementOp i => isSome (Result i)
  | IsUnmatched => false
  end.

(** *** Requests and responses of [kv_v1] *)

Record Request (X : Type) : Type := mkRequest {
  Key : string;
  BucketName : string;
  ScopeName : string;
  CollectionName : string;
  extra : X
}.
Arguments mkRequest {X} _ _ _ _ _.

Record ExpiryOnly : Type := { eo_ExpirySecs : Z }.
Record RemoveExtra : Type := { rm_Cas : option Z }.
Record StoreExtra : Type :=
  { st_Content : bytes; st_ContentFlags : Z; st_Cas : option Z;
    st_Expiry : option Z }.
Record ConcatExtra : Type := { cc_Content : bytes }.
Record CounterExtra : Type :=
  { ct_Delta : Z; ct_Expiry : option Z; ct_Initial : option Z }.

(** The [Content] one-of of a read response. *)
Inductive ResponseContent : Type :=
| ContentUncompressed (b : bytes)
| ContentCompressed (b : bytes)
| ContentUnset.

Record GetResponse : Type := mkGetResponse {
  get_Content : ResponseContent; get_Cas : Z; get_ContentFlags : Z
}.

Record GetAndTouchResponse : Type := mkGetAndTouchResponse {
  gat_Content : ResponseContent; gat_Cas : Z; gat_ContentFlags : Z
}.

Record MutationResponse : Type := mkMutationResponse {
  mut_Cas : Z; mut_MutationToken : option PsMutationToken
}.

Record CounterResponse : Type := mkCounterResponse {
  cnt_Cas : Z; cnt_Content : Z; cnt_MutationToken : option PsMutationToken
}.

(** [kv_v1.KvServiceClient]: the remote calls the provider makes. *)
Record KvServiceClient : Type := mkClient {
  client_Get : Context -> Request unit -> GetResponse + error;
  client_GetAndTouch : Context -> Request ExpiryOnly -> GetAndTouchResponse + error;
  client_Touch : Context -> Request ExpiryOnly -> MutationResponse + error;
  client_Remove : Context -> Request RemoveExtra -> MutationResponse + error;
  client_Upsert : Context -> Request StoreExtra -> MutationResponse + error;
  client_Insert : Context -> Request StoreExtra -> MutationResponse + error;
  client_Replace : Context -> Request StoreExtra -> MutationResponse + error;
  client_Append : Context -> Request ConcatExtra -> MutationResponse + error;
  client_Prepend : Context -> Request ConcatExtra -> MutationResponse + error;
  client_Increment : Context -> Request CounterExtra -> CounterResponse + error;
  client_Decrement : Context -> Request CounterExtra -> CounterResponse + error
}.

(** What a handler does besides computing. *)
Inductive effect : Type :=
| StartSpan (s : Span)
| EndSpan (s : Span)
| LogWarn (msg : string)
| ValueRecord (service operation : string) (start : Time)
| SignalSend (item : BulkOp).

(** [bulkOpChanStruct]; the [signal] channel is the one of the batch. *)
Record bulkOpChanStruct : Type := mkChanStruct {
  cs_ctx : Context;
  cs_i : BulkOp;
  cs_spanContext : RequestSpanContext;
  cs_c : Collection;
  cs_transcoder : Transcoder
}.

(** ** The bulk provider: the per-kind handlers *)

Section Handlers.

(** [mapPsErrorToGocbError] *)
Variable mapPsErrorToGocbError : error -> bool -> error.
(** [psMutToGoCbMut] *)
Variable psMutToGoCbMut : option PsMutationToken -> option MutationToken.
(** [uint32(d.Seconds())] *)
Variable uint32_of_Seconds : Duration -> Z.
(** [meterValueServiceKV] *)
Variable meterValueServiceKV : string.

(** [Collection.startKvOpTrace]. Modelled from the spec: the method is
    declared outside the sources at hand; it is the tracer's hook that
    starts a span of the given name under the parent context. The handlers
    report the opening as [StartSpan]. *)
Definition startKvOpTrace (c : Collection) (name : string)
    (tracectx : RequestSpanContext) (noAttributes : bool) : Span :=
  {| span_name := name; span_parent := tracectx; span_noAttributes := noAttributes |}.

Definition compressed_warning : string :=
  "couchbase2 does not currently support compressed content, passing through compressed value".

(** The type switch on [res.Content]: the bytes, and what is logged. *)
Definition read_content (c : ResponseContent) : bytes * list effect :=
  match c with
  | ContentUncompressed b => (b, [])
  | ContentCompressed b => (b, [LogWarn compressed_warning])
  | ContentUnset => ([], [])
  end.

Definition expiry_secs (expiry : Duration) : option Z :=
  if 0 <? expiry then Some (uint32_of_Seconds expiry) else None.

Definition cas_ptr (cas : Z) : option Z :=
  if 0 <? cas then Some cas else None.

Definition mutation_result (res : MutationResponse) : MutationResult :=
  {| mr_mt := psMutToGoCbMut (mut_MutationToken res); mr_cas := mut_Cas res |}.

Definition counter_result (res : CounterResponse) : CounterResult :=
  {| cr_mt := psMutToGoCbMut (cnt_MutationToken res);
     cr_cas := cnt_Cas res;
     cr_content := wrap_uint64 (cnt_Content res) |}.

Definition Get (client : KvServiceClient) (ctx : Context) (start : Time)
    (item : GetOp) (tracectx : RequestSpanContext) (c : Collection)
    (transcoder : Transcoder) : list effect :=
  let span := startKvOpTrace c "get" tracectx false in
  let item := set_finishFn item (mkFinish span "get" start) in
  let request :=
    mkRequest (Get_ID (fields item)) (col_bucketName c) (col_ScopeName c) (col_name c) tt in
  StartSpan span ::
  match client_Get client ctx request with
  | inr err => [SignalSend (IsGetOp (set_Err item (mapPsErrorToGocbError err true)))]
  | inl res =>
      let '(content, logged) := read_content (get_Content res) in
      logged ++
      [SignalSend (IsGetOp (set_Result item
         {| gr_cas := get_Cas res; gr_transcoder := transcoder;
            gr_contents := content; gr_flags := get_ContentFlags res |}))]
  end.

Definition GetAndTouch (client : KvServiceClient) (ctx : Context) (start : Time)
    (item : GetAndTouchOp) (tracectx : RequestSpanContext) (c : Collection)
    (transcoder : Transcoder) : list effect :=
  let span := startKvOpTrace c "get_and_touch" tracectx false in
  let item := set_finishFn item (mkFinish span "get_and_touch" start) in
  let reqExpiry := {| eo_ExpirySecs := uint32_of_Seconds (GetAndTouch_Expiry (fields item)) |} in
  let request :=
    mkRequest (GetAndTouch_ID (fields item)) (col_bucketName c) (col_ScopeName c)
      (col_name c) reqExpiry in
  StartSpan span ::
  match client_GetAndTouch client ctx request with
  | inr err => [SignalSend (IsGetAndTouchOp (set_Err item (mapPsErrorToGocbError err false)))]
  | inl res =>
      let '(content, logged) := read_content (gat_Content res) in
      logged ++
      [SignalSend (IsGetAndTouchOp (set_Result item
         {| gr_cas := gat_Cas res; gr_transcoder := transcoder;
            gr_contents := content; gr_flags := gat_ContentFlags res |}))]
  end.

Definition Touch (client : KvServiceClient) (ctx : Context) (start : Time)
    (item : TouchOp) (tracectx : RequestSpanContext) (c : Collection) : list effect :=
  let span := startKvOpTrace c "touch" tracectx false in
  let item := set_finishFn item (mkFinish span "touch" start) in
  let request :=
    mkRequest (Touch_ID (fields item)) (col_bucketName c) (col_ScopeName c) (col_name c)
      {| eo_ExpirySecs := uint32_of_Seconds (Touch_Expiry (fields item)) |} in
  StartSpan span ::
  match client_Touch client ctx request with
  | inr err => [SignalSend (IsTouchOp (set_Err item (mapPsErrorToGocbError err false)))]
  | inl res => [SignalSend (IsTouchOp (set_Result item (mutation_result res)))]
  end.

Definition Remove (client : KvServiceClient) (ctx : Context) (start : Time)
    (item : RemoveOp) (tracectx : RequestSpanContext) (c : Collection) : list effect :=
  let span := startKvOpTrace c "remove" tracectx false in
  let item := set_finishFn item (mkFinish span "remove" start) in
  let cas := cas_ptr (Remove_Cas (fields item)) in
  let request :=
    mkRequest (Remove_ID (fields item)) (col_bucketName c) (col_ScopeName c) (col_name c)
      {| rm_Cas := cas |} in
  StartSpan span ::
  match client_Remove client ctx request with
  | inr err => [SignalSend (IsRemoveOp (set_Err item (mapPsErrorToGocbError err false)))]
  | inl res => [SignalSend (IsRemoveOp (set_Result item (mutation_result res)))]
  end.

Definition Upsert (client : KvServiceClient) (ctx : Context) (start : Time)
    (item : UpsertOp) (tracectx : RequestSpanContext) (c : Collection)
    (transcoder : Transcoder) : list effect :=
  let span := startKvOpTrace c "upsert" tracectx false in
  let item := set_finishFn item (mkFinish span "upsert" start) in
  let etrace := startKvOpTrace c "request_encoding" (Span_Context span) true in
  StartSpan span :: StartSpan etrace :: EndSpan etrace ::
  match Encode transcoder (Upsert_Value (fields item)) with
  | inr err => [SignalSend (IsUpsertOp (set_Err item err))]
  | inl (bytes, flags) =>
      let expiry := expiry_secs (Upsert_Expiry (fields item)) in
      let request :=
        mkRequest (Upsert_ID (fields item)) (col_bucketName c) (col_ScopeName c) (col_name c)
          {| st_Content := bytes; st_ContentFlags := flags; st_Cas := None;
             st_Expiry := expiry |} in
      match client_Upsert client ctx request with
      | inr err => [SignalSend (IsUpsertOp (set_Err item (mapPsErrorToGocbError err false)))]
      | inl res => [SignalSend (IsUpsertOp (set_Result item (mutation_result res)))]
      end
  end.

Definition Insert (client : KvServiceClient) (ctx : Context) (start : Time)
    (item : InsertOp) (tracectx : RequestSpanContext) (c : Collection)
    (transcoder : Transcoder) : list effect :=
  let span := startKvOpTrace c "insert" tracectx false in
  let item := set_finishFn item (mkFinish span "insert" start) in
  let etrace := startKvOpTrace c "request_encoding" (Span_Context span) true in
  StartSpan span :: StartSpan etrace :: EndSpan etrace ::
  match Encode transcoder (Insert_Value (fields item)) with
  | inr err => [SignalSend (IsInsertOp (set_Err item err))]
  | inl (bytes, flags) =>
      let expiry := expiry_secs (Insert_Expiry (fields item)) in
      let request :=
        mkRequest (Insert_ID (fields item)) (col_bucketName c) (col_ScopeName c) (col_name c)
          {| st_Content := bytes; st_ContentFlags := flags; st_Cas := None;
             st_Expiry := expiry |} in
      match client_Insert client ctx request with
      | inr err => [SignalSend (IsInsertOp (set_Err item (mapPsErrorToGocbError err false)))]
      | inl res => [SignalSend (IsInsertOp (set_Result item (mutation_result res)))]
      end
  end.

Definition Replace (client : KvServiceClient) (ctx : Context) (start : Time)
    (item : ReplaceOp) (tracectx : RequestSpanContext) (c : Collection)
    (transcoder : Transcoder) : list effect :=
  let span := startKvOpTrace c "replace" tracectx false in
  let item := set_finishFn item (mkFinish span "replace" start) in
  let etrace := startKvOpTrace c "request_encoding" (Span_Context span) true in
  StartSpan span :: StartSpan etrace :: EndSpan etrace ::
  match Encode transcoder (Replace_Value (fields item)) with
  | inr err => [SignalSend (IsReplaceOp (set_Err item err))]
  | inl (bytes, flags) =>
      let cas := cas_ptr (Replace_Cas (fields item)) in
      let expiry := expiry_secs (Replace_Expiry (fields item)) in
      let request :=
        mkRequest (Replace_ID (fields item)) (col_bucketName c) (col_ScopeName c) (col_name c)
          {| st_Content := bytes; st_ContentFlags := flags; st_Cas := cas;
             st_Expiry := expiry |} in
      match client_Replace client ctx request with
      | inr err => [SignalSend (IsReplaceOp (set_Err item (mapPsErrorToGocbError err false)))]
      | inl res => [SignalSend (IsReplaceOp (set_Result item (mutation_result res)))]
      end
  end.

Definition Append (client : KvServiceClient) (ctx : Context) (start : Time)
    (item : AppendOp) (tracectx : RequestSpanContext) (c : Collection) : list effect :=
  let span := startKvOpTrace c "append" tracectx false in
  let item := set_finishFn item (mkFinish span "append" start) in
  let request :=
    mkRequest (Append_ID (fields item)) (col_bucketName c) (col_ScopeName c) (col_name c)
      {| cc_Content := list_byte_of_string (Append_Value (fields item)) |} in
  StartSpan span ::
  match client_Append client ctx request with
  | inr err => [SignalSend (IsAppendOp (set_Err item (mapPsErrorToGocbError err false)))]
  | inl res => [SignalSend (IsAppendOp (set_Result item (mutation_result res)))]
  end.

Definition Prepend (client : KvServiceClient) (ctx : Context) (start : Time)
    (item : PrependOp) (tracectx : RequestSpanContext) (c : Collection) : list effect :=
  let span := startKvOpTrace c "prepend" tracectx false in
  let item := set_finishFn item (mkFinish span "prepend" start) in
  let request :=
    mkRequest (Prepend_ID (fields item)) (col_bucketName c) (col_ScopeName c) (col_name c)
      {| cc_Content := list_byte_of_string (Prepend_Value (fields item)) |} in
  StartSpan span ::
  match client_Prepend client ctx request with
  | inr err => [SignalSend (IsPrependOp (set_Err item (mapPsErrorToGocbError err false)))]
  | inl res => [SignalSend (IsPrependOp (set_Result item (mutation_result res)))]
  end.

Definition Increment (client : KvServiceClient) (ctx : Context) (start : Time)
    (item : IncrementOp) (tracectx : RequestSpanContext) (c : Collection) : list effect :=
  let span := startKvOpTrace c "increment" tracectx false in
  let item := set_finishFn item (mkFinish span "increment" start) in
  let expiry := expiry_secs (Increment_Expiry (fields item)) in
  let request :=
    mkRequest (Increment_ID (fields item)) (col_bucketName c) (col_ScopeName c) (col_name c)
      {| ct_Delta := wrap_uint64 (Increment_Delta (fields item)); ct_Expiry := expiry;
         ct_Initial := Some (Increment_Initial (fields item)) |} in
  StartSpan span ::
  match client_Increment client ctx request with
  | inr err => [SignalSend (IsIncrementOp (set_Err item (mapPsErrorToGocbError err false)))]
  | inl res => [SignalSend (IsIncrementOp (set_Result item (counter_result res)))]
  end.

Definition Decrement (client : KvServiceClient) (ctx : Context) (start : Time)
    (item : DecrementOp) (tracectx : RequestSpanContext) (c : Collection) : list effect :=
  let span := startKvOpTrace c "decrement" tracectx false in
  let item := set_finishFn item (mkFinish span "decrement" start) in
  let expiry := expiry_secs (Decrement_Expiry (fields item)) in
  let request :=
    mkRequest (Decrement_ID (fields item)) (col_bucketName c) (col_ScopeName c) (col_name c)
      {| ct_Delta := wrap_uint64 (Decrement_Delta (fields item)); ct_Expiry := expiry;
         ct_Initial := Some (Decrement_Initial (fields item)) |} in
  StartSpan span ::
  match client_Decrement client ctx request with
  | inr err => [SignalSend (IsDecrementOp (set_Err item (mapPsErrorToGocbError err false)))]
  | inl res => [SignalSend (IsDecrementOp (set_Result item (counter_result res)))]
  end.

(** The body of the worker's loop: the type switch on [op.i]. [start] is the
    handler's reading of [time.Now()]. The switch has no default: for a
    value without a case no handler runs and nothing is sent on [signal]. *)
Definition worker_handle (client : KvServiceClient) (start : Time)
    (op : bulkOpChanStruct) : list effect :=
  match cs_i op with
  | IsGetOp i => Get client (cs_ctx op) start i (cs_spanContext op) (cs_c op) (cs_transcoder op)
  | IsGetAndTouchOp i =>
      GetAndTouch client (cs_ctx op) start i (cs_spanContext op) (cs_c op) (cs_transcoder op)
  | IsTouchOp i => Touch client (cs_ctx op) start i (cs_spanContext op) (cs_c op)
  | IsRemoveOp i => Remove client (cs_ctx op) start i (cs_spanContext op) (cs_c op)
  | IsUpsertOp i =>
      Upsert client (cs_ctx op) start i (cs_spanContext op) (cs_c op) (cs_transcoder op)
  | IsInsertOp i =>
      Insert client (cs_ctx op) start i (cs_spanContext op) (cs_c op) (cs_transcoder op)
  | IsReplaceOp i =>
      Replace client (cs_ctx op) start i (cs_spanContext op) (cs_c op) (cs_transcoder op)
  | IsAppendOp i => Append client (cs_ctx op) start i (cs_spanContext op) (cs_c op)
  | IsPrependOp i => Prepend client (cs_ctx op) start i (cs_spanContext op) (cs_c op)
  | IsIncrementOp i => Increment client (cs_ctx op) start i (cs_spanContext op) (cs_c op)
  | IsDecrementOp i => Decrement client (cs_ctx op) start i (cs_spanContext op) (cs_c op)
  | IsUnmatched => []
  end.

(** The items a run of a handler puts on the [signal] channel. *)
Fixpoint signalled (effs : list effect) : list BulkOp :=
  match effs with
  | [] => []
  | SignalSend item :: rest => item :: signalled rest
  | _ :: rest => signalled rest
  end.

(** The warnings a run of a handler logs. *)
Fixpoint warnings (effs : list effect) : list string :=
  match effs with
  | [] => []
  | LogWarn msg :: rest => msg :: warnings rest
  | _ :: rest => warnings rest
  end.

(** ** The bulk provider: [Do] *)

(** [bulkOp.finish]. Modelled from the spec: the method is declared with
    [bulkOp], outside the sources at hand; it invokes the completion
    callback the handler stored (the span is closed, the latency
    recorded). Without a callback, as on the nil value, the call
    panics. *)
Definition finish (item : BulkOp) : outcome (list effect) :=
  match BulkOp_finishFn item with
  | Some f =>
      Returns [EndSpan (fc_span f);
               ValueRecord meterValueServiceKV (fc_operation f) (fc_start f)]
  | None => Panics
  end.

(** [const _workerCount = 10000] *)
Definition _workerCount : Z := 10000.

(** The timeout [Do] hands to [context.WithTimeout]. *)
Definition Do_timeout (c : Collection) (ops : list BulkOp) (opts : BulkOpOptions)
    : Duration :=
  let timeout := opt_Timeout opts in
  if opt_Timeout opts =? 0 then
    wrap_int64 (KVTimeout c * Z.of_nat (length ops))
  else timeout.

Definition Do_tracectx (opts : BulkOpOptions) : RequestSpanContext :=
  match opt_ParentSpan opts with
  | Some parent => Span_Context parent
  | None => []
  end.

Definition Do_span (c : Collection) (opts : BulkOpOptions) : Span :=
  startKvOpTrace c "bulk" (Do_tracectx opts) false.

Definition Do_ctx (c : Collection) (ops : list BulkOp) (opts : BulkOpOptions)
    (now : Time) : Context :=
  let ctx :=
    match opt_Context opts with
    | Some ctx => ctx
    | None => context_Background
    end in
  context_WithTimeout ctx now (Do_timeout c ops opts).

Definition Do_transcoder (c : Collection) (opts : BulkOpOptions) : Transcoder :=
  match opt_Transcoder opts with
  | Some t => t
  | None => col_transcoder c
  end.

(** Where the goroutine running [Do] stands. *)
Inductive pc : Type :=
| Sending                          (** in [for _, item := range ops] *)
| Draining (left : nat)            (** in [for range ops], [left] turns to go *)
| Returned (err : option error)    (** [return nil] *)
| Panicked.

(** The state of one call of [Do] and of the workers serving it. An item
    travels with its index in [ops]. *)
Record DoState : Type := mkDoState {
  st_pc : pc;
  st_cap : nat;                                 (** capacity of [signal] *)
  st_tosend : list (nat * BulkOp);              (** not yet pushed on [workerChan] *)
  st_workers : list (nat * bulkOpChanStruct);   (** received by a worker *)
  st_signal : list (nat * BulkOp);              (** buffered in [signal] *)
  st_finished : list (nat * BulkOp);            (** [finish] has been invoked *)
  st_dropped : list (nat * BulkOp);             (** received, no case matched *)
  st_trace : list effect
}.

Definition indexed (ops : list BulkOp) : list (nat * BulkOp) :=
  combine (seq 0 (length ops)) ops.

Section OneCall.

Variable c : Collection.
Variable ops : list BulkOp.
Variable opts : BulkOpOptions.
(** The reading of the clock at [context.WithTimeout]. *)
Variable now : Time.

(** [Do] up to and including [make(chan BulkOp, len(ops))]. *)
Definition Do_init : DoState :=
  {| st_pc := Sending;
     st_cap := length ops;
     st_tosend := indexed ops;
     st_workers := [];
     st_signal := [];
     st_finished := [];
     st_dropped := [];
     st_trace := [StartSpan (Do_span c opts)] |}.

Definition chan_struct (item : BulkOp) : bulkOpChanStruct :=
  {| cs_ctx := Do_ctx c ops opts now;
     cs_i := item;
     cs_spanContext := Span_Context (Do_span c opts);
     cs_c := c;
     cs_transcoder := Do_transcoder c opts |}.

(** The moves of [Do] and of the workers. [workerChan] is unbuffered: a
    push is a rendez-vous with an idle worker. [signal] is buffered: a send
    needs room, a receive takes the oldest item. A worker whose switch
    matched no case goes back to [workerChan] without a send; [Do] waits
    in [for range ops] as long as [signal] is empty. *)
Inductive Do_step : DoState -> DoState -> Prop :=
| step_push s k item rest :
    st_pc s = Sending ->
    st_tosend s = (k, item) :: rest ->
    Z.of_nat (length (st_workers s)) < _workerCount ->
    Do_step s {| st_pc := Sending; st_cap := st_cap s;
                 st_tosend := rest;
                 st_workers := st_workers s ++ [(k, chan_struct item)];
                 st_signal := st_signal s;
                 st_finished := st_finished s;
                 st_dropped := st_dropped s;
                 st_trace := st_trace s |}
| step_pushed_all s :
    st_pc s = Sending ->
    st_tosend s = [] ->
    Do_step s {| st_pc := Draining (length ops); st_cap := st_cap s;
                 st_tosend := [];
                 st_workers := st_workers s;
                 st_signal := st_signal s;
                 st_finished := st_finished s;
                 st_dropped := st_dropped s;
                 st_trace := st_trace s |}
| step_worker s w1 k op w2 client start pre out :
    st_workers s = w1 ++ (k, op) :: w2 ->
    worker_handle client start op = pre ++ [SignalSend out] ->
    (length (st_signal s) < st_cap s)%nat ->
    Do_step s {| st_pc := st_pc s; st_cap := st_cap s;
                 st_tosend := st_tosend s;
                 st_workers := w1 ++ w2;
                 st_signal := st_signal s ++ [(k, out)];
                 st_finished := st_finished s;
                 st_dropped := st_dropped s;
                 st_trace := st_trace s ++ pre |}
| step_worker_no_case s w1 k op w2 client start :
    st_workers s = w1 ++ (k, op) :: w2 ->
    worker_handle client start op = [] ->
    Do_step s {| st_pc := st_pc s; st_cap := st_cap s;
                 st_tosend := st_tosend s;
                 st_workers := w1 ++ w2;
                 st_signal := st_signal s;
                 st_finished := st_finished s;
                 st_dropped := st_dropped s ++ [(k, cs_i op)];
                 st_trace := st_trace s |}
| step_drain s left k item rest effs :
    st_pc s = Draining (S left) ->
    st_signal s = (k, item) :: rest ->
    finish item = Returns effs ->
    Do_step s {| st_pc := Draining left; st_cap := st_cap s;
                 st_tosend := st_tosend s;
                 st_workers := st_workers s;
                 st_signal := rest;
                 st_finished := st_finished s ++ [(k, item)];
                 st_dropped := st_dropped s;
                 st_trace := st_trace s ++ effs |}
| step_drain_panic s left k item rest :
    st_pc s = Draining (S left) ->
    st_signal s = (k, item) :: rest ->
    finish item = Panics ->
    Do_step s {| st_pc := Panicked; st_cap := st_cap s;
                 st_tosend := st_tosend s;
                 st_workers := st_workers s;
                 st_signal := rest;
                 st_finished := st_finished s;
                 st_dropped := st_dropped s;
                 st_trace := st_trace s |}
| step_return s :
    st_pc s = Draining 0 ->
    Do_step s {| st_pc := Returned None; st_cap := st_cap s;
                 st_tosend := st_tosend s;
                 st_workers := st_workers s;
                 st_signal := st_signal s;
                 st_finished := st_finished s;
                 st_dropped := st_dropped s;
                 st_trace := st_trace s ++ [EndSpan (Do_span c opts)] |}.

(** Runs of a given number of moves. *)
Inductive Do_steps : nat -> DoState -> DoState -> Prop :=
| steps_nil s : Do_steps 0 s s
| steps_cons n s s' s'' : Do_step s s' -> Do_steps n s' s'' -> Do_steps (S n) s s''.

Definition reachable (s : DoState) : Prop := exists n, Do_steps n Do_init s.

(** [out] is what some run of the handler makes of the item at index [k]. *)
Definition handled (k : nat) (out : BulkOp) : Prop :=
  exists item client start pre,
    nth_error ops k = Some item /\
    worker_handle client start (chan_struct item) = pre ++ [SignalSend out].

End OneCall.

End Handlers.

End Bulk.

(** ** Statements about runs of the retry decision *)

Module RetryRuns.
Import Retry.

Section Runs.

Variable ControlledBackoff : Z -> Duration.

(** Consecutive decisions that all say retry: each is made at its clock
    reading for its reason; [None] as soon as one does not say retry. *)
Fixpoint retry_all (ds : list (Time * RetryReason)) (req : retriableRequestPs)
    : option retriableRequestPs :=
  match ds with
  | [] => Some req
  | (now, reason) :: rest =>
      match retryOrchMaybeRetry ControlledBackoff now req reason with
      | Returns (true, _, req') => retry_all rest req'
      | _ => None
      end
  end.

(** The action of a strategy with a duration above zero, as the
    specification words the retry condition. *)
Definition strategy_says_positive (req : retriableRequestPs) (reason : RetryReason) : Prop :=
  exists rs a,
    strategy req = Some rs /\
    rs (as_RetryRequest req) reason = Returns (Some a) /\
    0 < RetryAction_Duration a.

(** The same with a duration other than zero, as the code tests it. *)
Definition strategy_says_nonzero (req : retriableRequestPs) (reason : RetryReason) : Prop :=
  exists rs a,
    strategy req = Some rs /\
    rs (as_RetryRequest req) reason = Returns (Some a) /\
    RetryAction_Duration a <> 0.

End Runs.

(** A strategy that always answers with the same action. *)
Definition constant_strategy (a : option RetryAction) : RetryStrategy :=
  fun _ _ => Returns a.

(** Sample reasons, one for each combination of flags the code tells
    apart. *)
Definition sampleAlwaysRetry : RetryReason :=
  {| AllowsNonIdempotentRetry := true; AlwaysRetry := true;
     Description := "ALWAYS_RETRY" |}.
Definition sampleAllowsNonIdempotent : RetryReason :=
  {| AllowsNonIdempotentRetry := true; AlwaysRetry := false;
     Description := "ALLOWS_NON_IDEMPOTENT" |}.
Definition sampleIdempotentOnly : RetryReason :=
  {| AllowsNonIdempotentRetry := false; AlwaysRetry := false;
     Description := "IDEMPOTENT_ONLY" |}.

(** A back-off table in the style of gocbcore's, in nanoseconds. *)
Definition sampleBackoff (retryAttempts : Z) : Duration :=
  if retryAttempts =? 0 then 1000000
  else if retryAttempts =? 1 then 10000000
  else 50000000.

Definition sampleRequest (idem : bool) (strat : option RetryStrategy) : retriableRequestPs :=
  newRetriableRequestPS "get" idem strat "a1b2c3".

(** Sample collaborators of the retry loop. *)
Definition sample_mapPsError (e : error) (idem : bool) : error :=
  MappedError e idem "mapped".

Definition sample_makeGenericError (e : error) : error :=
  MappedError e false "generic".

Definition sample_isTimeout (e : error) : bool :=
  match e with
  | MappedError (ErrorValue n) _ _ => String.eqb n "deadline exceeded on server"
  | _ => false
  end.

Definition sample_isDeadlineExceeded (e : error) : bool :=
  match e with
  | ErrorValue n => String.eqb n "context deadline exceeded"
  | _ => false
  end.

Definition sample_retryReasonFn (e : error) : option RetryReason :=
  match e with
  | MappedError (ErrorValue n) _ _ =>
      if String.eqb n "unavailable" then Some sampleAllowsNonIdempotent
      else if String.eqb n "locked" then Some sampleIdempotentOnly
      else None
  | _ => None
  end.

(** A non-idempotent request under the best-effort strategy. *)
Definition sampleBestEffortRequest : retriableRequestPs :=
  sampleRequest false
    (Some (BestEffort_as_strategy (NewBestEffortRetryStrategy sampleBackoff None))).

Definition sample_turn (name : string) (w : wait_outcome) (now : Time) : attempt_env Z :=
  {| env_send := inr (ErrorValue name); env_now := now; env_wait := w;
     env_end := now + 1 |}.

End RetryRuns.

(** ** Statements about the bulk provider *)

Module BulkRuns.
Import Bulk.

(** The remote call an operation of this kind makes fails with [err],
    whatever the request. A value without a case makes no call. *)
Definition call_fails (client : KvServiceClient) (op : BulkOp) (err : error) : Prop :=
  match op with
  | IsGetOp _ => forall ctx r, client_Get client ctx r = inr err
  | IsGetAndTouchOp _ => forall ctx r, client_GetAndTouch client ctx r = inr err
  | IsTouchOp _ => forall ctx r, client_Touch client ctx r = inr err
  | IsRemoveOp _ => forall ctx r, client_Remove client ctx r = inr err
  | IsUpsertOp _ => forall ctx r, client_Upsert client ctx r = inr err
  | IsInsertOp _ => forall ctx r, client_Insert client ctx r = inr err
  | IsReplaceOp _ => forall ctx r, client_Replace client ctx r = inr err
  | IsAppendOp _ => forall ctx r, client_Append client ctx r = inr err
  | IsPrependOp _ => forall ctx r, client_Prepend client ctx r = inr err
  | IsIncrementOp _ => forall ctx r, client_Increment client ctx r = inr err
  | IsDecrementOp _ => forall ctx r, client_Decrement client ctx r = inr err
  | IsUnmatched => False
  end.

(** The value of a value-carrying operation is encoded without error, so
    that the remote call is made. *)
Definition encodes (t : Transcoder) (op : BulkOp) : Prop :=
  match op with
  | IsUpsertOp i => exists b f, Encode t (Upsert_Value (fields i)) = inl (b, f)
  | IsInsertOp i => exists b f, Encode t (Insert_Value (fields i)) = inl (b, f)
  | IsReplaceOp i => exists b f, Encode t (Replace_Value (fields i)) = inl (b, f)
  | _ => True
  end.

(** The number of moves a state of [Do] has left at most. *)
Definition pc_weight (p : pc) : nat :=
  match p with
  | Sending => 2
  | Draining _ => 1
  | Returned _ => 0
  | Panicked => 0
  end.

Definition moves_left (s : DoState) : nat :=
  3 * length (st_tosend s) + 2 * length (st_workers s) + length (st_signal s)
  + pc_weight (st_pc s).

(** [out] is the last thing a run of a handler does: it sends it. *)
Definition sends_last (effs : list effect) (out : BulkOp) : Prop :=
  exists pre, effs = pre ++ [SignalSend out].

Section DoInvariant.

Variable mapPsErrorToGocbError : error -> bool -> error.
Variable psMutToGoCbMut : option PsMutationToken -> option MutationToken.
Variable uint32_of_Seconds : Duration -> Z.
Variable c : Collection.
Variable ops : list BulkOp.
Variable opts : BulkOpOptions.
Variable now : Time.

(** Where the items of the batch are, and what has been done to them. *)
Definition Do_invariant (s : DoState) : Prop :=
  st_cap s = length ops
  /\ Permutation
       (map fst (st_tosend s) ++ map fst (st_workers s)
        ++ map fst (st_signal s) ++ map fst (st_finished s)
        ++ map fst (st_dropped s))
       (seq 0 (length ops))
  /\ (forall k item, In (k, item) (st_tosend s) -> nth_error ops k = Some item)
  /\ (forall k w, In (k, w) (st_workers s) ->
        exists item, nth_error ops k = Some item /\ w = chan_struct c ops opts now item)
  /\ (forall k out, In (k, out) (st_signal s) ->
        handled mapPsErrorToGocbError psMutToGoCbMut uint32_of_Seconds c ops opts now k out)
  /\ (forall k out, In (k, out) (st_finished s) ->
        handled mapPsErrorToGocbError psMutToGoCbMut uint32_of_Seconds c ops opts now k out)
  /\ (forall k item, In (k, item) (st_dropped s) ->
        nth_error ops k = Some item /\ has_case item = false)
  /\ match st_pc s with
     | Sending => st_finished s = []
     | Draining togo =>
         st_tosend s = []
         /\ togo = (length (st_workers s) + length (st_signal s)
                    + length (st_dropped s))%nat
     | Returned e =>
         e = None /\ st_tosend s = [] /\ st_workers s = [] /\ st_signal s = []
         /\ st_dropped s = []
     | Panicked => False
     end.

End DoInvariant.

(** *** Sample data *)

(** A client whose every call fails with [err]. *)
Definition failing_client (err : error) : KvServiceClient :=
  {| client_Get := fun _ _ => inr err;
     client_GetAndTouch := fun _ _ => inr err;
     client_Touch := fun _ _ => inr err;
     client_Remove := fun _ _ => inr err;
     client_Upsert := fun _ _ => inr err;
     client_Insert := fun _ _ => inr err;
     client_Replace := fun _ _ => inr err;
     client_Append := fun _ _ => inr err;
     client_Prepend := fun _ _ => inr err;
     client_Increment := fun _ _ => inr err;
     client_Decrement := fun _ _ => inr err |}.

(** A client that answers every read with [content] and every write with
    a fixed CAS. *)
Definition answering_client (content : ResponseContent) : KvServiceClient :=
  {| client_Get := fun _ _ => inl (mkGetResponse content 77 3);
     client_GetAndTouch := fun _ _ => inl (mkGetAndTouchResponse content 78 4);
     client_Touch := fun _ _ => inl (mkMutationResponse 79 None);
     client_Remove := fun _ _ => inl (mkMutationResponse 80 None);
     client_Upsert := fun _ _ => inl (mkMutationResponse 81 None);
     client_Insert := fun _ _ => inl (mkMutationResponse 82 None);
     client_Replace := fun _ _ => inl (mkMutationResponse 83 None);
     client_Append := fun _ _ => inl (mkMutationResponse 84 None);
     client_Prepend := fun _ _ => inl (mkMutationResponse 85 None);
     client_Increment := fun _ _ => inl (mkCounterResponse 86 10 None);
     client_Decrement := fun _ _ => inl (mkCounterResponse 87 9 None) |}.

(** A transcoder that refuses the empty value. *)
Definition sample_transcoder : Transcoder :=
  {| Encode := fun v =>
       if String.eqb v "" then inr (ErrorValue "cannot encode")
       else inl (list_byte_of_string v, 50331648) |}.

Definition sample_collection (kvTimeout : Duration) : Collection :=
  {| col_name := "_default"; col_ScopeName := "_default"; col_bucketName := "travel";
     KVTimeout := kvTimeout; col_transcoder := sample_transcoder |}.

Definition sample_options (timeout : Duration) : BulkOpOptions :=
  {| opt_Timeout := timeout; opt_Transcoder := None; opt_ParentSpan := None;
     opt_Context := None |}.

Definition sample_psMutToGoCbMut (t : option PsMutationToken) : option MutationToken :=
  match t with
  | Some t => Some {| mt_bucketName := ps_BucketName t; mt_VbID := ps_VbucketId t;
                      mt_VbUUID := ps_VbucketUuid t; mt_SeqNo := ps_SeqNo t |}
  | None => None
  end.

Definition sample_seconds (d : Duration) : Z := wrap_uint32 (d / 1000000000).

Definition new_GetOp (id : string) : BulkOp :=
  IsGetOp (mkOp {| Get_ID := id |} None None None).

Definition new_GetAndTouchOp (id : string) (expiry : Duration) : BulkOp :=
  IsGetAndTouchOp
    (mkOp {| GetAndTouch_ID := id; GetAndTouch_Expiry := expiry |} None None None).

Definition new_UpsertOp (id : string) (v : Value) : BulkOp :=
  IsUpsertOp (mkOp {| Upsert_ID := id; Upsert_Value := v; Upsert_Expiry := 0 |}
                None None None).

End BulkRuns.

(** ** Further statements about the retry loop *)

Module RetryLoopRuns.
Import Retry.

(** The request as a turn, or the loop, leaves it. *)
Definition loop_request {Response : Type} (s : loop_step Response) : retriableRequestPs :=
  match s with
  | Continue _ req => req
  | Done _ _ req => req
  end.

(** The strategy [NewBestEffortRetryStrategy(calculator)] as a request
    carries it. *)
Definition best_effort (defaultBackoff : BackoffCalculator)
    (calculator : option BackoffCalculator) : option RetryStrategy :=
  Some (BestEffort_as_strategy (NewBestEffortRetryStrategy defaultBackoff calculator)).

(** The calculator that strategy ends up with. *)
Definition effective_calculator (defaultBackoff : BackoffCalculator)
    (calculator : option BackoffCalculator) : BackoffCalculator :=
  match calculator with
  | Some c => c
  | None => defaultBackoff
  end.

(** What a request keeps across retries, and how its reason list may
    change: only by reasons added at its end. *)
Definition same_request_extended (req req' : retriableRequestPs) : Prop :=
  identifier req' = identifier req
  /\ operation req' = operation req
  /\ idempotent req' = idempotent req
  /\ strategy req' = strategy req
  /\ exists suffix, reasons req' = reasons req ++ suffix.

End RetryLoopRuns.

(** ** Further statements about the bulk provider *)

Module BulkMore.
Import Bulk.

(** A result of any of the three kinds. *)
Inductive AnyResult : Type :=
| OfGet (r : GetResult)
| OfMutation (r : MutationResult)
| OfCounter (r : CounterResult).

(** The [Result] slot of an operation. *)
Definition BulkOp_Result (op : BulkOp) : option AnyResult :=
  match op with
  | IsGetOp i => option_map OfGet (Result i)
  | IsGetAndTouchOp i => option_map OfGet (Result i)
  | IsTouchOp i => option_map OfMutation (Result i)
  | IsRemoveOp i => option_map OfMutation (Result i)
  | IsUpsertOp i => option_map OfMutation (Result i)
  | IsInsertOp i => option_map OfMutation (Result i)
  | IsReplaceOp i => option_map OfMutation (Result i)
  | IsAppendOp i => option_map OfMutation (Result i)
  | IsPrependOp i => option_map OfMutation (Result i)
  | IsIncrementOp i => option_map OfCounter (Result i)
  | IsDecrementOp i => option_map OfCounter (Result i)
  | IsUnmatched => None
  end.

(** An operation with its three slots emptied: what the caller put in. *)
Definition inputs_of (op : BulkOp) : BulkOp :=
  match op with
  | IsGetOp i => IsGetOp (mkOp (fields i) None None None)
  | IsGetAndTouchOp i => IsGetAndTouchOp (mkOp (fields i) None None None)
  | IsTouchOp i => IsTouchOp (mkOp (fields i) None None None)
  | IsRemoveOp i => IsRemoveOp (mkOp (fields i) None None None)
  | IsUpsertOp i => IsUpsertOp (mkOp (fields i) None None None)
  | IsInsertOp i => IsInsertOp (mkOp (fields i) None None None)
  | IsReplaceOp i => IsReplaceOp (mkOp (fields i) None None None)
  | IsAppendOp i => IsAppendOp (mkOp (fields i) None None None)
  | IsPrependOp i => IsPrependOp (mkOp (fields i) None None None)
  | IsIncrementOp i => IsIncrementOp (mkOp (fields i) None None None)
  | IsDecrementOp i => IsDecrementOp (mkOp (fields i) None None None)
  | IsUnmatched => IsUnmatched
  end.

(** An operation as the caller makes it: nothing in its slots yet. *)
Definition fresh (op : BulkOp) : Prop :=
  BulkOp_Result op = None /\ BulkOp_Err op = None.

(** The name each handler gives its span and its latency record; no
    handler, no name. *)
Definition operation_name (k : OpKind) : string :=
  match k with
  | KGet => "get"
  | KGetAndTouch => "get_and_touch"
  | KTouch => "touch"
  | KRemove => "remove"
  | KUpsert => "upsert"
  | KInsert => "insert"
  | KReplace => "replace"
  | KAppend => "append"
  | KPrepend => "prepend"
  | KIncrement => "increment"
  | KDecrement => "decrement"
  | KUnmatched => EmptyString
  end.

(** The error the transcoder answers the value of an operation with, for
    the kinds that encode a value. *)
Definition encode_error (t : Transcoder) (op : BulkOp) : option error :=
  match op with
  | IsUpsertOp i =>
      match Encode t (Upsert_Value (fields i)) with inr e => Some e | inl _ => None end
  | IsInsertOp i =>
      match Encode t (Insert_Value (fields i)) with inr e => Some e | inl _ => None end
  | IsReplaceOp i =>
      match Encode t (Replace_Value (fields i)) with inr e => Some e | inl _ => None end
  | _ => None
  end.

(** The spans a trace starts, the spans it ends, the latencies it
    records. *)
Fixpoint spans_started (effs : list effect) : list Span :=
  match effs with
  | [] => []
  | StartSpan s :: rest => s :: spans_started rest
  | _ :: rest => spans_started rest
  end.

Fixpoint spans_ended (effs : list effect) : list Span :=
  match effs with
  | [] => []
  | EndSpan s :: rest => s :: spans_ended rest
  | _ :: rest => spans_ended rest
  end.

Fixpoint values_recorded (effs : list effect) : list (string * string * Time) :=
  match effs with
  | [] => []
  | ValueRecord service operation start :: rest =>
      (service, operation, start) :: values_recorded rest
  | _ :: rest => values_recorded rest
  end.

(** What [finish] does on each of these items, in their order. *)
Fixpoint finish_effects (meterValueServiceKV : string) (items : list (nat * BulkOp))
    : list effect :=
  match items with
  | [] => []
  | (_, item) :: rest =>
      match finish meterValueServiceKV item with
      | Returns effs => effs ++ finish_effects meterValueServiceKV rest
      | Panics => finish_effects meterValueServiceKV rest
      end
  end.

(** The spans the completion callbacks of these items will end. *)
Fixpoint callback_spans (items : list (nat * BulkOp)) : list Span :=
  match items with
  | [] => []
  | (_, item) :: rest =>
      match BulkOp_finishFn item with
      | Some f => fc_span f :: callback_spans rest
      | None => callback_spans rest
      end
  end.

(** The span of the batch, as long as [Do] has not returned. *)
Definition batch_span_open (s : DoState) (span : Span) : list Span :=
  match st_pc s with
  | Returned _ => []
  | _ => [span]
  end.

(** The spans of a run of [Do]: those started are those ended, those the
    callbacks of the items waiting in [signal] will end, and the span of
    the batch while it is open; a latency is recorded for each item
    finished. *)
Definition Do_trace_invariant (c : Collection) (opts : BulkOpOptions) (s : DoState) : Prop :=
  Permutation (spans_started (st_trace s))
    (spans_ended (st_trace s) ++ callback_spans (st_signal s)
     ++ batch_span_open s (Do_span c opts))
  /\ length (values_recorded (st_trace s)) = length (st_finished s).

(** The states of a call of [Do] on an empty batch, by the number of
    moves made. *)
Definition empty_batch_state (c : Collection) (opts : BulkOpOptions) (n : nat)
    (s : DoState) : Prop :=
  st_tosend s = [] /\ st_workers s = [] /\ st_signal s = [] /\ st_finished s = []
  /\ match st_pc s with
     | Sending => n = 0%nat /\ st_trace s = [StartSpan (Do_span c opts)]
     | Draining togo =>
         n = 1%nat /\ togo = 0%nat /\ st_trace s = [StartSpan (Do_span c opts)]
     | Returned e =>
         n = 2%nat /\ e = None
         /\ st_trace s = [StartSpan (Do_span c opts); EndSpan (Do_span c opts)]
     | Panicked => False
     end.

End BulkMore.

(** ** collection_rangescan.go: scan terms and scan types *)

Module RangeScans.
Import Bulk.

Record ScanTerm : Type := mkScanTerm {
  Term : string;
  Exclusive : bool
}.

(** [ScanTermMinimum]: the term is the string literal ["\x00"]. *)
Definition ScanTermMinimum : ScanTerm :=
  {| Term := String (Ascii.ascii_of_byte Byte.x00) EmptyString; Exclusive := false |}.

(** [ScanTermMaximum]: the term is the string literal ["\xf48fbfbf"]. In
    a Go string literal [\x] takes two hexadecimal digits, so the literal
    is the byte F4 followed by the six characters [8fbfbf]. *)
Definition ScanTermMaximum : ScanTerm :=
  {| Term := String (Ascii.ascii_of_byte Byte.xf4) "8fbfbf"; Exclusive := false |}.

(** [RangeScan]: either term may be nil. *)
Record RangeScan : Type := mkRangeScan {
  From : option ScanTerm;
  To : option ScanTerm
}.

Definition NewRangeScanForPrefix (prefix : string) : RangeScan :=
  {| From := Some {| Term := prefix; Exclusive := false |};
     To := Some {| Term := (prefix ++ Term ScanTermMaximum)%string; Exclusive := false |} |}.

(** [gocbcore.RangeScanCreateRangeScanConfig]: four byte slices, nil
    ([None]) unless set. *)
Record RangeScanCreateRangeScanConfig : Type := mkRangeConfig {
  cfg_Start : option bytes;
  cfg_End : option bytes;
  cfg_ExclusiveStart : option bytes;
  cfg_ExclusiveEnd : option bytes
}.

Definition RangeScan_toCore (rs : RangeScan) : RangeScanCreateRangeScanConfig + error :=
  let to := To rs in
  let from := From rs in
  let rangeOptions :=
    {| cfg_Start := None; cfg_End := None; cfg_ExclusiveStart := None;
       cfg_ExclusiveEnd := None |} in
  let rangeOptions :=
    match from with
    | Some from =>
        if Exclusive from then
          {| cfg_Start := cfg_Start rangeOptions; cfg_End := cfg_End rangeOptions;
             cfg_ExclusiveStart := Some (list_byte_of_string (Term from));
             cfg_ExclusiveEnd := cfg_ExclusiveEnd rangeOptions |}
        else
          {| cfg_Start := Some (list_byte_of_string (Term from));
             cfg_End := cfg_End rangeOptions;
             cfg_ExclusiveStart := cfg_ExclusiveStart rangeOptions;
             cfg_ExclusiveEnd := cfg_ExclusiveEnd rangeOptions |}
    | None => rangeOptions
    end in
  let rangeOptions :=
    match to with
    | Some to =>
        if Exclusive to then
          {| cfg_Start := cfg_Start rangeOptions; cfg_End := cfg_End rangeOptions;
             cfg_ExclusiveStart := cfg_ExclusiveStart rangeOptions;
             cfg_ExclusiveEnd := Some (list_byte_of_string (Term to)) |}
        else
          {| cfg_Start := cfg_Start rangeOptions;
             cfg_End := Some (list_byte_of_string (Term to));
             cfg_ExclusiveStart := cfg_ExclusiveStart rangeOptions;
             cfg_ExclusiveEnd := cfg_ExclusiveEnd rangeOptions |}
    | None => rangeOptions
    end in
  inl rangeOptions.

(** [SamplingScan]: two [uint64]. *)
Record SamplingScan : Type := mkSamplingScan {
  Limit : Z;
  Seed : Z
}.

Record RangeScanCreateRandomSamplingConfig : Type := mkSamplingConfig {
  cfg_Samples : Z;
  cfg_Seed : Z
}.

(** [ScanType]: the two implementations of the package. *)
Inductive ScanType : Type :=
| IsRangeScan (rs : RangeScan)
| IsSamplingScan (ss : SamplingScan).

(** [ScanOptions]; [BatchByteLimit] and [BatchItemLimit] are pointers. *)
Record ScanOptions : Type := mkScanOptions {
  so_Transcoder : option Transcoder;
  so_Timeout : Duration;
  so_ParentSpan : option Span;
  so_Context : option Context;
  so_IDsOnly : bool;
  so_ConsistentWith : option (list MutationToken);
  so_BatchByteLimit : option Z;
  so_BatchItemLimit : option Z;
  so_Internal_User : string
}.

(** [&ScanOptions{}] *)
Definition zero_ScanOptions : ScanOptions :=
  {| so_Transcoder := None; so_Timeout := 0; so_ParentSpan := None; so_Context := None;
     so_IDsOnly := false; so_ConsistentWith := None; so_BatchByteLimit := None;
     so_BatchItemLimit := None; so_Internal_User := EmptyString |}.

Definition set_so_Timeout (o : ScanOptions) (t : Duration) : ScanOptions :=
  {| so_Transcoder := so_Transcoder o; so_Timeout := t; so_ParentSpan := so_ParentSpan o;
     so_Context := so_Context o; so_IDsOnly := so_IDsOnly o;
     so_ConsistentWith := so_ConsistentWith o; so_BatchByteLimit := so_BatchByteLimit o;
     so_BatchItemLimit := so_BatchItemLimit o; so_Internal_User := so_Internal_User o |}.

Section Scans.

(** [makeInvalidArgumentsError] *)
Variable makeInvalidArgumentsError : string -> error.
(** What a scan returns. *)
Variable ScanResult : Type.

Definition SamplingScan_toCore (rs : SamplingScan)
    : RangeScanCreateRandomSamplingConfig + error :=
  if Limit rs =? 0 then
    inr (makeInvalidArgumentsError "sampling scan limit must be greater than 0")
  else
    inl {| cfg_Samples := Limit rs; cfg_Seed := Seed rs |}.

(** The [kvProvider] a collection gets hold of, as far as [Scan] uses
    it. *)
Record kvProvider : Type := mkKvProvider {
  agent_Scan : ScanType -> ScanOptions -> ScanResult + error
}.

(** [Collection.Scan]. [getKvProvider] is the answer of [c.getKvProvider()],
    [KVScanTimeout] is [c.timeoutsConfig.KVScanTimeout]. Besides its result
    the call leaves the caller's options, if any were passed, as [Scan]
    wrote them. *)
Definition Collection_Scan (KVScanTimeout : Duration) (getKvProvider : kvProvider + error)
    (scanType : ScanType) (opts : option ScanOptions)
    : (ScanResult + error) * option ScanOptions :=
  let callers := opts in
  let opts :=
    match opts with
    | None => zero_ScanOptions
    | Some o => o
    end in
  match getKvProvider with
  | inr err => (inr err, callers)
  | inl agent =>
      let opts :=
        if so_Timeout opts =? 0 then set_so_Timeout opts KVScanTimeout else opts in
      (agent_Scan agent scanType opts,
       match callers with
       | None => None
       | Some _ => Some opts
       end)
  end.

End Scans.

End RangeScans.

(** ** bucket.go: the providers of a bucket *)

Module Buckets.
Import Bulk.

Section Providers.

(** A provider, whatever its interface: an opaque handle. *)
Variable provider : Type.
(** [WaitUntilReadyOptions] *)
Variable WaitUntilReadyOptions : Type.
(** [&WaitUntilReadyOptions{}] *)
Variable zero_WaitUntilReadyOptions : WaitUntilReadyOptions.
(** [opts.Context] *)
Variable options_Context : WaitUntilReadyOptions -> option Context.

(** [connectionManager], as far as a bucket calls it, with the
    [WaitUntilReady] of the provider it hands out. *)
Record connectionManager : Type := mkConnectionManager {
  cm_getKvProvider : string -> provider + error;
  cm_getKvBulkProvider : string -> provider + error;
  cm_getKvCapabilitiesProvider : string -> provider + error;
  cm_getQueryProvider : provider + error;
  cm_getQueryIndexProvider : provider + error;
  cm_getAnalyticsProvider : provider + error;
  cm_getWaitUntilReadyProvider : string -> provider + error;
  provider_WaitUntilReady :
    provider -> option Context -> Time -> WaitUntilReadyOptions -> option error
}.

(** [Bucket], with the fields its provider getters read. *)
Record Bucket : Type := mkBucket {
  bucketName : string;
  bootstrapError : option error;
  bkt_connectionManager : connectionManager
}.

Definition setBootstrapError (b : Bucket) (err : option error) : Bucket :=
  {| bucketName := bucketName b; bootstrapError := err;
     bkt_connectionManager := bkt_connectionManager b |}.

Definition Bucket_Name (b : Bucket) : string := bucketName b.

Definition getKvProvider (b : Bucket) : provider + error :=
  match bootstrapError b with
  | Some err => inr err
  | None =>
      match cm_getKvProvider (bkt_connectionManager b) (bucketName b) with
      | inr err => inr err
      | inl agent => inl agent
      end
  end.

Definition getKvCapabilitiesProvider (b : Bucket) : provider + error :=
  match bootstrapError b with
  | Some err => inr err
  | None =>
      match cm_getKvCapabilitiesProvider (bkt_connectionManager b) (bucketName b) with
      | inr err => inr err
      | inl agent => inl agent
      end
  end.

Definition getKvBulkProvider (b : Bucket) : provider + error :=
  match bootstrapError b with
  | Some err => inr err
  | None =>
      match cm_getKvBulkProvider (bkt_connectionManager b) (bucketName b) with
      | inr err => inr err
      | inl agent => inl agent
      end
  end.

Definition getQueryProvider (b : Bucket) : provider + error :=
  match bootstrapError b with
  | Some err => inr err
  | None =>
      match cm_getQueryProvider (bkt_connectionManager b) with
      | inr err => inr err
      | inl agent => inl agent
      end
  end.

Definition getQueryIndexProvider (b : Bucket) : provider + error :=
  match cm_getQueryIndexProvider (bkt_connectionManager b) with
  | inr err => inr err
  | inl provider => inl provider
  end.

Definition getAnalyticsProvider (b : Bucket) : provider + error :=
  match bootstrapError b with
  | Some err => inr err
  | None =>
      match cm_getAnalyticsProvider (bkt_connectionManager b) with
      | inr err => inr err
      | inl agent => inl agent
      end
  end.

(** [Bucket.WaitUntilReady]; [now] is the reading of [time.Now()]. The
    result is the error returned, [None] for nil. *)
Definition WaitUntilReady (b : Bucket) (now : Time) (timeout : Duration)
    (opts : option WaitUntilReadyOptions) : option error :=
  let opts :=
    match opts with
    | None => zero_WaitUntilReadyOptions
    | Some o => o
    end in
  match bootstrapError b with
  | Some err => Some err
  | None =>
      match cm_getWaitUntilReadyProvider (bkt_connectionManager b) (bucketName b) with
      | inr err => Some err
      | inl provider =>
          match provider_WaitUntilReady (bkt_connectionManager b) provider
                  (options_Context opts) (Time_Add now timeout) opts with
          | Some err => Some err
          | None => None
          end
      end
  end.

End Providers.

End Buckets.

(** ** searchindexprovider_core.go: errors and control requests *)

Module SearchIndexes.
Import Bulk.

(** [strings.Contains]: does [substr] occur in [s]? *)
Fixpoint strings_Contains (s substr : string) : bool :=
  if String.prefix substr s then true
  else
    match s with
    | EmptyString => false
    | String _ rest => strings_Contains rest substr
    end.

(** [mgmtRequest], with [ServiceTypeSearch] the only service used here. *)
Inductive ServiceType : Type := ServiceTypeSearch.

Record mgmtRequest : Type := mkMgmtRequest {
  Service : ServiceType;
  Method : string;
  Path : string;
  Headers : list (string * string);
  Body : bytes;
  IsIdempotent : bool;
  RetryStrategy : option Retry.RetryStrategy;
  Timeout : Duration;
  parentSpanCtx : RequestSpanContext
}.

(** [mgmtResponse]: the status code and what reading the body to its end
    gives. *)
Record mgmtResponse : Type := mkMgmtResponse {
  StatusCode : Z;
  resp_Body : string + error
}.

(** The options of the index operations: the same four fields in each
    options struct. *)
Record SearchIndexOptions : Type := mkSearchIndexOptions {
  sio_Timeout : Duration;
  sio_RetryStrategy : option Retry.RetryStrategy;
  sio_ParentSpan : option Span;
  sio_Context : option Context
}.

Definition zero_SearchIndexOptions : SearchIndexOptions :=
  {| sio_Timeout := 0; sio_RetryStrategy := None; sio_ParentSpan := None;
     sio_Context := None |}.

Section Provider.

(** [strings.ToLower] *)
Variable strings_ToLower : string -> string.
(** [url.PathEscape] *)
Variable url_PathEscape : string -> string.
(** The package's error values and constructors. *)
Variable ErrQuotaLimitedFailure : error.
Variable ErrRateLimitedFailure : error.
Variable ErrIndexNotFound : error.
Variable ErrIndexExists : error.
Variable errors_New : string -> error.
Variable invalidArgumentsError : string -> error.
Variable makeGenericMgmtError : error -> mgmtRequest -> mgmtResponse -> string -> error.
Variable makeMgmtBadStatusError : string -> mgmtRequest -> mgmtResponse -> error.
(** [createSpan(sm.tracer, parent, name, "management")] *)
Variable createSpan : option Span -> string -> Span.
(** [sm.mgmtProvider.executeMgmtRequest] *)
Variable executeMgmtRequest : option Context -> mgmtRequest -> mgmtResponse + error.

(** [checkForRateLimitError]; [None] is nil. *)
Definition checkForRateLimitError (statusCode : Z) (errMsg : string) : option error :=
  let errMsg := strings_ToLower errMsg in
  if (statusCode =? 400) && strings_Contains errMsg "num_fts_indexes" then
    Some ErrQuotaLimitedFailure
  else if statusCode =? 429 then
    if strings_Contains errMsg "num_concurrent_requests" then Some ErrRateLimitedFailure
    else if strings_Contains errMsg "num_queries_per_min" then Some ErrRateLimitedFailure
    else if strings_Contains errMsg "ingress_mib_per_min" then Some ErrRateLimitedFailure
    else if strings_Contains errMsg "egress_mib_per_min" then Some ErrRateLimitedFailure
    else None
  else None.

(** [tryParseErrorMessage] *)
Definition tryParseErrorMessage (req : mgmtRequest) (resp : mgmtResponse) : option error :=
  match resp_Body resp with
  | inr _ => None
  | inl b =>
      match checkForRateLimitError (StatusCode resp) b with
      | Some err => Some (makeGenericMgmtError err req resp b)
      | None =>
          let bodyErr :=
            if strings_Contains (strings_ToLower b) "index not found" then ErrIndexNotFound
            else if strings_Contains (strings_ToLower b)
                      "index with the same name already exists" then ErrIndexExists
            else errors_New b in
          Some (makeGenericMgmtError bodyErr req resp b)
      end
  end.

(** [doMgmtRequest] *)
Definition doMgmtRequest (ctx : option Context) (req : mgmtRequest)
    : mgmtResponse + error :=
  match executeMgmtRequest ctx req with
  | inr err => inr err
  | inl resp => inl resp
  end.

(** [performControlRequest]; the result is the error returned, [None] for
    nil. *)
Definition performControlRequest (ctx : option Context) (tracectx : RequestSpanContext)
    (method uri : string) (timeout : Duration)
    (retryStrategy : option Retry.RetryStrategy) : option error :=
  let req :=
    {| Service := ServiceTypeSearch; Method := method; Path := uri; Headers := [];
       Body := []; IsIdempotent := true; RetryStrategy := retryStrategy;
       Timeout := timeout; parentSpanCtx := tracectx |} in
  match doMgmtRequest ctx req with
  | inr err => Some err
  | inl resp =>
      if negb (StatusCode resp =? 200) then
        match tryParseErrorMessage req resp with
        | Some idxErr => Some idxErr
        | None =>
            Some (makeMgmtBadStatusError "failed to perform the control request" req resp)
        end
      else None
  end.

(** The six control operations differ in the path and in the name of the
    span only; this is their common text. Setting the span's attribute and
    ending it do not bear on the result. *)
Definition control_operation (control spanName : string)
    (indexName : string) (opts : option SearchIndexOptions) : option error :=
  let opts :=
    match opts with
    | None => zero_SearchIndexOptions
    | Some o => o
    end in
  if String.eqb indexName "" then
    Some (invalidArgumentsError "indexName cannot be empty")
  else
    let path := ("/api/index/" ++ url_PathEscape indexName ++ control)%string in
    let span := createSpan (sio_ParentSpan opts) spanName in
    performControlRequest (sio_Context opts) (Span_Context span) "POST" path
      (sio_Timeout opts) (sio_RetryStrategy opts).

Definition PauseIngest :=
  control_operation "/ingestControl/pause" "manager_search_pause_ingest".
Definition ResumeIngest :=
  control_operation "/ingestControl/resume" "manager_search_resume_ingest".
Definition AllowQuerying :=
  control_operation "/queryControl/allow" "manager_search_allow_querying".
Definition DisallowQuerying :=
  control_operation "/queryControl/disallow" "manager_search_disallow_querying".
Definition FreezePlan :=
  control_operation "/planFreezeControl/freeze" "manager_search_freeze_plan".
Definition UnfreezePlan :=
  control_operation "/planFreezeControl/unfreeze" "manager_search_unfreeze_plan".

(** [DropIndex]; the latency record and the span's attribute and end do
    not bear on the result. *)
Definition DropIndex (indexName : string) (opts : option SearchIndexOptions)
    : option error :=
  let opts :=
    match opts with
    | None => zero_SearchIndexOptions
    | Some o => o
    end in
  if String.eqb indexName "" then
    Some (invalidArgumentsError "indexName cannot be empty")
  else
    let path := ("/api/index/" ++ url_PathEscape indexName)%string in
    let span := createSpan (sio_ParentSpan opts) "manager_search_drop_index" in
    let req :=
      {| Service := ServiceTypeSearch; Method := "DELETE"; Path := path; Headers := [];
         Body := []; IsIdempotent := false; RetryStrategy := sio_RetryStrategy opts;
         Timeout := sio_Timeout opts; parentSpanCtx := Span_Context span |} in
    match doMgmtRequest (sio_Context opts) req with
    | inr err => Some err
    | inl resp =>
        if negb (StatusCode resp =? 200) then
          Some (makeMgmtBadStatusError "failed to drop the index" req resp)
        else None
    end.

(** The control operations, by name. *)
Inductive control_kind : Type :=
| CPauseIngest | CResumeIngest | CAllowQuerying | CDisallowQuerying
| CFreezePlan | CUnfreezePlan.

Definition run_control (k : control_kind) : string -> option SearchIndexOptions -> option error :=
  match k with
  | CPauseIngest => PauseIngest
  | CResumeIngest => ResumeIngest
  | CAllowQuerying => AllowQuerying
  | CDisallowQuerying => DisallowQuerying
  | CFreezePlan => FreezePlan
  | CUnfreezePlan => UnfreezePlan
  end.

Definition control_path (k : control_kind) : string :=
  match k with
  | CPauseIngest => "/ingestControl/pause"
  | CResumeIngest => "/ingestControl/resume"
  | CAllowQuerying => "/queryControl/allow"
  | CDisallowQuerying => "/queryControl/disallow"
  | CFreezePlan => "/planFreezeControl/freeze"
  | CUnfreezePlan => "/planFreezeControl/unfreeze"
  end.

End Provider.

(** *** Sample collaborators *)

(** Lower-casing of the ASCII letters. *)
Definition ascii_lower (ch : Ascii.ascii) : Ascii.ascii :=
  let n := Ascii.nat_of_ascii ch in
  if Nat.leb 65 n && Nat.leb n 90 then Ascii.ascii_of_nat (n + 32) else ch.

Fixpoint sample_ToLower (s : string) : string :=
  match s with
  | EmptyString => EmptyString
  | String ch rest => String (ascii_lower ch) (sample_ToLower rest)
  end.

Definition sample_PathEscape (s : string) : string := s.

Definition sample_createSpan (parent : option Span) (name : string) : Span :=
  {| span_name := name;
     span_parent := match parent with Some p => Span_Context p | None => [] end;
     span_noAttributes := false |}.

Definition sample_genericMgmtError (cause : error) (req : mgmtRequest) (resp : mgmtResponse)
    (body : string) : error :=
  MappedError cause (IsIdempotent req) body.

Definition sample_badStatusError (msg : string) (req : mgmtRequest) (resp : mgmtResponse)
    : error :=
  MappedError (ErrorValue msg) (IsIdempotent req) (Path req).

(** A management provider that answers every request with the same status
    and body. *)
Definition answering_provider (status : Z) (body : string)
    : option Context -> mgmtRequest -> mgmtResponse + error :=
  fun _ _ => inl {| StatusCode := status; resp_Body := inl body |}.

End SearchIndexes.

(** * Properties *)

(** ** Machine integers *)

Lemma wrap_uint32_range z : in_uint32 (wrap_uint32 z).
Proof. unfold in_uint32, wrap_uint32. apply Z.mod_pos_bound. lia. Qed.

Lemma wrap_uint32_small z : in_uint32 z -> wrap_uint32 z = z.
Proof. unfold in_uint32, wrap_uint32. intros H. apply Z.mod_small. exact H. Qed.

Lemma wrap_uint32_succ z : wrap_uint32 (wrap_uint32 z + 1) = wrap_uint32 (z + 1).
Proof. unfold wrap_uint32. rewrite Zplus_mod_idemp_l. reflexivity. Qed.

Lemma wrap_int64_range z : in_int64 (wrap_int64 z).
Proof.
  unfold in_int64, wrap_int64.
  pose proof (Z.mod_pos_bound (z + 2 ^ 63) (2 ^ 64)). lia.
Qed.

Lemma wrap_int64_small z : in_int64 z -> wrap_int64 z = z.
Proof.
  unfold in_int64, wrap_int64. intros H.
  rewrite Z.mod_small; lia.
Qed.

(** ** Reasons *)

Lemma RetryReason_eqb_spec a b : reflect (a = b) (RetryReason_eqb a b).
Proof.
  destruct a as [a1 a2 a3], b as [b1 b2 b3]. unfold RetryReason_eqb. simpl.
  destruct (Bool.eqb_spec a1 b1) as [-> | N1]; simpl;
    [ | constructor; intros E; inversion E; contradiction ].
  destruct (Bool.eqb_spec a2 b2) as [-> | N2]; simpl;
    [ | constructor; intros E; inversion E; contradiction ].
  destruct (String.eqb_spec a3 b3) as [-> | N3];
    constructor; [ reflexivity | intros E; inversion E; contradiction ].
Qed.

Lemma RetryReason_eq_dec (a b : RetryReason) : {a = b} + {a <> b}.
Proof. destruct (RetryReason_eqb_spec a b); [left | right]; assumption. Defined.

Module RetryFacts.
Import Retry RetryRuns.

Lemma reason_found_In rs reason : reason_found rs reason = true <-> In reason rs.
Proof.
  induction rs as [| r rest IH]; simpl.
  - split; [discriminate | contradiction].
  - destruct (RetryReason_eqb_spec r reason) as [-> | N].
    + split; auto.
    + rewrite IH. split; [auto | intros [E | H]; [contradiction | exact H]].
Qed.

Lemma recordRetryAttempt_attempts w reason :
  attempts (recordRetryAttempt w reason) = wrap_uint32 (attempts w + 1).
Proof. reflexivity. Qed.

Lemma recordRetryAttempt_In w reason r :
  In r (reasons (recordRetryAttempt w reason)) <-> In r (reasons w) \/ r = reason.
Proof.
  unfold recordRetryAttempt; simpl.
  destruct (reason_found (reasons w) reason) eqn:F.
  - apply reason_found_In in F. split; [auto | intros [H | ->]; assumption].
  - rewrite in_app_iff. simpl. split.
    + intros [H | [E | []]]; auto.
    + intros [H | ->]; auto.
Qed.

Lemma recordRetryAttempt_NoDup w reason :
  NoDup (reasons w) -> NoDup (reasons (recordRetryAttempt w reason)).
Proof.
  intros ND. unfold recordRetryAttempt; simpl.
  destruct (reason_found (reasons w) reason) eqn:F; [exact ND |].
  assert (~ In reason (reasons w)) as NI.
  { intros H. apply reason_found_In in H. congruence. }
  apply NoDup_app; [exact ND | repeat constructor; simpl; tauto |].
  intros a Ha [<- | []]. exact (NI Ha).
Qed.

(** The set grows only when the reason is new. *)
Lemma recordRetryAttempt_reasons w reason :
  reasons (recordRetryAttempt w reason)
  = if reason_found (reasons w) reason then reasons w else reasons w ++ [reason].
Proof. reflexivity. Qed.

End RetryFacts.

(** ** The retry decision *)

Import Retry RetryRuns RetryFacts.

Section RetryDecision.

Variable ControlledBackoff : Z -> Duration.

Local Abbreviation maybeRetry := (retryOrchMaybeRetry ControlledBackoff).

(** C1. For a reason whose [AlwaysRetry()] is true, [retryOrchMaybeRetry]
    returns retry = true whatever the request's strategy (nil included),
    idempotency flag and attempt count are; the wake time is [now] plus
    [ControlledBackoff] of the attempt count the request has on entry, and
    the attempt is recorded: the returned request is
    [recordRetryAttempt req reason], whose counter went up and whose reason
    set holds the reason. *)
Theorem retryOrchMaybeRetry_always_retry
    (now : Time) (req : retriableRequestPs) (reason : RetryReason) :
  AlwaysRetry reason = true ->
  retryOrchMaybeRetry ControlledBackoff now req reason
  = Returns (true, Time_Add now (ControlledBackoff (attempts req)),
             recordRetryAttempt req reason)
  /\ attempts (recordRetryAttempt req reason) = wrap_uint32 (attempts req + 1)
  /\ In reason (reasons (recordRetryAttempt req reason)).
Proof.
  intros A. split; [| split].
  - unfold retryOrchMaybeRetry. rewrite A. reflexivity.
  - reflexivity.
  - apply recordRetryAttempt_In. right. reflexivity.
Qed.

(** What the decision returns for a reason that is not always retried. *)
Lemma retryOrchMaybeRetry_by_strategy now req reason :
  AlwaysRetry reason = false ->
  maybeRetry now req reason
  = match strategy req with
    | None => Returns (false, zeroTime, req)
    | Some rs =>
        match rs (as_RetryRequest req) reason with
        | Panics => Panics
        | Returns None => Returns (false, zeroTime, req)
        | Returns (Some a) =>
            if RetryAction_Duration a =? 0 then Returns (false, zeroTime, req)
            else Returns (true, Time_Add now (RetryAction_Duration a),
                          recordRetryAttempt req reason)
        end
    end.
Proof.
  intros A. unfold retryOrchMaybeRetry. rewrite A.
  destruct (strategy req) as [rs |]; [| reflexivity].
  destruct (rs (as_RetryRequest req) reason) as [[a |] |]; reflexivity.
Qed.

(** C2, as amended. For a reason whose [AlwaysRetry()] is false,
    [retryOrchMaybeRetry] returns retry = true if and only if the request
    has a non-nil strategy whose [RetryAfter] returns a non-nil action with
    a duration other than zero (a negative duration counts); a nil
    strategy, a nil action and a zero duration, which is what the
    do-not-retry action has, each yield retry = false. *)
Theorem retryOrchMaybeRetry_strategy_nonzero
    (now : Time) (req : retriableRequestPs) (reason : RetryReason) :
  AlwaysRetry reason = false ->
  (retried (retryOrchMaybeRetry ControlledBackoff now req reason)
   <-> strategy_says_nonzero req reason)
  /\ (strategy req = None ->
      retryOrchMaybeRetry ControlledBackoff now req reason = Returns (false, zeroTime, req))
  /\ (forall rs, strategy req = Some rs ->
      rs (as_RetryRequest req) reason = Returns None ->
      retryOrchMaybeRetry ControlledBackoff now req reason = Returns (false, zeroTime, req))
  /\ (forall rs a, strategy req = Some rs ->
      rs (as_RetryRequest req) reason = Returns (Some a) ->
      RetryAction_Duration a = 0 ->
      retryOrchMaybeRetry ControlledBackoff now req reason = Returns (false, zeroTime, req))
  /\ RetryAction_Duration NoRetryRetryAction = 0.
Proof.
  intros A. pose proof (retryOrchMaybeRetry_by_strategy now req reason A) as E.
  rewrite E. clear E.
  split; [| split; [| split; [| split]]].
  - unfold retried, strategy_says_nonzero. split.
    + intros (wake & req' & H).
      destruct (strategy req) as [rs |]; [| discriminate].
      destruct (rs (as_RetryRequest req) reason) as [[a |] |] eqn:R; try discriminate.
      destruct (RetryAction_Duration a =? 0) eqn:D; [discriminate |].
      exists rs, a. repeat split; auto. apply Z.eqb_neq. exact D.
    + intros (rs & a & S & R & D). rewrite S, R.
      apply Z.eqb_neq in D. rewrite D. eauto.
  - intros ->. reflexivity.
  - intros rs -> ->. reflexivity.
  - intros rs a -> -> D. rewrite D. reflexivity.
  - reflexivity.
Qed.

(** A decision that says no leaves the request alone. *)
Lemma retryOrchMaybeRetry_false_inv now req reason wake req' :
  maybeRetry now req reason = Returns (false, wake, req') ->
  req' = req /\ wake = zeroTime.
Proof.
  intros H. destruct (AlwaysRetry reason) eqn:A.
  - unfold retryOrchMaybeRetry in H. rewrite A in H. discriminate.
  - rewrite (retryOrchMaybeRetry_by_strategy now req reason A) in H.
    destruct (strategy req) as [rs |]; [| inversion H; auto].
    destruct (rs (as_RetryRequest req) reason) as [[a |] |];
      try discriminate; [| inversion H; auto].
    destruct (RetryAction_Duration a =? 0); inversion H; auto.
Qed.

(** C10. Whenever [retryOrchMaybeRetry] returns retry = false, the request
    is as it was (attempt counter and reason set included) and the wake
    time is the zero time. *)
Theorem retryOrchMaybeRetry_no_retry_frame
    (now : Time) (req : retriableRequestPs) (reason : RetryReason)
    (wake : Time) (req' : retriableRequestPs) :
  retryOrchMaybeRetry ControlledBackoff now req reason = Returns (false, wake, req') ->
  req' = req /\ attempts req' = attempts req /\ reasons req' = reasons req
  /\ wake = zeroTime.
Proof.
  intros H. apply retryOrchMaybeRetry_false_inv in H. destruct H as [-> ->].
  repeat split.
Qed.

(** A decision that says no is one of the three cases of the code. *)
Lemma retryOrchMaybeRetry_no_retry_cases now req reason wake req' :
  maybeRetry now req reason = Returns (false, wake, req') ->
  AlwaysRetry reason = false /\
  (strategy req = None \/
   exists rs, strategy req = Some rs /\
     (rs (as_RetryRequest req) reason = Returns None \/
      exists a, rs (as_RetryRequest req) reason = Returns (Some a)
                /\ RetryAction_Duration a = 0)).
Proof.
  intros H. destruct (AlwaysRetry reason) eqn:A.
  - unfold retryOrchMaybeRetry in H. rewrite A in H. discriminate.
  - split; [reflexivity |].
    rewrite (retryOrchMaybeRetry_by_strategy now req reason A) in H.
    destruct (strategy req) as [rs |]; [right; exists rs; split; [reflexivity |] | left; reflexivity].
    destruct (rs (as_RetryRequest req) reason) as [[a |] |]; try discriminate; [| left; reflexivity].
    right. exists a. split; [reflexivity |].
    destruct (RetryAction_Duration a =? 0) eqn:D; [apply Z.eqb_eq; exact D | discriminate].
Qed.

End RetryDecision.

(** The always-retried reason on a non-idempotent request without
    strategy. *)
Lemma retryOrchMaybeRetry_always_retry_witness :
  AlwaysRetry sampleAlwaysRetry = true /\
  (retryOrchMaybeRetry sampleBackoff 5 (sampleRequest false None) sampleAlwaysRetry
   = Returns (true, Time_Add 5 (sampleBackoff (attempts (sampleRequest false None))),
              recordRetryAttempt (sampleRequest false None) sampleAlwaysRetry)
   /\ attempts (recordRetryAttempt (sampleRequest false None) sampleAlwaysRetry)
      = wrap_uint32 (attempts (sampleRequest false None) + 1)
   /\ In sampleAlwaysRetry
        (reasons (recordRetryAttempt (sampleRequest false None) sampleAlwaysRetry))).
Proof.
  split; [reflexivity |].
  apply (retryOrchMaybeRetry_always_retry sampleBackoff 5 (sampleRequest false None)
           sampleAlwaysRetry).
  reflexivity.
Defined.

(** With "positive" in place of "other than zero" the equivalence fails
    for a negative duration: the code tests [duration == 0] only, so the
    request is retried although no positive duration was returned. *)
Lemma retryOrchMaybeRetry_negative_duration_retried :
  let req := sampleRequest true
               (Some (constant_strategy (Some (WithDurationRetryAction (-1))))) in
  AlwaysRetry sampleIdempotentOnly = false /\
  ~ (retried (retryOrchMaybeRetry sampleBackoff 5 req sampleIdempotentOnly)
     <-> strategy_says_positive req sampleIdempotentOnly).
Proof.
  simpl. split; [reflexivity |].
  intros [H _].
  assert (retried (retryOrchMaybeRetry sampleBackoff 5
            (sampleRequest true
               (Some (constant_strategy (Some (WithDurationRetryAction (-1))))))
            sampleIdempotentOnly)) as R.
  { unfold retried. eexists. eexists. reflexivity. }
  destruct (H R) as (rs & a & S & A & D).
  simpl in S. inversion S; subst rs.
  unfold constant_strategy in A. inversion A; subst a.
  simpl in D. lia.
Qed.

(** A strategy answering with a negative duration: the request is
    retried. *)
Lemma retryOrchMaybeRetry_strategy_nonzero_witness :
  let req := sampleRequest true
               (Some (constant_strategy (Some (WithDurationRetryAction (-1))))) in
  AlwaysRetry sampleIdempotentOnly = false /\
  ((retried (retryOrchMaybeRetry sampleBackoff 5 req sampleIdempotentOnly)
    <-> strategy_says_nonzero req sampleIdempotentOnly)
   /\ (strategy req = None ->
       retryOrchMaybeRetry sampleBackoff 5 req sampleIdempotentOnly
       = Returns (false, zeroTime, req))
   /\ (forall rs, strategy req = Some rs ->
       rs (as_RetryRequest req) sampleIdempotentOnly = Returns None ->
       retryOrchMaybeRetry sampleBackoff 5 req sampleIdempotentOnly
       = Returns (false, zeroTime, req))
   /\ (forall rs a, strategy req = Some rs ->
       rs (as_RetryRequest req) sampleIdempotentOnly = Returns (Some a) ->
       RetryAction_Duration a = 0 ->
       retryOrchMaybeRetry sampleBackoff 5 req sampleIdempotentOnly
       = Returns (false, zeroTime, req))
   /\ RetryAction_Duration NoRetryRetryAction = 0).
Proof.
  intros req. split; [reflexivity |].
  apply (retryOrchMaybeRetry_strategy_nonzero sampleBackoff 5 req sampleIdempotentOnly).
  reflexivity.
Defined.

(** A strategy answering with the no-retry action. *)
Lemma retryOrchMaybeRetry_no_retry_frame_witness :
  let req := sampleRequest false (Some (constant_strategy (Some NoRetryRetryAction))) in
  retryOrchMaybeRetry sampleBackoff 5 req sampleIdempotentOnly
  = Returns (false, zeroTime, req)
  /\ (req = req /\ attempts req = attempts req /\ reasons req = reasons req
      /\ zeroTime = zeroTime).
Proof.
  intros req. split; [reflexivity |].
  apply (retryOrchMaybeRetry_no_retry_frame sampleBackoff 5 req sampleIdempotentOnly
           zeroTime req).
  reflexivity.
Defined.

(** ** The best-effort strategy *)

Lemma NewBestEffortRetryStrategy_calculator defaultBackoff calculator :
  exists calc,
    BE_BackoffCalculator (NewBestEffortRetryStrategy defaultBackoff calculator) = Some calc
    /\ calc = match calculator with Some c => c | None => defaultBackoff end.
Proof. destruct calculator as [c |]; simpl; eauto. Qed.

(** C3. [BestEffortRetryStrategy.RetryAfter], for a strategy holding the
    calculator [calc], returns the with-duration action of [calc] applied to
    the request's attempt count exactly when the request is idempotent or
    the reason allows non-idempotent retry; for a non-idempotent request
    and a reason that does not allow it, it returns the no-retry action,
    whose duration is zero, so no action it returns there has a positive
    duration. *)
Theorem BestEffort_RetryAfter_spec
    (rs : BestEffortRetryStrategy) (calc : BackoffCalculator)
    (req : RetryRequest) (reason : RetryReason) :
  BE_BackoffCalculator rs = Some calc ->
  (BestEffort_RetryAfter rs req reason
   = Returns (WithDurationRetryAction (calc (RetryAttempts req)))
   <-> Idempotent req = true \/ AllowsNonIdempotentRetry reason = true)
  /\ (Idempotent req = false -> AllowsNonIdempotentRetry reason = false ->
      BestEffort_RetryAfter rs req reason = Returns NoRetryRetryAction
      /\ RetryAction_Duration NoRetryRetryAction = 0
      /\ forall a, BestEffort_RetryAfter rs req reason = Returns a ->
                   ~ 0 < RetryAction_Duration a).
Proof.
  intros C. unfold BestEffort_RetryAfter. rewrite C.
  destruct (Idempotent req) eqn:I, (AllowsNonIdempotentRetry reason) eqn:A; simpl; split;
    try (split; [intros _; auto | reflexivity]);
    try (intros H1 H2; discriminate).
  - split; [intros H; discriminate | intros [H | H]; discriminate].
  - intros _ _. repeat split. intros a E. inversion E. simpl. lia.
Qed.

(** The default strategy, a non-idempotent request and a reason that
    does not allow non-idempotent retry. *)
Lemma BestEffort_RetryAfter_spec_witness :
  let rs := NewBestEffortRetryStrategy sampleBackoff None in
  let req := as_RetryRequest (sampleRequest false None) in
  BE_BackoffCalculator rs = Some sampleBackoff /\
  ((BestEffort_RetryAfter rs req sampleIdempotentOnly
    = Returns (WithDurationRetryAction (sampleBackoff (RetryAttempts req)))
    <-> Idempotent req = true \/ AllowsNonIdempotentRetry sampleIdempotentOnly = true)
   /\ (Idempotent req = false -> AllowsNonIdempotentRetry sampleIdempotentOnly = false ->
       BestEffort_RetryAfter rs req sampleIdempotentOnly = Returns NoRetryRetryAction
       /\ RetryAction_Duration NoRetryRetryAction = 0
       /\ forall a, BestEffort_RetryAfter rs req sampleIdempotentOnly = Returns a ->
                    ~ 0 < RetryAction_Duration a)).
Proof.
  intros rs req. split; [reflexivity |].
  apply (BestEffort_RetryAfter_spec rs sampleBackoff req sampleIdempotentOnly).
  reflexivity.
Defined.

(** Seen through the interface, the strategy never lets the orchestrator
    retry a non-idempotent request for a reason that does not allow it. *)
Lemma BestEffort_declines ControlledBackoff rs now req reason :
  AlwaysRetry reason = false ->
  idempotent req = false -> AllowsNonIdempotentRetry reason = false ->
  strategy req = Some (BestEffort_as_strategy rs) ->
  retryOrchMaybeRetry ControlledBackoff now req reason = Returns (false, zeroTime, req).
Proof.
  intros A I N S. unfold retryOrchMaybeRetry. rewrite A, S.
  unfold BestEffort_as_strategy, BestEffort_RetryAfter. simpl. rewrite I, N. reflexivity.
Qed.

(** ** The attempt counter and the reason set *)

Section AttemptHistory.

Variable ControlledBackoff : Z -> Duration.

Lemma retried_records now req reason wake req' :
  retryOrchMaybeRetry ControlledBackoff now req reason = Returns (true, wake, req') ->
  req' = recordRetryAttempt req reason.
Proof.
  unfold retryOrchMaybeRetry. destruct (AlwaysRetry reason).
  - intros H. inversion H. reflexivity.
  - destruct (strategy req) as [rs |]; [| discriminate].
    destruct (rs (as_RetryRequest req) reason) as [[a |] |]; simpl; try discriminate.
    destruct (RetryAction_Duration a =? 0); [discriminate |].
    intros H. inversion H. reflexivity.
Qed.

Lemma retry_all_cons now reason rest req req'' :
  retry_all ControlledBackoff ((now, reason) :: rest) req = Some req'' ->
  retry_all ControlledBackoff rest (recordRetryAttempt req reason) = Some req''.
Proof.
  simpl.
  destruct (retryOrchMaybeRetry ControlledBackoff now req reason)
    as [[[[|] wake] req'] |] eqn:E; try discriminate.
  apply retried_records in E. subst req'. auto.
Qed.

Lemma retry_all_attempts ds : forall req req',
  retry_all ControlledBackoff ds req = Some req' ->
  wrap_uint32 (attempts req') = wrap_uint32 (attempts req + Z.of_nat (length ds)).
Proof.
  induction ds as [| [now reason] rest IH]; intros req req' H.
  - simpl in H. inversion H. simpl. f_equal. lia.
  - apply retry_all_cons in H. apply IH in H. rewrite H.
    rewrite recordRetryAttempt_attempts. unfold wrap_uint32.
    rewrite Zplus_mod_idemp_l. f_equal. simpl length. lia.
Qed.

Lemma retry_all_in_range ds : forall req req',
  in_uint32 (attempts req) ->
  retry_all ControlledBackoff ds req = Some req' ->
  in_uint32 (attempts req').
Proof.
  induction ds as [| [now reason] rest IH]; intros req req' R H.
  - simpl in H. inversion H. subst. exact R.
  - apply retry_all_cons in H. apply IH in H; [exact H |].
    rewrite recordRetryAttempt_attempts. apply wrap_uint32_range.
Qed.

Lemma retry_all_In ds : forall req req' r,
  retry_all ControlledBackoff ds req = Some req' ->
  (In r (reasons req') <-> In r (reasons req) \/ In r (map snd ds)).
Proof.
  induction ds as [| [now reason] rest IH]; intros req req' r H.
  - simpl in H. inversion H. simpl. tauto.
  - apply retry_all_cons in H. rewrite (IH _ _ r H).
    rewrite recordRetryAttempt_In. simpl. intuition congruence.
Qed.

Lemma retry_all_NoDup ds : forall req req',
  NoDup (reasons req) ->
  retry_all ControlledBackoff ds req = Some req' ->
  NoDup (reasons req').
Proof.
  induction ds as [| [now reason] rest IH]; intros req req' ND H.
  - simpl in H. inversion H. subst. exact ND.
  - apply retry_all_cons in H. apply (IH _ _ (recordRetryAttempt_NoDup _ _ ND) H).
Qed.

Lemma retry_all_fresh_attempts op idem strat uuid6 ds req' :
  retry_all ControlledBackoff ds (newRetriableRequestPS op idem strat uuid6) = Some req' ->
  attempts req' = wrap_uint32 (Z.of_nat (length ds)).
Proof.
  intros H.
  assert (in_uint32 (attempts req')) as R.
  { apply (retry_all_in_range ds _ _) in H; [exact H |]. simpl. unfold in_uint32. lia. }
  rewrite <- (wrap_uint32_small _ R). rewrite (retry_all_attempts ds _ _ H). reflexivity.
Qed.

(** C4, as amended. After K consecutive decisions that say retry, made on
    a request as [newRetriableRequestPS] creates it, the attempt counter is
    K modulo 2^32 (so K itself as long as K < 2^32): each
    [recordRetryAttempt] adds one modulo 2^32, also for a reason already
    seen. The reason set holds exactly the distinct reasons among the K
    recorded ones, without duplicates. *)
Theorem retry_all_history
    (op : string) (idem : bool) (strat : option RetryStrategy) (uuid6 : string)
    (ds : list (Time * RetryReason)) (req' : retriableRequestPs) :
  retry_all ControlledBackoff ds (newRetriableRequestPS op idem strat uuid6) = Some req' ->
  attempts req' = wrap_uint32 (Z.of_nat (length ds))
  /\ (Z.of_nat (length ds) < 2 ^ 32 -> attempts req' = Z.of_nat (length ds))
  /\ (forall w reason,
        attempts (recordRetryAttempt w reason) = wrap_uint32 (attempts w + 1))
  /\ NoDup (reasons req')
  /\ (forall r, In r (reasons req') <-> In r (map snd ds))
  /\ length (reasons req') = length (nodup RetryReason_eq_dec (map snd ds)).
Proof.
  intros H.
  pose proof (retry_all_fresh_attempts _ _ _ _ _ _ H) as A.
  assert (NoDup (reasons req')) as ND.
  { apply (retry_all_NoDup ds _ _) in H; [exact H |]. simpl. constructor. }
  assert (forall r, In r (reasons req') <-> In r (map snd ds)) as I.
  { intros r. rewrite (retry_all_In ds _ _ r H). simpl. tauto. }
  repeat split; try assumption.
  - intros B. rewrite A. apply wrap_uint32_small. unfold in_uint32. lia.
  - apply (proj1 (I r)).
  - apply (proj2 (I r)).
  - apply Permutation_length. apply NoDup_Permutation; [exact ND | apply NoDup_nodup |].
    intros r. rewrite nodup_In. apply I.
Qed.

(** Decisions for a reason that is always retried all say retry. *)
Lemma retry_all_always now reason n : forall req,
  AlwaysRetry reason = true ->
  exists req', retry_all ControlledBackoff (repeat (now, reason) n) req = Some req'.
Proof.
  induction n as [| n IH]; intros req A.
  - exists req. reflexivity.
  - destruct (IH (recordRetryAttempt req reason) A) as [req' E].
    exists req'. cbn [repeat retry_all].
    unfold retryOrchMaybeRetry. rewrite A. exact E.
Qed.

End AttemptHistory.

(** Three retried decisions over two distinct reasons. *)
Lemma retry_all_history_witness :
  let ds := [(5, sampleAllowsNonIdempotent); (9, sampleAllowsNonIdempotent);
             (12, sampleAlwaysRetry)] in
  let strat := Some (constant_strategy (Some (WithDurationRetryAction 7))) in
  let req' := {| reasons := [sampleAllowsNonIdempotent; sampleAlwaysRetry];
                 attempts := 3; operation := "get"; identifier := "a1b2c3";
                 idempotent := false; strategy := strat |} in
  retry_all sampleBackoff ds (newRetriableRequestPS "get" false strat "a1b2c3") = Some req'
  /\ (attempts req' = wrap_uint32 (Z.of_nat (length ds))
      /\ (Z.of_nat (length ds) < 2 ^ 32 -> attempts req' = Z.of_nat (length ds))
      /\ (forall w reason,
            attempts (recordRetryAttempt w reason) = wrap_uint32 (attempts w + 1))
      /\ NoDup (reasons req')
      /\ (forall r, In r (reasons req') <-> In r (map snd ds))
      /\ length (reasons req') = length (nodup RetryReason_eq_dec (map snd ds))).
Proof.
  intros ds strat req'. split; [reflexivity |].
  apply (retry_all_history sampleBackoff "get" false strat "a1b2c3" ds req').
  reflexivity.
Defined.

Lemma retry_all_wraps_at (K : nat) :
  Z.of_nat K = 2 ^ 32 ->
  exists req',
    retry_all sampleBackoff (repeat (0, sampleAlwaysRetry) K)
      (newRetriableRequestPS "get" true None "a1b2c3") = Some req'
    /\ attempts req' = 0
    /\ attempts req' <> Z.of_nat (length (repeat (0, sampleAlwaysRetry) K)).
Proof.
  intros HK.
  destruct (retry_all_always sampleBackoff 0 sampleAlwaysRetry K
              (newRetriableRequestPS "get" true None "a1b2c3") eq_refl) as [req' E].
  exists req'. split; [exact E |].
  pose proof (retry_all_fresh_attempts sampleBackoff _ _ _ _ _ req' E) as A.
  rewrite repeat_length in *. rewrite HK in *.
  assert (wrap_uint32 (2 ^ 32) = 0) as W by reflexivity.
  rewrite W in A. rewrite A. split; [reflexivity | discriminate].
Qed.

(** The counter is not K once it wraps: after 2^32 decisions that say
    retry, on a request as created, it is back at zero. *)
Lemma retry_all_counter_wraps :
  exists req',
    retry_all sampleBackoff (repeat (0, sampleAlwaysRetry) (Z.to_nat (2 ^ 32)))
      (newRetriableRequestPS "get" true None "a1b2c3") = Some req'
    /\ attempts req' = 0
    /\ attempts req'
       <> Z.of_nat (length (repeat (0, sampleAlwaysRetry) (Z.to_nat (2 ^ 32)))).
Proof.
  apply retry_all_wraps_at. apply Z2Nat.id. discriminate.
Qed.

(** ** The retry loop *)

Section RetryLoop.

Variable ControlledBackoff : Z -> Duration.
Variable Response : Type.
Variable mapPsErrorToGocbError : error -> bool -> error.
Variable errors_Is_ErrTimeout : error -> bool.
Variable errors_Is_DeadlineExceeded : error -> bool.
Variable makeGenericError : error -> error.
Variable createdTime : Time.
Variable retryReasonFn : error -> option RetryReason.

Local Abbreviation attempt :=
  (handle_attempt ControlledBackoff Response mapPsErrorToGocbError errors_Is_ErrTimeout
     errors_Is_DeadlineExceeded makeGenericError createdTime retryReasonFn).

Local Abbreviation loop :=
  (handleRetriableRequest ControlledBackoff Response mapPsErrorToGocbError
     errors_Is_ErrTimeout errors_Is_DeadlineExceeded makeGenericError createdTime
     retryReasonFn).

(** Turns that all end in a retry, followed by further turns. *)
Lemma handleRetriableRequest_app envs : forall more req req_i,
  loop envs req = Returns (Continue Response req_i) ->
  loop (envs ++ more) req = loop more req_i.
Proof.
  induction envs as [| e rest IH]; intros more req req_i H.
  - simpl in H. inversion H. reflexivity.
  - simpl in *.
    destruct (handle_attempt _ _ _ _ _ _ _ _ e req) as [[req1 | res req1] |];
      simpl in *; try discriminate.
    apply IH. exact H.
Qed.

(** The loop ends with the turn that ends. *)
Lemma handleRetriableRequest_last e rest req res req' :
  attempt e req = Returns (Done Response res req') ->
  loop (e :: rest) req = Returns (Done Response res req').
Proof.
  intros H. simpl. rewrite H. reflexivity.
Qed.

(** C5. The failing terminations of [handleRetriableRequest], in a turn
    reached after any number of retried turns, with the request [req_i] as
    those turns left it. (1) If the mapped error of the failed dispatch is a
    timeout, the call returns a [TimeoutError] with the raw error as inner
    cause, the operation name, the identifier, the time elapsed since
    creation, the reason set and the attempt count of the request. (2) If
    the retry is granted and the wait is cut short by a context whose error
    is deadline-exceeded, the call returns a [TimeoutError] of the same
    shape, over the request as the decision left it, with
    [ErrUnambiguousTimeout] as inner cause. (3) If the wait is cut short by
    a context with any other error, the call returns the generic error made
    of [ErrRequestCanceled]. *)
Theorem handleRetriableRequest_failing_terminations
    (envs : list (attempt_env Response)) (e : attempt_env Response)
    (rest : list (attempt_env Response))
    (req req_i : retriableRequestPs) (err : error) :
  handleRetriableRequest ControlledBackoff Response mapPsErrorToGocbError
    errors_Is_ErrTimeout errors_Is_DeadlineExceeded makeGenericError createdTime
    retryReasonFn envs req = Returns (Continue Response req_i) ->
  env_send Response e = inr err ->
  let gocbErr := mapPsErrorToGocbError err (idempotent req_i) in
  let result :=
    handleRetriableRequest ControlledBackoff Response mapPsErrorToGocbError
      errors_Is_ErrTimeout errors_Is_DeadlineExceeded makeGenericError createdTime
      retryReasonFn (envs ++ e :: rest) req in
  (errors_Is_ErrTimeout gocbErr = true ->
   result = Returns (Done Response
              (inr (TimeoutError err (operation req_i) (identifier req_i)
                      (time_Since (env_end Response e) createdTime)
                      (reasons req_i) (attempts req_i))) req_i))
  /\ (errors_Is_ErrTimeout gocbErr = false ->
      forall reason wake req' cerr,
        retryReasonFn gocbErr = Some reason ->
        retryOrchMaybeRetry ControlledBackoff (env_now Response e) req_i reason
        = Returns (true, wake, req') ->
        env_wait Response e = CtxDone cerr ->
        (errors_Is_DeadlineExceeded cerr = true ->
         result = Returns (Done Response
                    (inr (TimeoutError ErrUnambiguousTimeout
                            (operation req_i) (identifier req_i)
                            (time_Since (env_end Response e) createdTime)
                            (reasons req') (attempts req'))) req'))
        /\ (errors_Is_DeadlineExceeded cerr = false ->
            result = Returns (Done Response
                       (inr (makeGenericError ErrRequestCanceled)) req'))).
Proof.
  intros P S gocbErr result.
  assert (result = loop (e :: rest) req_i) as R.
  { unfold result. apply (handleRetriableRequest_app envs (e :: rest) req req_i P). }
  rewrite R. clear R result. split.
  - intros T. apply handleRetriableRequest_last.
    unfold handle_attempt. rewrite S. fold gocbErr. rewrite T. reflexivity.
  - intros T reason wake req' cerr F D W.
    assert (operation req' = operation req_i /\ identifier req' = identifier req_i)
      as [Eo Ei].
    { apply retried_records in D. subst req'. split; reflexivity. }
    split; intros X; apply handleRetriableRequest_last;
      unfold handle_attempt; rewrite S; fold gocbErr; rewrite T, F, D; simpl;
      rewrite W, X, ?Eo, ?Ei; reflexivity.
Qed.

(** The other ways the loop ends: success, no retry reason, retry
    declined. *)
Lemma handle_attempt_success e req res :
  env_send Response e = inl res ->
  attempt e req = Returns (Done Response (inl res) req).
Proof. intros S. unfold handle_attempt. rewrite S. reflexivity. Qed.

Lemma handle_attempt_not_retryable e req err :
  env_send Response e = inr err ->
  errors_Is_ErrTimeout (mapPsErrorToGocbError err (idempotent req)) = false ->
  retryReasonFn (mapPsErrorToGocbError err (idempotent req)) = None ->
  attempt e req
  = Returns (Done Response (inr (mapPsErrorToGocbError err (idempotent req))) req).
Proof.
  intros S T F. unfold handle_attempt. rewrite S, T, F. reflexivity.
Qed.

Lemma handle_attempt_declined e req err reason wake req' :
  env_send Response e = inr err ->
  errors_Is_ErrTimeout (mapPsErrorToGocbError err (idempotent req)) = false ->
  retryReasonFn (mapPsErrorToGocbError err (idempotent req)) = Some reason ->
  retryOrchMaybeRetry ControlledBackoff (env_now Response e) req reason
  = Returns (false, wake, req') ->
  attempt e req
  = Returns (Done Response (inr (mapPsErrorToGocbError err (idempotent req))) req).
Proof.
  intros S T F D. unfold handle_attempt. rewrite S, T, F, D. simpl.
  apply retryOrchMaybeRetry_false_inv in D. destruct D as [-> _]. reflexivity.
Qed.

Lemma handle_attempt_timer e req err reason wake req' :
  env_send Response e = inr err ->
  errors_Is_ErrTimeout (mapPsErrorToGocbError err (idempotent req)) = false ->
  retryReasonFn (mapPsErrorToGocbError err (idempotent req)) = Some reason ->
  retryOrchMaybeRetry ControlledBackoff (env_now Response e) req reason
  = Returns (true, wake, req') ->
  env_wait Response e = TimerFired ->
  attempt e req = Returns (Continue Response req').
Proof.
  intros S T F D W. unfold handle_attempt. rewrite S, T, F, D. simpl.
  rewrite W. reflexivity.
Qed.

End RetryLoop.

(** A run of two turns: the first is retried, the second is cut short by
    the deadline while waiting. *)
Lemma handleRetriableRequest_failing_terminations_witness :
  let run :=
    handleRetriableRequest sampleBackoff Z sample_mapPsError sample_isTimeout
      sample_isDeadlineExceeded sample_makeGenericError 100 sample_retryReasonFn in
  let turn1 := sample_turn "unavailable" TimerFired 200 in
  let turn2 := sample_turn "unavailable" (CtxDone (ErrorValue "context deadline exceeded")) 300 in
  let req_1 := recordRetryAttempt sampleBestEffortRequest sampleAllowsNonIdempotent in
  let req_2 := recordRetryAttempt req_1 sampleAllowsNonIdempotent in
  run [turn1] sampleBestEffortRequest = Returns (Continue Z req_1)
  /\ env_send Z turn2 = inr (ErrorValue "unavailable")
  /\ run ([turn1] ++ turn2 :: []) sampleBestEffortRequest
     = Returns (Done Z
         (inr (TimeoutError ErrUnambiguousTimeout "get" "a1b2c3" 201
                 [sampleAllowsNonIdempotent] 2)) req_2).
Proof.
  intros run turn1 turn2 req_1 req_2.
  split; [reflexivity | split; [reflexivity |]].
  destruct (handleRetriableRequest_failing_terminations sampleBackoff Z sample_mapPsError
              sample_isTimeout sample_isDeadlineExceeded sample_makeGenericError 100
              sample_retryReasonFn [turn1] turn2 [] sampleBestEffortRequest req_1
              (ErrorValue "unavailable") eq_refl eq_refl) as [_ H].
  destruct (H eq_refl sampleAllowsNonIdempotent (Time_Add 300 (sampleBackoff 1)) req_2
              (ErrorValue "context deadline exceeded") eq_refl eq_refl eq_refl) as [H1 _].
  exact (H1 eq_refl).
Defined.

(** The scenario of a non-idempotent request under the best-effort
    strategy failing with a reason that allows non-idempotent retry twice
    and then with one that does not: two attempts are retried, the third
    failure is returned as mapped, the request holding two attempts and one
    reason. *)
Example handleRetriableRequest_scenario :
  handleRetriableRequest sampleBackoff Z sample_mapPsError sample_isTimeout
    sample_isDeadlineExceeded sample_makeGenericError 100 sample_retryReasonFn
    [sample_turn "unavailable" TimerFired 200;
     sample_turn "unavailable" TimerFired 300;
     sample_turn "locked" TimerFired 400]
    sampleBestEffortRequest
  = Returns (Done Z (inr (sample_mapPsError (ErrorValue "locked") false))
       {| reasons := [sampleAllowsNonIdempotent]; attempts := 2;
          operation := "get"; identifier := "a1b2c3"; idempotent := false;
          strategy := strategy sampleBestEffortRequest |}).
Proof. reflexivity. Qed.

(** ** The bulk provider: timeout, content, error classification *)

Import Bulk BulkRuns.

(** C7, as amended. The timeout [Do] gives the batch is the explicit
    per-batch timeout when that is not zero; otherwise it is the
    collection's KV timeout multiplied by the number of operations in
    64-bit signed arithmetic, which is the exact product whenever the
    product fits in an [int64]. Under a parent context without deadline the
    batch's deadline is the clock reading plus that timeout. *)
Theorem Do_timeout_spec (c : Collection) (ops : list BulkOp) (opts : BulkOpOptions)
    (now : Time) :
  (opt_Timeout opts <> 0 -> Do_timeout c ops opts = opt_Timeout opts)
  /\ (opt_Timeout opts = 0 ->
      Do_timeout c ops opts = wrap_int64 (KVTimeout c * Z.of_nat (length ops)))
  /\ (opt_Timeout opts = 0 -> in_int64 (KVTimeout c * Z.of_nat (length ops)) ->
      Do_timeout c ops opts = KVTimeout c * Z.of_nat (length ops))
  /\ (opt_Context opts = None ->
      ctx_deadline (Do_ctx c ops opts now) = Some (Time_Add now (Do_timeout c ops opts))).
Proof.
  unfold Do_ctx, Do_timeout. repeat split.
  - intros H. apply Z.eqb_neq in H. rewrite H. reflexivity.
  - intros H. rewrite H. reflexivity.
  - intros H R. rewrite H. simpl. apply wrap_int64_small. exact R.
  - intros H. rewrite H. reflexivity.
Qed.

(** Three operations under a KV timeout of 2.5 s, without and with an
    explicit timeout. *)
Lemma Do_timeout_spec_witness :
  let c := sample_collection 2500000000 in
  let ops := [new_GetOp "a"; new_GetOp "b"; new_UpsertOp "c" "v"%string] in
  Do_timeout c ops (sample_options 0) = 7500000000
  /\ Do_timeout c ops (sample_options 42) = 42.
Proof.
  intros c ops.
  destruct (Do_timeout_spec c ops (sample_options 0) 0) as (_ & _ & H0 & _).
  destruct (Do_timeout_spec c ops (sample_options 42) 0) as (H42 & _).
  split.
  - rewrite (H0 eq_refl); [reflexivity |]. unfold in_int64. simpl. lia.
  - apply H42. discriminate.
Defined.

(** The timeout is not the product once the product leaves the range of
    [int64]: a KV timeout of 2^62 nanoseconds and two operations give the
    timeout -2^63, not 2^63. *)
Lemma Do_timeout_overflows :
  let c := sample_collection (2 ^ 62) in
  let ops := [new_GetOp "a"; new_GetOp "b"] in
  in_int64 (KVTimeout c)
  /\ opt_Timeout (sample_options 0) = 0
  /\ Do_timeout c ops (sample_options 0) = - 2 ^ 63
  /\ Do_timeout c ops (sample_options 0) <> KVTimeout c * Z.of_nat (length ops).
Proof.
  simpl. unfold in_int64. repeat split; try lia; try reflexivity.
  vm_compute. discriminate.
Qed.

Section Handlers.

Variable mapPsErrorToGocbError : error -> bool -> error.
Variable psMutToGoCbMut : option PsMutationToken -> option MutationToken.
Variable uint32_of_Seconds : Duration -> Z.

Local Abbreviation handle := (worker_handle mapPsErrorToGocbError psMutToGoCbMut uint32_of_Seconds).

(** What the read handlers make of a successful response, whatever the
    variant of its content. *)
Lemma Get_success client ctx start item tracectx c transcoder res :
  client_Get client ctx
    (mkRequest (Get_ID (fields item)) (col_bucketName c) (col_ScopeName c) (col_name c) tt)
  = inl res ->
  Get mapPsErrorToGocbError client ctx start item tracectx c transcoder
  = StartSpan (startKvOpTrace c "get" tracectx false)
    :: snd (read_content (get_Content res))
    ++ [SignalSend (IsGetOp (set_Result
          (set_finishFn item (mkFinish (startKvOpTrace c "get" tracectx false) "get" start))
          {| gr_cas := get_Cas res; gr_transcoder := transcoder;
             gr_contents := fst (read_content (get_Content res));
             gr_flags := get_ContentFlags res |}))].
Proof.
  intros H. unfold Get. simpl. rewrite H.
  destruct (read_content (get_Content res)). reflexivity.
Qed.

Lemma GetAndTouch_success client ctx start item tracectx c transcoder res :
  client_GetAndTouch client ctx
    (mkRequest (GetAndTouch_ID (fields item)) (col_bucketName c) (col_ScopeName c)
       (col_name c)
       {| eo_ExpirySecs := uint32_of_Seconds (GetAndTouch_Expiry (fields item)) |})
  = inl res ->
  GetAndTouch mapPsErrorToGocbError uint32_of_Seconds client ctx start item tracectx c
    transcoder
  = StartSpan (startKvOpTrace c "get_and_touch" tracectx false)
    :: snd (read_content (gat_Content res))
    ++ [SignalSend (IsGetAndTouchOp (set_Result
          (set_finishFn item
             (mkFinish (startKvOpTrace c "get_and_touch" tracectx false)
                "get_and_touch" start))
          {| gr_cas := gat_Cas res; gr_transcoder := transcoder;
             gr_contents := fst (read_content (gat_Content res));
             gr_flags := gat_ContentFlags res |}))].
Proof.
  intros H. unfold GetAndTouch. simpl. rewrite H.
  destruct (read_content (gat_Content res)). reflexivity.
Qed.

Lemma signalled_app e1 e2 : signalled (e1 ++ e2) = signalled e1 ++ signalled e2.
Proof.
  induction e1 as [| e rest IH]; [reflexivity |].
  destruct e; simpl; rewrite ?IH; reflexivity.
Qed.

Lemma warnings_app e1 e2 : warnings (e1 ++ e2) = warnings e1 ++ warnings e2.
Proof.
  induction e1 as [| e rest IH]; [reflexivity |].
  destruct e; simpl; rewrite ?IH; reflexivity.
Qed.

(** C8. When the response of a bulk Get or GetAndTouch carries the
    compressed content variant, the one item the handler signals has a
    result holding those bytes as they came, the response's CAS and the
    response's content flags, and the handler logs one warning; for the
    uncompressed variant the result is built the same way from the
    uncompressed bytes, the CAS and the flags, without a warning. *)
Theorem compressed_content_passed_through
    (client : KvServiceClient) (ctx : Context) (start : Time)
    (tracectx : RequestSpanContext) (c : Collection) (transcoder : Transcoder)
    (b : bytes) :
  (forall (item : GetOp) (res : GetResponse),
     client_Get client ctx
       (mkRequest (Get_ID (fields item)) (col_bucketName c) (col_ScopeName c)
          (col_name c) tt) = inl res ->
     let run := Get mapPsErrorToGocbError client ctx start item tracectx c transcoder in
     let item' :=
       set_finishFn item (mkFinish (startKvOpTrace c "get" tracectx false) "get" start) in
     (get_Content res = ContentCompressed b ->
      signalled run
      = [IsGetOp (set_Result item'
           {| gr_cas := get_Cas res; gr_transcoder := transcoder;
              gr_contents := b; gr_flags := get_ContentFlags res |})]
      /\ warnings run = [compressed_warning])
     /\ (get_Content res = ContentUncompressed b ->
         signalled run
         = [IsGetOp (set_Result item'
              {| gr_cas := get_Cas res; gr_transcoder := transcoder;
                 gr_contents := b; gr_flags := get_ContentFlags res |})]
         /\ warnings run = []))
  /\ (forall (item : GetAndTouchOp) (res : GetAndTouchResponse),
        client_GetAndTouch client ctx
          (mkRequest (GetAndTouch_ID (fields item)) (col_bucketName c) (col_ScopeName c)
             (col_name c)
             {| eo_ExpirySecs := uint32_of_Seconds (GetAndTouch_Expiry (fields item)) |})
        = inl res ->
        let run :=
          GetAndTouch mapPsErrorToGocbError uint32_of_Seconds client ctx start item
            tracectx c transcoder in
        let item' :=
          set_finishFn item
            (mkFinish (startKvOpTrace c "get_and_touch" tracectx false)
               "get_and_touch" start) in
        (gat_Content res = ContentCompressed b ->
         signalled run
         = [IsGetAndTouchOp (set_Result item'
              {| gr_cas := gat_Cas res; gr_transcoder := transcoder;
                 gr_contents := b; gr_flags := gat_ContentFlags res |})]
         /\ warnings run = [compressed_warning])
        /\ (gat_Content res = ContentUncompressed b ->
            signalled run
            = [IsGetAndTouchOp (set_Result item'
                 {| gr_cas := gat_Cas res; gr_transcoder := transcoder;
                    gr_contents := b; gr_flags := gat_ContentFlags res |})]
            /\ warnings run = [])).
Proof.
  split.
  - intros item res H run item'. unfold run.
    rewrite (Get_success _ _ _ _ _ _ _ _ H).
    split; intros C; rewrite C; simpl; split; reflexivity.
  - intros item res H run item'. unfold run.
    rewrite (GetAndTouch_success _ _ _ _ _ _ _ _ H).
    split; intros C; rewrite C; simpl; split; reflexivity.
Qed.

End Handlers.

(** A Get answered with compressed content. *)
Lemma compressed_content_passed_through_witness :
  let b := list_byte_of_string "zipped" in
  let client := answering_client (ContentCompressed b) in
  let c := sample_collection 2500000000 in
  let item := mkOp {| Get_ID := "doc" |} None None None in
  let run := Get sample_mapPsError client context_Background 10 item [] c sample_transcoder in
  client_Get client context_Background (mkRequest "doc" "travel" "_default" "_default" tt)
  = inl (mkGetResponse (ContentCompressed b) 77 3)
  /\ signalled run
     = [IsGetOp (mkOp {| Get_ID := "doc" |}
          (Some {| gr_cas := 77; gr_transcoder := sample_transcoder;
                   gr_contents := b; gr_flags := 3 |})
          None
          (Some (mkFinish (startKvOpTrace c "get" [] false) "get" 10)))]
  /\ warnings run = [compressed_warning].
Proof.
  intros b client c item run. split; [reflexivity |].
  destruct (compressed_content_passed_through sample_mapPsError sample_seconds client
              context_Background 10 [] c sample_transcoder b) as [G _].
  destruct (G item (mkGetResponse (ContentCompressed b) 77 3) eq_refl) as [C _].
  exact (C eq_refl).
Defined.

Section Classification.

Variable mapPsErrorToGocbError : error -> bool -> error.
Variable psMutToGoCbMut : option PsMutationToken -> option MutationToken.
Variable uint32_of_Seconds : Duration -> Z.

(** C9. When the remote call of a bulk operation fails with [err], the one
    item its handler signals is of the operation's kind and has in its
    error slot the error mapper's result for [err], with the idempotent
    flag true for Get and false for every other kind, GetAndTouch
    included. *)
Theorem failed_call_classification
    (client : KvServiceClient) (start : Time) (op : bulkOpChanStruct) (err : error) :
  call_fails client (cs_i op) err ->
  encodes (cs_transcoder op) (cs_i op) ->
  exists out,
    signalled (worker_handle mapPsErrorToGocbError psMutToGoCbMut uint32_of_Seconds
                 client start op) = [out]
    /\ kind_of out = kind_of (cs_i op)
    /\ BulkOp_has_Result out = BulkOp_has_Result (cs_i op)
    /\ BulkOp_Err out
       = Some (mapPsErrorToGocbError err
                 match kind_of (cs_i op) with
                 | KGet => true
                 | _ => false
                 end).
Proof.
  intros F E. unfold worker_handle.
  destruct (cs_i op) as [i | i | i | i | i | i | i | i | i | i | i |]; simpl in F, E |- *;
    [| | | | | | | | | | | contradiction].
  - unfold Get. rewrite F. eexists. repeat split.
  - unfold GetAndTouch. rewrite F. eexists. repeat split.
  - unfold Touch. rewrite F. eexists. repeat split.
  - unfold Remove. rewrite F. eexists. repeat split.
  - destruct E as (b & f & E). unfold Upsert. simpl. rewrite E, F. eexists. repeat split.
  - destruct E as (b & f & E). unfold Insert. simpl. rewrite E, F. eexists. repeat split.
  - destruct E as (b & f & E). unfold Replace. simpl. rewrite E, F. eexists. repeat split.
  - unfold Append. rewrite F. eexists. repeat split.
  - unfold Prepend. rewrite F. eexists. repeat split.
  - unfold Increment. rewrite F. eexists. repeat split.
  - unfold Decrement. rewrite F. eexists. repeat split.
Qed.

(** A value that cannot be encoded is reported unmapped, and no remote
    call is made. *)
Lemma Upsert_encode_failure client ctx start (item : UpsertOp) tracectx c transcoder err :
  Encode transcoder (Upsert_Value (fields item)) = inr err ->
  signalled (Upsert mapPsErrorToGocbError psMutToGoCbMut uint32_of_Seconds client ctx start
               item tracectx c transcoder)
  = [IsUpsertOp (set_Err
       (set_finishFn item (mkFinish (startKvOpTrace c "upsert" tracectx false) "upsert" start))
       err)].
Proof. intros E. unfold Upsert. simpl. rewrite E. reflexivity. Qed.

End Classification.

(** A Get and a GetAndTouch against a service that is unavailable. *)
Lemma failed_call_classification_witness :
  let err := ErrorValue "unavailable" in
  let client := failing_client err in
  let chan i := mkChanStruct context_Background i [] (sample_collection 2500000000)
                  sample_transcoder in
  let run i := signalled (worker_handle sample_mapPsError sample_psMutToGoCbMut
                            sample_seconds client 10 (chan i)) in
  (call_fails client (new_GetOp "a") err /\ encodes sample_transcoder (new_GetOp "a"))
  /\ (call_fails client (new_GetAndTouchOp "b" 0) err
      /\ encodes sample_transcoder (new_GetAndTouchOp "b" 0))
  /\ (exists out, run (new_GetOp "a") = [out]
        /\ BulkOp_Err out = Some (MappedError err true "mapped"))
  /\ (exists out, run (new_GetAndTouchOp "b" 0) = [out]
        /\ BulkOp_Err out = Some (MappedError err false "mapped")).
Proof.
  intros err client chan run.
  assert (call_fails client (new_GetOp "a") err /\ encodes sample_transcoder (new_GetOp "a"))
    as HG by (split; simpl; auto).
  assert (call_fails client (new_GetAndTouchOp "b" 0) err
          /\ encodes sample_transcoder (new_GetAndTouchOp "b" 0))
    as HT by (split; simpl; auto).
  split; [exact HG | split; [exact HT | split]].
  - destruct (failed_call_classification sample_mapPsError sample_psMutToGoCbMut
                sample_seconds client 10 (chan (new_GetOp "a")) err
                (proj1 HG) (proj2 HG)) as (out & S & _ & _ & E).
    exists out. split; [exact S | exact E].
  - destruct (failed_call_classification sample_mapPsError sample_psMutToGoCbMut
                sample_seconds client 10 (chan (new_GetAndTouchOp "b" 0)) err
                (proj1 HT) (proj2 HT)) as (out & S & _ & _ & E).
    exists out. split; [exact S | exact E].
Defined.

(** ** The bulk provider: every handler signals once, at its end *)

Lemma sends_last_one out : sends_last [SignalSend out] out.
Proof. exists []. reflexivity. Qed.

Lemma sends_last_cons e effs out : sends_last effs out -> sends_last (e :: effs) out.
Proof. intros [pre ->]. exists (e :: pre). reflexivity. Qed.

Lemma sends_last_app pre out : sends_last (pre ++ [SignalSend out]) out.
Proof. exists pre. reflexivity. Qed.

Lemma sends_last_unique effs out out' :
  sends_last effs out -> sends_last effs out' -> out = out'.
Proof.
  intros [pre ->] [pre' E]. apply app_inj_tail in E. destruct E as [_ E].
  inversion E. reflexivity.
Qed.

Create HintDb sends.

#[local] Hint Resolve sends_last_one sends_last_cons sends_last_app : sends.

Section EveryHandlerSignals.

Variable mapPsErrorToGocbError : error -> bool -> error.
Variable psMutToGoCbMut : option PsMutationToken -> option MutationToken.
Variable uint32_of_Seconds : Duration -> Z.

Local Abbreviation handle := (worker_handle mapPsErrorToGocbError psMutToGoCbMut uint32_of_Seconds).

Ltac sent :=
  eexists; split; [auto 6 with sends | split; [reflexivity | split; [discriminate | reflexivity]]].

(** Whatever the service and the transcoder answer, a handler sends one
    item and ends with that: the operation it was given, of the same kind,
    with its completion callback set. *)
Lemma worker_handle_sends client start op :
  has_case (cs_i op) = true ->
  exists out,
    sends_last (handle client start op) out
    /\ signalled (handle client start op) = [out]
    /\ BulkOp_finishFn out <> None
    /\ kind_of out = kind_of (cs_i op).
Proof.
  unfold worker_handle.
  destruct (cs_i op) as [i | i | i | i | i | i | i | i | i | i | i |]; intros M;
    [| | | | | | | | | | | discriminate M].
  - unfold Get. destruct (client_Get _ _ _) as [res | err]; [| sent].
    destruct (get_Content res); simpl; sent.
  - unfold GetAndTouch. destruct (client_GetAndTouch _ _ _) as [res | err]; [| sent].
    destruct (gat_Content res); simpl; sent.
  - unfold Touch. destruct (client_Touch _ _ _); sent.
  - unfold Remove. destruct (client_Remove _ _ _); sent.
  - unfold Upsert. destruct (Encode _ _) as [[b f] | err]; [| sent].
    destruct (client_Upsert _ _ _); sent.
  - unfold Insert. destruct (Encode _ _) as [[b f] | err]; [| sent].
    destruct (client_Insert _ _ _); sent.
  - unfold Replace. destruct (Encode _ _) as [[b f] | err]; [| sent].
    destruct (client_Replace _ _ _); sent.
  - unfold Append. destruct (client_Append _ _ _); sent.
  - unfold Prepend. destruct (client_Prepend _ _ _); sent.
  - unfold Increment. destruct (client_Increment _ _ _); sent.
  - unfold Decrement. destruct (client_Decrement _ _ _); sent.
Qed.

(** For a value without a case the worker does nothing at all. *)
Lemma worker_handle_no_case client start op :
  has_case (cs_i op) = false -> handle client start op = [].
Proof.
  unfold worker_handle. destruct (cs_i op); intros M; (discriminate M || reflexivity).
Qed.

(** A run that sends is the run of a handler. *)
Lemma sending_run_has_case client start op pre out :
  handle client start op = pre ++ [SignalSend out] ->
  has_case (cs_i op) = true.
Proof.
  intros H. destruct (has_case (cs_i op)) eqn:M; [reflexivity |].
  rewrite (worker_handle_no_case client start op M) in H.
  destruct pre; discriminate H.
Qed.

Lemma sent_item_has_callback client start op pre out :
  handle client start op = pre ++ [SignalSend out] ->
  BulkOp_finishFn out <> None.
Proof.
  intros H.
  destruct (worker_handle_sends client start op (sending_run_has_case _ _ _ _ _ H))
    as (out0 & S & _ & F & _).
  assert (out0 = out) as <-; [| exact F].
  apply (sends_last_unique _ _ _ S). exists pre. exact H.
Qed.

Lemma signalled_sends_last effs out :
  sends_last effs out -> In out (signalled effs).
Proof.
  intros [pre ->]. induction pre as [| e rest IH]; [left; reflexivity |].
  destruct e; simpl; auto.
Qed.

End EveryHandlerSignals.

(** ** The bulk provider: [Do] completes *)

Lemma map_fst_combine_seq (l : list BulkOp) : forall a,
  map fst (combine (seq a (length l)) l) = seq a (length l).
Proof.
  induction l as [| x rest IH]; intros a; simpl; [reflexivity |].
  rewrite IH. reflexivity.
Qed.

Lemma In_combine_seq (l : list BulkOp) : forall a k item,
  In (k, item) (combine (seq a (length l)) l) ->
  (a <= k)%nat /\ nth_error l (k - a) = Some item.
Proof.
  induction l as [| x rest IH]; intros a k item H; simpl in H; [contradiction |].
  destruct H as [E | H].
  - inversion E. subst. split; [lia |]. rewrite Nat.sub_diag. reflexivity.
  - apply IH in H. destruct H as [L H]. split; [lia |].
    replace (k - a)%nat with (S (k - S a)) by lia. exact H.
Qed.

Lemma indexed_nth_error ops k item :
  In (k, item) (indexed ops) -> nth_error ops k = Some item.
Proof.
  intros H. apply In_combine_seq in H. destruct H as [_ H].
  rewrite Nat.sub_0_r in H. exact H.
Qed.

Lemma length_indexed ops : length (indexed ops) = length ops.
Proof.
  unfold indexed. rewrite length_combine, length_seq. apply Nat.min_id.
Qed.

(** Moving an index from one list to another keeps the indices a
    permutation of the positions: compare the number of occurrences. *)
Ltac by_counting H :=
  apply (Permutation_count_occ Nat.eq_dec); intros x;
  let Hx := fresh "Hx" in
  pose proof (proj1 (Permutation_count_occ Nat.eq_dec _ _) H x) as Hx;
  repeat rewrite ?map_app, ?count_occ_app in Hx;
  repeat rewrite ?map_app, ?count_occ_app;
  simpl in Hx |- *;
  repeat match goal with
         | |- context [Nat.eq_dec ?a ?b] => destruct (Nat.eq_dec a b)
         | H0 : context [Nat.eq_dec ?a ?b] |- _ => destruct (Nat.eq_dec a b)
         end;
  lia.

Import BulkMore.

Lemma values_recorded_app e1 e2 :
  values_recorded (e1 ++ e2) = values_recorded e1 ++ values_recorded e2.
Proof.
  induction e1 as [| e rest IH]; [reflexivity |].
  destruct e; simpl; rewrite ?IH; reflexivity.
Qed.

Lemma finish_effects_app meter l1 l2 :
  finish_effects meter (l1 ++ l2) = finish_effects meter l1 ++ finish_effects meter l2.
Proof.
  induction l1 as [| [k item] rest IH]; [reflexivity |].
  simpl. destruct (finish meter item); rewrite IH; [apply app_assoc | reflexivity].
Qed.

(** An entry of a batch without unmatched values has a case. *)
Lemma matched_nth_error ops k item :
  forallb has_case ops = true -> nth_error ops k = Some item -> has_case item = true.
Proof.
  intros M N. apply nth_error_In in N.
  exact (proj1 (forallb_forall has_case ops) M item N).
Qed.

Section DoCompletes.

Variable mapPsErrorToGocbError : error -> bool -> error.
Variable psMutToGoCbMut : option PsMutationToken -> option MutationToken.
Variable uint32_of_Seconds : Duration -> Z.
Variable meterValueServiceKV : string.
Variable c : Collection.
Variable ops : list BulkOp.
Variable opts : BulkOpOptions.
Variable now : Time.

Local Abbreviation step :=
  (Do_step mapPsErrorToGocbError psMutToGoCbMut uint32_of_Seconds meterValueServiceKV
     c ops opts now).
Local Abbreviation steps :=
  (Do_steps mapPsErrorToGocbError psMutToGoCbMut uint32_of_Seconds meterValueServiceKV
     c ops opts now).
Local Abbreviation Inv :=
  (Do_invariant mapPsErrorToGocbError psMutToGoCbMut uint32_of_Seconds c ops opts now).
Local Abbreviation init := (Do_init c ops opts).
Local Abbreviation handle :=
  (worker_handle mapPsErrorToGocbError psMutToGoCbMut uint32_of_Seconds).

Ltac invariant_parts :=
  split; [| split; [| split; [| split; [| split; [| split; [| split]]]]]].

Lemma Do_invariant_init : Inv init.
Proof.
  unfold Do_invariant, Do_init; simpl. invariant_parts;
    try reflexivity; try (intros k x []).
  - unfold indexed. rewrite map_fst_combine_seq, app_nil_r. apply Permutation_refl.
  - intros k item H. apply indexed_nth_error. exact H.
Qed.

Lemma Do_invariant_length s :
  Inv s ->
  (length (st_tosend s) + length (st_workers s) + length (st_signal s)
   + length (st_finished s) + length (st_dropped s) = length ops)%nat.
Proof.
  intros (_ & P & _). apply Permutation_length in P.
  rewrite !length_app, !length_map, length_seq in P. lia.
Qed.

Lemma finish_returns item :
  BulkOp_finishFn item <> None ->
  exists effs, finish meterValueServiceKV item = Returns effs.
Proof.
  unfold finish. destruct (BulkOp_finishFn item); [eauto | congruence].
Qed.

(** A handler records no latency: only [finish] does. *)
Lemma worker_handle_records_nothing client start op :
  values_recorded (handle client start op) = [].
Proof.
  unfold worker_handle.
  destruct (cs_i op) as [i | i | i | i | i | i | i | i | i | i | i |].
  - unfold Get. destruct (client_Get _ _ _) as [res | err]; [| reflexivity].
    destruct (get_Content res); reflexivity.
  - unfold GetAndTouch. destruct (client_GetAndTouch _ _ _) as [res | err]; [| reflexivity].
    destruct (gat_Content res); reflexivity.
  - unfold Touch. destruct (client_Touch _ _ _); reflexivity.
  - unfold Remove. destruct (client_Remove _ _ _); reflexivity.
  - unfold Upsert. destruct (Encode _ _) as [[b f] | err]; [| reflexivity].
    destruct (client_Upsert _ _ _); reflexivity.
  - unfold Insert. destruct (Encode _ _) as [[b f] | err]; [| reflexivity].
    destruct (client_Insert _ _ _); reflexivity.
  - unfold Replace. destruct (Encode _ _) as [[b f] | err]; [| reflexivity].
    destruct (client_Replace _ _ _); reflexivity.
  - unfold Append. destruct (client_Append _ _ _); reflexivity.
  - unfold Prepend. destruct (client_Prepend _ _ _); reflexivity.
  - unfold Increment. destruct (client_Increment _ _ _); reflexivity.
  - unfold Decrement. destruct (client_Decrement _ _ _); reflexivity.
  - reflexivity.
Qed.

(** A worker that did nothing had a value without a case. *)
Lemma idle_run_no_case client start op :
  handle client start op = [] -> has_case (cs_i op) = false.
Proof.
  intros H. destruct (has_case (cs_i op)) eqn:M; [| reflexivity].
  destruct (worker_handle_sends mapPsErrorToGocbError psMutToGoCbMut uint32_of_Seconds
              client start op M) as (out & [pre R] & _).
  rewrite H in R. destruct pre; discriminate R.
Qed.

Lemma Do_invariant_step s s' : Inv s -> step s s' -> Inv s'.
Proof.
  intros I St. pose proof (Do_invariant_length s I) as Len.
  destruct I as (Cap & P & Ts & Tw & Tg & Tf & Td & Pc).
  destruct St as [s k item rest Hpc Hts Hw
                 | s Hpc Hts
                 | s w1 k op w2 client start pre out Hw Hrun Hroom
                 | s w1 k op w2 client start Hw Hrun
                 | s togo k item rest effs Hpc Hsig Hfin
                 | s togo k item rest Hpc Hsig Hfin
                 | s Hpc];
    unfold Do_invariant; simpl.
  - rewrite Hpc in Pc. rewrite Hts in *.
    invariant_parts; try assumption.
    + by_counting P.
    + intros k0 i0 H. apply Ts. right. exact H.
    + intros k0 w H. apply in_app_iff in H. destruct H as [H | [E | []]]; [auto |].
      inversion E. subst. exists item. split; [apply Ts; left |]; reflexivity.
  - rewrite Hpc in Pc. rewrite Hts in *. simpl in Len.
    invariant_parts; try assumption.
    split; [reflexivity |]. rewrite Pc in Len. simpl in Len. lia.
  - rewrite Hw in *.
    invariant_parts; try assumption.
    + by_counting P.
    + intros k0 w H. apply Tw. apply in_app_iff in H. apply in_app_iff.
      destruct H; [left | right; right]; assumption.
    + intros k0 o H. apply in_app_iff in H. destruct H as [H | [E | []]]; [auto |].
      inversion E. subst.
      destruct (Tw k0 op) as (item & N & ->); [apply in_app_iff; right; left; reflexivity |].
      exists item, client, start, pre. split; assumption.
    + destruct (st_pc s) as [| togo | e |]; auto.
      * destruct Pc as [T ->]. split; [exact T |].
        rewrite !length_app. simpl. lia.
      * destruct Pc as (_ & _ & W & _). destruct w1; discriminate W.
  - rewrite Hw in *.
    invariant_parts; try assumption.
    + by_counting P.
    + intros k0 w H. apply Tw. apply in_app_iff in H. apply in_app_iff.
      destruct H; [left | right; right]; assumption.
    + intros k0 o H. apply in_app_iff in H. destruct H as [H | [E | []]]; [auto |].
      inversion E. subst.
      destruct (Tw k0 op) as (item & N & ->); [apply in_app_iff; right; left; reflexivity |].
      split; [exact N |]. exact (idle_run_no_case _ _ _ Hrun).
    + destruct (st_pc s) as [| togo | e |]; auto.
      * destruct Pc as [T ->]. split; [exact T |].
        rewrite !length_app. simpl. lia.
      * destruct Pc as (_ & _ & W & _). destruct w1; discriminate W.
  - rewrite Hpc in Pc. rewrite Hsig in *. destruct Pc as [T L].
    invariant_parts; try assumption.
    + by_counting P.
    + intros k0 o H. apply Tg. right. exact H.
    + intros k0 o H. apply in_app_iff in H. destruct H as [H | [E | []]]; [auto |].
      inversion E. subst. apply Tg. left. reflexivity.
    + split; [exact T |]. simpl in L. lia.
  - exfalso. rewrite Hsig in Tg.
    destruct (Tg k item (or_introl eq_refl)) as (i0 & client & start & pre & _ & R).
    apply sent_item_has_callback in R.
    unfold finish in Hfin. destruct (BulkOp_finishFn item); [discriminate | congruence].
  - rewrite Hpc in Pc. destruct Pc as [T L].
    invariant_parts; try assumption.
    split; [reflexivity |]. split; [exact T |].
    destruct (st_workers s), (st_signal s), (st_dropped s); try discriminate L.
    auto.
Qed.

(** What [finish] did is in the trace, and the latencies of the trace are
    those [finish] recorded: one for each finished item, in the order of
    finishing. *)
Lemma Do_finish_in_trace_step s s' :
  step s s' ->
  incl (finish_effects meterValueServiceKV (st_finished s)) (st_trace s)
  /\ values_recorded (st_trace s)
     = values_recorded (finish_effects meterValueServiceKV (st_finished s)) ->
  incl (finish_effects meterValueServiceKV (st_finished s')) (st_trace s')
  /\ values_recorded (st_trace s')
     = values_recorded (finish_effects meterValueServiceKV (st_finished s')).
Proof.
  intros St [Hin Hval].
  destruct St as [s k item rest Hpc Hts Hw
                 | s Hpc Hts
                 | s w1 k op w2 client start pre out Hw Hrun Hroom
                 | s w1 k op w2 client start Hw Hrun
                 | s togo k item rest effs Hpc Hsig Hfin
                 | s togo k item rest Hpc Hsig Hfin
                 | s Hpc];
    simpl; try (split; assumption).
  - split; [apply incl_appl; exact Hin |].
    rewrite values_recorded_app, Hval.
    pose proof (worker_handle_records_nothing client start op) as Z.
    rewrite Hrun, values_recorded_app in Z. apply app_eq_nil in Z.
    rewrite (proj1 Z). apply app_nil_r.
  - rewrite finish_effects_app. simpl. rewrite Hfin, app_nil_r. split.
    + apply incl_app; [apply incl_appl; exact Hin | apply incl_appr; apply incl_refl].
    + rewrite !values_recorded_app, Hval. reflexivity.
  - split; [apply incl_appl; exact Hin |].
    rewrite values_recorded_app, Hval. apply app_nil_r.
Qed.

End DoCompletes.

Section DoRuns.

Variable mapPsErrorToGocbError : error -> bool -> error.
Variable psMutToGoCbMut : option PsMutationToken -> option MutationToken.
Variable uint32_of_Seconds : Duration -> Z.
Variable meterValueServiceKV : string.
Variable c : Collection.
Variable ops : list BulkOp.
Variable opts : BulkOpOptions.
Variable now : Time.

Local Abbreviation step :=
  (Do_step mapPsErrorToGocbError psMutToGoCbMut uint32_of_Seconds meterValueServiceKV
     c ops opts now).
Local Abbreviation steps :=
  (Do_steps mapPsErrorToGocbError psMutToGoCbMut uint32_of_Seconds meterValueServiceKV
     c ops opts now).
Local Abbreviation Inv :=
  (Do_invariant mapPsErrorToGocbError psMutToGoCbMut uint32_of_Seconds c ops opts now).
Local Abbreviation init := (Do_init c ops opts).

Lemma Do_invariant_steps n : forall s s', Inv s -> steps n s s' -> Inv s'.
Proof.
  induction n as [| n IH]; intros s s' I R; inversion R; subst; [exact I |].
  eapply IH; [| eassumption].
  eapply Do_invariant_step; eassumption.
Qed.

Lemma Do_invariant_reachable n s : steps n init s -> Inv s.
Proof. apply Do_invariant_steps. apply Do_invariant_init. Qed.

Lemma Do_finish_in_trace n : forall s s',
  steps n s s' ->
  incl (finish_effects meterValueServiceKV (st_finished s)) (st_trace s)
  /\ values_recorded (st_trace s)
     = values_recorded (finish_effects meterValueServiceKV (st_finished s)) ->
  incl (finish_effects meterValueServiceKV (st_finished s')) (st_trace s')
  /\ values_recorded (st_trace s')
     = values_recorded (finish_effects meterValueServiceKV (st_finished s')).
Proof.
  induction n as [| n IH]; intros s s' R H; inversion R; subst; [exact H |].
  eapply IH; [eassumption |].
  eapply Do_finish_in_trace_step; eassumption.
Qed.

(** Every move uses up one of the moves left (the one that panics, two). *)
Lemma step_moves_left s s' : step s s' -> (moves_left s' < moves_left s)%nat.
Proof.
  intros St.
  destruct St as [s k item rest Hpc Hts Hw
                 | s Hpc Hts
                 | s w1 k op w2 client start pre out Hw Hrun Hroom
                 | s w1 k op w2 client start Hw Hrun
                 | s togo k item rest effs Hpc Hsig Hfin
                 | s togo k item rest Hpc Hsig Hfin
                 | s Hpc];
    unfold moves_left; simpl;
    rewrite ?Hpc, ?Hts, ?Hw, ?Hsig, ?length_app; simpl; lia.
Qed.

Lemma steps_moves_left n : forall s s',
  steps n s s' -> (n + moves_left s' <= moves_left s)%nat.
Proof.
  induction n as [| n IH]; intros s s' R; inversion R; subst; [lia |].
  match goal with
  | H1 : step s ?m, H2 : steps n ?m s' |- _ =>
      apply step_moves_left in H1; apply IH in H2; lia
  end.
Qed.

Lemma moves_left_init : moves_left init = (3 * length ops + 2)%nat.
Proof. unfold moves_left, Do_init. simpl. rewrite length_indexed. lia. Qed.

(** In a batch where every entry has a case no worker drops one. *)
Lemma Do_nothing_dropped s :
  forallb has_case ops = true -> Inv s -> st_dropped s = [].
Proof.
  intros M (_ & _ & _ & _ & _ & _ & Td & _).
  destruct (st_dropped s) as [| [k item] rest]; [reflexivity |].
  destruct (Td k item (or_introl eq_refl)) as [N F].
  rewrite (matched_nth_error _ _ _ M N) in F. discriminate F.
Qed.

(** No deadlock when every entry has a case: [Do] has returned, or some
    goroutine can move. *)
Lemma Do_progress s :
  forallb has_case ops = true ->
  Inv s -> (exists e, st_pc s = Returned e) \/ exists s', step s s'.
Proof.
  intros M I. pose proof (Do_invariant_length _ _ _ _ _ _ _ s I) as Len.
  pose proof (Do_nothing_dropped s M I) as D.
  destruct I as (Cap & P & Ts & Tw & Tg & Tf & Td & Pc).
  assert (forall k op w2, st_workers s = (k, op) :: w2 -> exists s', step s s') as Work.
  { intros k op w2 Hw.
    destruct (Tw k op) as (item & N & E); [rewrite Hw; left; reflexivity |].
    destruct (worker_handle_sends mapPsErrorToGocbError psMutToGoCbMut uint32_of_Seconds
                (failing_client ErrRequestCanceled) now op) as (out & [pre R] & _).
    { rewrite E. simpl. exact (matched_nth_error _ _ _ M N). }
    eexists.
    eapply (step_worker _ _ _ _ _ _ _ _ s [] k op w2); [exact Hw | exact R |].
    rewrite Hw in Len. simpl in Len. lia. }
  destruct (st_pc s) as [| togo | e |] eqn:Hpc; [| | left; eauto | contradiction].
  - right. destruct (st_tosend s) as [| [k item] rest] eqn:Hts.
    + eexists. apply step_pushed_all; assumption.
    + destruct (Z_lt_ge_dec (Z.of_nat (length (st_workers s))) _workerCount) as [L | G].
      * eexists. eapply step_push; eassumption.
      * destruct (st_workers s) as [| [k' op] w2] eqn:Hw.
        -- simpl in G. unfold _workerCount in G. lia.
        -- eapply Work. reflexivity.
  - right. destruct Pc as [T L]. destruct togo as [| togo].
    + eexists. apply step_return. exact Hpc.
    + destruct (st_signal s) as [| [k item] rest] eqn:Hsig.
      * destruct (st_workers s) as [| [k' op] w2] eqn:Hw;
          [rewrite D in L; simpl in L; discriminate |].
        eapply Work. reflexivity.
      * destruct (Tg k item (or_introl eq_refl)) as (i0 & client & start & pre & _ & R).
        apply sent_item_has_callback in R.
        destruct (finish_returns meterValueServiceKV item R) as [effs F].
        eexists. eapply step_drain; eassumption.
Qed.

(** [Do] returns only when every entry of the batch has a case. *)
Lemma Do_returns_only_matched n s e :
  steps n init s -> st_pc s = Returned e -> forallb has_case ops = true.
Proof.
  intros R E. pose proof (Do_invariant_reachable _ _ R) as I.
  destruct I as (_ & P & _ & _ & _ & Tf & _ & Pc). rewrite E in Pc.
  destruct Pc as (_ & T & W & G & D).
  rewrite T, W, G, D in P. simpl in P. rewrite app_nil_r in P.
  apply forallb_forall. intros item Hin.
  apply In_nth_error in Hin. destruct Hin as [k N].
  assert (In k (map fst (st_finished s))) as K.
  { apply (Permutation_in _ (Permutation_sym P)). apply in_seq.
    split; [lia |]. simpl. apply nth_error_Some. congruence. }
  apply in_map_iff in K. destruct K as ([k' out] & Ek & Hf). simpl in Ek. subst k'.
  destruct (Tf k out Hf) as (item' & client & start & pre & N' & Run).
  rewrite N in N'. inversion N'. subst item'.
  exact (sending_run_has_case _ _ _ _ _ _ _ _ Run).
Qed.

End DoRuns.

Section DoTheorem.

Variable mapPsErrorToGocbError : error -> bool -> error.
Variable psMutToGoCbMut : option PsMutationToken -> option MutationToken.
Variable uint32_of_Seconds : Duration -> Z.
Variable meterValueServiceKV : string.
Variable c : Collection.
Variable ops : list BulkOp.
Variable opts : BulkOpOptions.
Variable now : Time.

Local Abbreviation step :=
  (Do_step mapPsErrorToGocbError psMutToGoCbMut uint32_of_Seconds meterValueServiceKV
     c ops opts now).
Local Abbreviation steps :=
  (Do_steps mapPsErrorToGocbError psMutToGoCbMut uint32_of_Seconds meterValueServiceKV
     c ops opts now).
Local Abbreviation Inv :=
  (Do_invariant mapPsErrorToGocbError psMutToGoCbMut uint32_of_Seconds c ops opts now).

Lemma steps_trans n : forall m s s' s'',
  steps n s s' -> steps m s' s'' -> steps (n + m) s s''.
Proof.
  induction n as [| n IH]; intros m s s' s'' R1 R2; inversion R1; subst; simpl.
  - exact R2.
  - eapply steps_cons; [eassumption |]. eapply IH; eassumption.
Qed.

(** When every entry has a case, the goroutines can be run from any state
    the invariant allows until [Do] returns. *)
Lemma Do_runs_to_return m : forall s,
  forallb has_case ops = true ->
  (moves_left s <= m)%nat -> Inv s ->
  exists n s', steps n s s' /\ exists e, st_pc s' = Returned e.
Proof.
  induction m as [| m IH]; intros s M B I.
  - destruct (Do_progress _ _ _ meterValueServiceKV _ _ _ _ s M I) as [R | [s' St]].
    + exists 0%nat, s. split; [constructor | exact R].
    + apply step_moves_left in St. lia.
  - destruct (Do_progress _ _ _ meterValueServiceKV _ _ _ _ s M I) as [R | [s' St]].
    + exists 0%nat, s. split; [constructor | exact R].
    + pose proof (step_moves_left _ _ _ _ _ _ _ _ _ _ St) as D.
      pose proof (Do_invariant_step _ _ _ _ _ _ _ _ _ _ I St) as I'.
      destruct (IH s') as (n & s'' & R & E); [exact M | lia | exact I' |].
      exists (S n), s''. split; [| exact E]. eapply steps_cons; eassumption.
Qed.

(** C6. For a batch of N entries, [Do] makes the [signal] channel with
    capacity N, and however its goroutines are scheduled and whatever the
    service and the transcoder answer: a run has at most 3N + 2 moves,
    nothing panics, no worker ever finds [signal] full, what [finish] did
    on the items finished so far is in the trace, and the latencies of the
    trace are exactly those [finish] recorded, one for each finished item
    in the order of finishing. When [Do] returns, it returns nil; by then
    it has drained N completions and invoked [finish] on the item of every
    position of the batch once, each item being what its handler made of
    it, with its callback set. When every entry of the batch has a case
    in the worker's type switch (none is nil), the goroutines can be run
    until [Do] returns, and in every state reached [Do] has returned or
    some goroutine can move (no deadlock). An Upsert whose value cannot be
    encoded comes back with that error in its error slot, and nothing else
    of the batch is affected. *)
Theorem Do_drains_all_and_returns_nil :
  st_cap (Do_init c ops opts) = length ops
  /\ (forallb has_case ops = true ->
      (exists n s,
         Do_steps mapPsErrorToGocbError psMutToGoCbMut uint32_of_Seconds
           meterValueServiceKV c ops opts now n (Do_init c ops opts) s
         /\ st_pc s = Returned None)
      /\ forall n s,
           Do_steps mapPsErrorToGocbError psMutToGoCbMut uint32_of_Seconds
             meterValueServiceKV c ops opts now n (Do_init c ops opts) s ->
           (exists e, st_pc s = Returned e)
           \/ exists s',
                Do_step mapPsErrorToGocbError psMutToGoCbMut uint32_of_Seconds
                  meterValueServiceKV c ops opts now s s')
  /\ (forall n s,
        Do_steps mapPsErrorToGocbError psMutToGoCbMut uint32_of_Seconds
          meterValueServiceKV c ops opts now n (Do_init c ops opts) s ->
        (n <= 3 * length ops + 2)%nat
        /\ st_pc s <> Panicked
        /\ (st_workers s <> [] -> (length (st_signal s) < st_cap s)%nat)
        /\ incl (finish_effects meterValueServiceKV (st_finished s)) (st_trace s)
        /\ values_recorded (st_trace s)
           = values_recorded (finish_effects meterValueServiceKV (st_finished s))
        /\ (forall e, st_pc s = Returned e ->
              e = None
              /\ st_tosend s = [] /\ st_workers s = [] /\ st_signal s = []
              /\ length (st_finished s) = length ops
              /\ Permutation (map fst (st_finished s)) (seq 0 (length ops))
              /\ forall k out, In (k, out) (st_finished s) ->
                   handled mapPsErrorToGocbError psMutToGoCbMut uint32_of_Seconds
                     c ops opts now k out
                   /\ exists effs, finish meterValueServiceKV out = Returns effs))
  /\ (forall client start (item : UpsertOp) err,
        Encode (Do_transcoder c opts) (Upsert_Value (fields item)) = inr err ->
        exists pre out,
          worker_handle mapPsErrorToGocbError psMutToGoCbMut uint32_of_Seconds client start
            (chan_struct c ops opts now (IsUpsertOp item))
          = pre ++ [SignalSend out]
          /\ BulkOp_Err out = Some err
          /\ BulkOp_has_Result out = BulkOp_has_Result (IsUpsertOp item)).
Proof.
  split; [reflexivity |]. split; [| split].
  - intros M. split.
    + destruct (Do_runs_to_return (moves_left (Do_init c ops opts)) (Do_init c ops opts))
        as (n & s & R & e & E); [exact M | lia | apply Do_invariant_init |].
      exists n, s. split; [exact R |].
      pose proof (Do_invariant_reachable _ _ _ _ _ _ _ _ _ _ R) as I.
      destruct I as (_ & _ & _ & _ & _ & _ & _ & Pc). rewrite E in Pc.
      destruct Pc as [-> _]. exact E.
    + intros n s R.
      pose proof (Do_invariant_reachable _ _ _ _ _ _ _ _ _ _ R) as I.
      apply (Do_progress _ _ _ meterValueServiceKV _ _ _ _ s M I).
  - intros n s R.
    pose proof (Do_invariant_reachable _ _ _ _ _ _ _ _ _ _ R) as I.
    pose proof (Do_invariant_length _ _ _ _ _ _ _ s I) as Len.
    pose proof (steps_moves_left _ _ _ _ _ _ _ _ _ _ _ R) as M.
    rewrite moves_left_init in M.
    assert (incl (finish_effects meterValueServiceKV (st_finished s)) (st_trace s)
            /\ values_recorded (st_trace s)
               = values_recorded (finish_effects meterValueServiceKV (st_finished s)))
      as [Fin Val].
    { apply (Do_finish_in_trace _ _ _ _ _ _ _ _ _ _ _ R).
      split; [intros x [] | reflexivity]. }
    split; [lia |]. split; [| split; [| split; [exact Fin | split; [exact Val |]]]].
    + destruct I as (_ & _ & _ & _ & _ & _ & _ & Pc). intros E. rewrite E in Pc. exact Pc.
    + destruct I as (Cap & _). intros W. rewrite Cap.
      destruct (st_workers s); [congruence | simpl in Len; lia].
    + intros e E. destruct I as (Cap & P & _ & _ & _ & Tf & _ & Pc).
      rewrite E in Pc. destruct Pc as (-> & T & W & G & D).
      rewrite T, W, G, D in *. simpl in *. rewrite app_nil_r in P.
      do 4 (split; [reflexivity |]). split; [lia |]. split; [exact P |].
      intros k out H. split; [apply Tf; exact H |].
      destruct (Tf k out H) as (i0 & client & start & pre & _ & Run).
      apply sent_item_has_callback in Run.
      apply finish_returns. exact Run.
  - intros client start item err E. unfold worker_handle, chan_struct; simpl.
    unfold Upsert; simpl. rewrite E.
    eexists [_; _; _], _. split; [reflexivity |]. split; reflexivity.
Qed.

End DoTheorem.

(** *** A batch of three Upserts and two Gets, one Upsert failing to encode *)

Ltac split_last l :=
  lazymatch l with
  | [SignalSend ?o] => constr:((@nil effect, o))
  | ?e :: ?r =>
      let p := split_last r in
      lazymatch p with
      | (?pre, ?o) => constr:((e :: pre, o))
      end
  end.

Ltac next_state :=
  cbn [st_pc st_cap st_tosend st_workers st_signal st_finished st_dropped st_trace app
       length].

Ltac push_move :=
  eapply steps_cons;
  [ eapply step_push; [reflexivity | reflexivity | reflexivity] | next_state ].

Ltac worker_move client start :=
  lazymatch goal with
  | |- Do_steps ?m ?p ?u ?mv ?c ?ops ?opts ?now _ ?s _ =>
      let ws := eval cbn in (st_workers s) in
      lazymatch ws with
      | (?k, ?op) :: ?w2 =>
          let l := eval vm_compute in (worker_handle m p u client start op) in
          let po := split_last l in
          lazymatch po with
          | (?pre, ?out) =>
              eapply steps_cons;
              [ eapply (step_worker m p u mv c ops opts now s [] k op w2 client start pre out);
                [ reflexivity | vm_compute; reflexivity | cbn; lia ]
              | next_state ]
          end
      end
  end.

Ltac drain_move :=
  eapply steps_cons;
  [ eapply step_drain; [reflexivity | reflexivity | reflexivity] | next_state ].

Example Do_scenario_partial_failure :
  let ops := [new_UpsertOp "u1" "v1"%string; new_UpsertOp "u2" ""%string; new_GetOp "g1";
              new_UpsertOp "u3" "v3"%string; new_GetOp "g2"] in
  let c := sample_collection 2500000000 in
  exists s,
    Do_steps sample_mapPsError sample_psMutToGoCbMut sample_seconds "kv"
      c ops (sample_options 0) 1000 17 (Do_init c ops (sample_options 0)) s
    /\ st_pc s = Returned None
    /\ map (fun ko => (fst ko, BulkOp_Err (snd ko), BulkOp_has_Result (snd ko)))
         (st_finished s)
       = [(0%nat, None, true);
          (1%nat, Some (ErrorValue "cannot encode"), false);
          (2%nat, None, true);
          (3%nat, None, true);
          (4%nat, None, true)].
Proof.
  intros ops c. eexists. split; [| split].
  - unfold Do_init, indexed, ops. cbn [length seq combine].
    push_move. push_move.
    worker_move (answering_client (ContentUncompressed (list_byte_of_string "doc"))) 1001.
    push_move. push_move. push_move.
    eapply steps_cons; [apply step_pushed_all; reflexivity | next_state].
    worker_move (answering_client (ContentUncompressed (list_byte_of_string "doc"))) 1002.
    worker_move (answering_client (ContentUncompressed (list_byte_of_string "doc"))) 1003.
    worker_move (answering_client (ContentUncompressed (list_byte_of_string "doc"))) 1004.
    worker_move (answering_client (ContentUncompressed (list_byte_of_string "doc"))) 1005.
    drain_move. drain_move. drain_move. drain_move. drain_move.
    eapply steps_cons; [apply step_return; reflexivity | next_state].
    apply steps_nil.
  - reflexivity.
  - reflexivity.
Qed.

(** A batch whose entries all have a case can be run to its return. *)
Lemma Do_drains_all_and_returns_nil_witness :
  let ops := [new_UpsertOp "u1" "v1"%string; new_UpsertOp "u2" ""%string; new_GetOp "g1"] in
  let c := sample_collection 2500000000 in
  forallb has_case ops = true
  /\ exists n s,
       Do_steps sample_mapPsError sample_psMutToGoCbMut sample_seconds "kv"
         c ops (sample_options 0) 1000 n (Do_init c ops (sample_options 0)) s
       /\ st_pc s = Returned None.
Proof.
  intros ops c. split; [reflexivity |].
  destruct (Do_drains_all_and_returns_nil sample_mapPsError sample_psMutToGoCbMut
              sample_seconds "kv" c ops (sample_options 0) 1000) as (_ & H & _).
  exact (proj1 (H eq_refl)).
Defined.

(** A batch of a Get and a nil entry. No run of [Do] returns. In the run
    below both entries are pushed, the Get is handled and finished, and
    the worker that received the nil entry matched no case: [Do] is in
    its second loop with one turn to go, one completion drained out of
    two, no worker busy, [signal] empty, and no goroutine can move. *)
Lemma Do_blocks_on_unmatched_entry :
  let ops := [new_GetOp "g1"; IsUnmatched] in
  let c := sample_collection 2500000000 in
  let opts := sample_options 0 in
  (forall n s e,
     Do_steps sample_mapPsError sample_psMutToGoCbMut sample_seconds "kv"
       c ops opts 1000 n (Do_init c ops opts) s ->
     st_pc s <> Returned e)
  /\ exists s,
       Do_steps sample_mapPsError sample_psMutToGoCbMut sample_seconds "kv"
         c ops opts 1000 6 (Do_init c ops opts) s
       /\ st_pc s = Draining 1
       /\ length (st_finished s) = 1%nat
       /\ st_workers s = []
       /\ st_signal s = []
       /\ forall s',
            ~ Do_step sample_mapPsError sample_psMutToGoCbMut sample_seconds "kv"
                c ops opts 1000 s s'.
Proof.
  intros ops c opts. split.
  - intros n s e R E.
    pose proof (Do_returns_only_matched _ _ _ _ _ _ _ _ _ _ _ R E) as M.
    discriminate M.
  - eexists. split; [| split; [| split; [| split; [| split]]]].
    + unfold Do_init, indexed, ops. cbn [length seq combine].
      push_move. push_move.
      worker_move (failing_client (ErrorValue "unavailable")) 1001.
      eapply steps_cons.
      { eapply (step_worker_no_case _ _ _ _ _ _ _ _ _ [] 1%nat _ []
                  (failing_client (ErrorValue "unavailable")) 1002);
          [reflexivity | reflexivity]. }
      next_state.
      eapply steps_cons; [apply step_pushed_all; reflexivity | next_state].
      drain_move.
      apply steps_nil.
    + reflexivity.
    + reflexivity.
    + reflexivity.
    + reflexivity.
    + intros s' St. inversion St; subst; simpl in *; try discriminate;
        match goal with
        | H : [] = ?w ++ _ :: _ |- _ => destruct w; discriminate H
        end.
Qed.

(** * Further properties *)

(** ** The reason list and the request across retries *)

Import RetryLoopRuns.

Section MoreRetry.

Variable ControlledBackoff : Z -> Duration.

Lemma retry_all_app ds1 : forall ds2 req,
  retry_all ControlledBackoff (ds1 ++ ds2) req
  = match retry_all ControlledBackoff ds1 req with
    | Some r => retry_all ControlledBackoff ds2 r
    | None => None
    end.
Proof.
  induction ds1 as [| [now reason] rest IH]; intros ds2 req; simpl; [reflexivity |].
  destruct (retryOrchMaybeRetry ControlledBackoff now req reason)
    as [[[[|] wake] r] |]; auto.
Qed.

Lemma In_first_seen (r : RetryReason) l :
  In r (rev (nodup RetryReason_eq_dec (rev l))) <-> In r l.
Proof. rewrite <- in_rev, nodup_In, <- in_rev. tauto. Qed.

(** X1. After consecutive retried decisions on a request as created, the
    reason list is the list of recorded reasons with every repetition after
    the first dropped: the reasons in the order they were first seen. *)
Theorem retry_all_reasons_first_seen
    (op : string) (idem : bool) (strat : option RetryStrategy) (uuid6 : string)
    (ds : list (Time * RetryReason)) (req' : retriableRequestPs) :
  retry_all ControlledBackoff ds (newRetriableRequestPS op idem strat uuid6) = Some req' ->
  reasons req' = rev (nodup RetryReason_eq_dec (rev (map snd ds))).
Proof.
  revert req'. induction ds as [| [now reason] ds' IH] using rev_ind; intros req' H.
  - simpl in H. inversion H. reflexivity.
  - rewrite retry_all_app in H.
    destruct (retry_all ControlledBackoff ds' (newRetriableRequestPS op idem strat uuid6))
      as [r1 |] eqn:E1; [| discriminate].
    apply retry_all_cons in H. simpl in H. inversion H. subst req'.
    specialize (IH r1 eq_refl).
    rewrite recordRetryAttempt_reasons, map_app, rev_app_distr. simpl.
    destruct (in_dec RetryReason_eq_dec reason (rev (map snd ds'))) as [I | N].
    + assert (reason_found (reasons r1) reason = true) as F.
      { apply reason_found_In. rewrite IH. apply (proj2 (In_first_seen reason _)).
        apply in_rev. exact I. }
      rewrite F. exact IH.
    + assert (reason_found (reasons r1) reason = false) as F.
      { destruct (reason_found (reasons r1) reason) eqn:F; [| reflexivity].
        exfalso. apply N. apply reason_found_In in F. rewrite IH in F.
        apply (proj1 (In_first_seen reason _)) in F. apply in_rev in F. exact F. }
      rewrite F. simpl. rewrite IH. reflexivity.
Qed.

End MoreRetry.

Lemma retry_all_reasons_first_seen_witness :
  let ds := [(5, sampleAllowsNonIdempotent); (9, sampleAlwaysRetry);
             (12, sampleAllowsNonIdempotent); (13, sampleAlwaysRetry)] in
  let strat := Some (constant_strategy (Some (WithDurationRetryAction 7))) in
  let req' := {| reasons := [sampleAllowsNonIdempotent; sampleAlwaysRetry];
                 attempts := 4; operation := "get"; identifier := "a1b2c3";
                 idempotent := false; strategy := strat |} in
  retry_all sampleBackoff ds (newRetriableRequestPS "get" false strat "a1b2c3") = Some req'
  /\ reasons req' = rev (nodup RetryReason_eq_dec (rev (map snd ds))).
Proof.
  intros ds strat req'. split; [reflexivity |].
  apply (retry_all_reasons_first_seen sampleBackoff "get" false strat "a1b2c3" ds req').
  reflexivity.
Defined.

(** ** The retry loop as a whole *)

Lemma same_request_extended_refl req : same_request_extended req req.
Proof. repeat split. exists []. rewrite app_nil_r. reflexivity. Qed.

Lemma same_request_extended_trans r1 r2 r3 :
  same_request_extended r1 r2 -> same_request_extended r2 r3 ->
  same_request_extended r1 r3.
Proof.
  intros (A1 & A2 & A3 & A4 & s1 & A5) (B1 & B2 & B3 & B4 & s2 & B5).
  repeat split; try congruence.
  exists (s1 ++ s2). rewrite B5, A5, app_assoc. reflexivity.
Qed.

Lemma same_request_extended_record req reason :
  same_request_extended req (recordRetryAttempt req reason).
Proof.
  repeat split. rewrite recordRetryAttempt_reasons.
  destruct (reason_found (reasons req) reason).
  - exists []. rewrite app_nil_r. reflexivity.
  - exists [reason]. reflexivity.
Qed.

(** A timeout error is not the error it wraps. *)
Lemma TimeoutError_wraps (err : error) : forall op id t rs n,
  TimeoutError err op id t rs n <> err.
Proof.
  induction err as [name | inner IH op' id' t' rs' n' | inner IH idem detail];
    intros op id t rs n E; try discriminate E.
  injection E as E _ _ _ _ _. exact (IH _ _ _ _ _ E).
Qed.

Section MoreRetryLoop.

Variable ControlledBackoff : Z -> Duration.
Variable Response : Type.
Variable mapPsErrorToGocbError : error -> bool -> error.
Variable errors_Is_ErrTimeout : error -> bool.
Variable errors_Is_DeadlineExceeded : error -> bool.
Variable makeGenericError : error -> error.
Variable createdTime : Time.
Variable retryReasonFn : error -> option RetryReason.

Local Abbreviation attempt :=
  (handle_attempt ControlledBackoff Response mapPsErrorToGocbError errors_Is_ErrTimeout
     errors_Is_DeadlineExceeded makeGenericError createdTime retryReasonFn).

Local Abbreviation loop :=
  (handleRetriableRequest ControlledBackoff Response mapPsErrorToGocbError
     errors_Is_ErrTimeout errors_Is_DeadlineExceeded makeGenericError createdTime
     retryReasonFn).

(** The ways one turn can go. *)
Lemma handle_attempt_cases e req s :
  attempt e req = Returns s ->
  (exists res, env_send Response e = inl res /\ s = Done Response (inl res) req)
  \/ exists err,
       env_send Response e = inr err /\
       let gocbErr := mapPsErrorToGocbError err (idempotent req) in
       (errors_Is_ErrTimeout gocbErr = true
        /\ s = Done Response
                 (inr (TimeoutError err (operation req) (identifier req)
                         (time_Since (env_end Response e) createdTime)
                         (reasons req) (attempts req))) req)
       \/ (errors_Is_ErrTimeout gocbErr = false
           /\ s = Done Response (inr gocbErr) req
           /\ (retryReasonFn gocbErr = None
               \/ exists reason wake,
                    retryReasonFn gocbErr = Some reason
                    /\ retryOrchMaybeRetry ControlledBackoff (env_now Response e) req reason
                       = Returns (false, wake, req)))
       \/ (errors_Is_ErrTimeout gocbErr = false
           /\ exists reason wake,
                retryReasonFn gocbErr = Some reason
                /\ retryOrchMaybeRetry ControlledBackoff (env_now Response e) req reason
                   = Returns (true, wake, recordRetryAttempt req reason)
                /\ let req' := recordRetryAttempt req reason in
                   (env_wait Response e = TimerFired /\ s = Continue Response req')
                   \/ (exists cerr,
                         env_wait Response e = CtxDone cerr
                         /\ errors_Is_DeadlineExceeded cerr = true
                         /\ s = Done Response
                                  (inr (TimeoutError ErrUnambiguousTimeout
                                          (operation req) (identifier req)
                                          (time_Since (env_end Response e) createdTime)
                                          (reasons req') (attempts req'))) req')
                   \/ (exists cerr,
                         env_wait Response e = CtxDone cerr
                         /\ errors_Is_DeadlineExceeded cerr = false
                         /\ s = Done Response
                                  (inr (makeGenericError ErrRequestCanceled)) req')).
Proof.
  unfold handle_attempt. intros H.
  destruct (env_send Response e) as [res | err] eqn:S.
  - left. exists res. inversion H. auto.
  - right. exists err. split; [reflexivity |]. simpl.
    destruct (errors_Is_ErrTimeout (mapPsErrorToGocbError err (idempotent req))) eqn:T.
    + left. inversion H. auto.
    + right.
      destruct (retryReasonFn (mapPsErrorToGocbError err (idempotent req)))
        as [reason |] eqn:F; [| left; inversion H; auto].
      destruct (retryOrchMaybeRetry ControlledBackoff (env_now Response e) req reason)
        as [[[[|] wake] req'] |] eqn:D; simpl in H; [| | discriminate].
      * right. split; [reflexivity |]. exists reason, wake. split; [reflexivity |].
        pose proof (retried_records _ _ _ _ _ _ D) as ->. split; [exact D |]. simpl.
        destruct (env_wait Response e) as [| cerr] eqn:W.
        -- left. inversion H. auto.
        -- right. destruct (errors_Is_DeadlineExceeded cerr) eqn:X; inversion H;
             [left | right]; exists cerr; auto.
      * left. pose proof (retryOrchMaybeRetry_false_inv _ _ _ _ _ _ D) as [-> _].
        inversion H. split; [reflexivity |]. split; [reflexivity |].
        right. exists reason, wake. split; [reflexivity | exact D].
Qed.

Lemma handle_attempt_keeps e req s :
  attempt e req = Returns s -> same_request_extended req (loop_request s).
Proof.
  intros H. apply handle_attempt_cases in H.
  destruct H as [(res & _ & ->) | (err & _ & H)]; [apply same_request_extended_refl |].
  simpl in H.
  destruct H as [(_ & ->) | [(_ & -> & _) | (_ & reason & wake & _ & _ & H)]];
    try apply same_request_extended_refl.
  destruct H as [(_ & ->) | [(cerr & _ & _ & ->) | (cerr & _ & _ & ->)]];
    apply same_request_extended_record.
Qed.

(** X2. However the loop goes and wherever it stands or ends, the request
    still has the identifier, operation name, idempotency flag and strategy
    it started with, and its reason list is the one it started with,
    extended at the end. *)
Theorem handleRetriableRequest_keeps_request
    (envs : list (attempt_env Response)) (req : retriableRequestPs)
    (s : loop_step Response) :
  handleRetriableRequest ControlledBackoff Response mapPsErrorToGocbError
    errors_Is_ErrTimeout errors_Is_DeadlineExceeded makeGenericError createdTime
    retryReasonFn envs req = Returns s ->
  identifier (loop_request s) = identifier req
  /\ operation (loop_request s) = operation req
  /\ idempotent (loop_request s) = idempotent req
  /\ strategy (loop_request s) = strategy req
  /\ exists suffix, reasons (loop_request s) = reasons req ++ suffix.
Proof.
  revert req. induction envs as [| e rest IH]; intros req H.
  - simpl in H. inversion H. apply same_request_extended_refl.
  - simpl in H. destruct (attempt e req) as [s1 |] eqn:A; [| discriminate].
    apply handle_attempt_keeps in A. simpl in H. destruct s1 as [req1 | res req1].
    + apply IH in H. apply (same_request_extended_trans _ _ _ A H).
    + inversion H. subst s. exact A.
Qed.

(** X3. The loop is still running after a list of turns only if in each of
    them the send failed, a retry was granted and the backoff timer fired
    before the context was done; the attempt counter has then gone up by
    the number of turns, modulo 2^32. *)
Theorem handleRetriableRequest_counts_retries
    (envs : list (attempt_env Response)) (req req' : retriableRequestPs) :
  handleRetriableRequest ControlledBackoff Response mapPsErrorToGocbError
    errors_Is_ErrTimeout errors_Is_DeadlineExceeded makeGenericError createdTime
    retryReasonFn envs req = Returns (Continue Response req') ->
  in_uint32 (attempts req) ->
  attempts req' = wrap_uint32 (attempts req + Z.of_nat (length envs))
  /\ Forall (fun e => (exists err, env_send Response e = inr err)
                      /\ env_wait Response e = TimerFired) envs.
Proof.
  revert req. induction envs as [| e rest IH]; intros req H R.
  - simpl in H. inversion H. subst. split; [| constructor].
    simpl. rewrite Z.add_0_r. symmetry. apply wrap_uint32_small. exact R.
  - simpl in H. destruct (attempt e req) as [s1 |] eqn:A; [| discriminate].
    simpl in H. destruct s1 as [req1 | res req1]; [| discriminate].
    apply handle_attempt_cases in A.
    destruct A as [(res & _ & A) | (err & S & A)]; [discriminate |]. simpl in A.
    destruct A as [(_ & A) | [(_ & A & _) | (_ & reason & wake & _ & _ & A)]];
      try discriminate.
    destruct A as [(W & A) | [(cerr & _ & _ & A) | (cerr & _ & _ & A)]]; try discriminate.
    inversion A. subst req1.
    destruct (IH _ H) as [C F].
    { rewrite recordRetryAttempt_attempts. apply wrap_uint32_range. }
    split.
    + rewrite C, recordRetryAttempt_attempts. unfold wrap_uint32.
      rewrite Zplus_mod_idemp_l. f_equal. simpl length. lia.
    + constructor; [split; [exists err; exact S | exact W] | exact F].
Qed.

(** X4. When the loop ends in failure, the error is of one of four kinds,
    each built from the turn that ended it and the request [req_i] as the
    turns before left it, and each under its own condition. The mapped
    send error is a timeout: the timeout error around the raw send error,
    which is another error than the one it wraps; the request is
    untouched. It is not a timeout, and has no retry reason or the retry
    is declined: the send error as the error mapper maps it for the
    request's idempotency, be that the raw send error itself; the request
    is untouched. The retry is granted and recorded, and the context is
    done before the timer fires: the timeout error around
    [ErrUnambiguousTimeout] when the context's error is a deadline
    exceeded, the generic error of [ErrRequestCanceled] otherwise. *)
Theorem handleRetriableRequest_failure_kinds
    (envs : list (attempt_env Response)) (req req' : retriableRequestPs) (e : error) :
  handleRetriableRequest ControlledBackoff Response mapPsErrorToGocbError
    errors_Is_ErrTimeout errors_Is_DeadlineExceeded makeGenericError createdTime
    retryReasonFn envs req = Returns (Done Response (inr e) req') ->
  exists pre t rest req_i err,
    envs = pre ++ t :: rest
    /\ handleRetriableRequest ControlledBackoff Response mapPsErrorToGocbError
         errors_Is_ErrTimeout errors_Is_DeadlineExceeded makeGenericError createdTime
         retryReasonFn pre req = Returns (Continue Response req_i)
    /\ env_send Response t = inr err
    /\ ((errors_Is_ErrTimeout (mapPsErrorToGocbError err (idempotent req_i)) = true
         /\ e = TimeoutError err (operation req_i) (identifier req_i)
                  (time_Since (env_end Response t) createdTime)
                  (reasons req_i) (attempts req_i)
         /\ e <> err
         /\ req' = req_i)
        \/ (errors_Is_ErrTimeout (mapPsErrorToGocbError err (idempotent req_i)) = false
            /\ e = mapPsErrorToGocbError err (idempotent req_i)
            /\ req' = req_i
            /\ (retryReasonFn e = None
                \/ exists reason wake,
                     retryReasonFn e = Some reason
                     /\ retryOrchMaybeRetry ControlledBackoff (env_now Response t) req_i
                          reason = Returns (false, wake, req_i)))
        \/ (errors_Is_ErrTimeout (mapPsErrorToGocbError err (idempotent req_i)) = false
            /\ exists reason wake cerr,
                 retryReasonFn (mapPsErrorToGocbError err (idempotent req_i)) = Some reason
                 /\ retryOrchMaybeRetry ControlledBackoff (env_now Response t) req_i reason
                    = Returns (true, wake, req')
                 /\ req' = recordRetryAttempt req_i reason
                 /\ env_wait Response t = CtxDone cerr
                 /\ ((errors_Is_DeadlineExceeded cerr = true
                      /\ e = TimeoutError ErrUnambiguousTimeout (operation req_i)
                               (identifier req_i)
                               (time_Since (env_end Response t) createdTime)
                               (reasons req') (attempts req'))
                     \/ (errors_Is_DeadlineExceeded cerr = false
                         /\ e = makeGenericError ErrRequestCanceled)))).
Proof.
  revert req. induction envs as [| t rest IH]; intros req H.
  - simpl in H. discriminate.
  - simpl in H. destruct (attempt t req) as [s1 |] eqn:A; [| discriminate].
    simpl in H. destruct s1 as [req1 | res req1].
    + destruct (IH _ H) as (pre & t' & rest' & req_i & err & -> & P & S & K).
      exists (t :: pre), t', rest', req_i, err.
      split; [reflexivity |]. split; [| split; assumption].
      simpl. rewrite A. simpl. exact P.
    + inversion H. subst res req1. clear H.
      apply handle_attempt_cases in A.
      destruct A as [(res & _ & A) | (err & S & A)]; [discriminate |]. simpl in A.
      exists [], t, rest, req, err.
      split; [reflexivity |]. split; [reflexivity |]. split; [exact S |].
      destruct A as [(T & A) | [(T & A & K) | (T & reason & wake & F & D & A)]].
      * inversion A. left. split; [exact T |]. split; [reflexivity |].
        split; [apply TimeoutError_wraps | reflexivity].
      * inversion A. right. left. split; [exact T |]. split; [reflexivity |].
        split; [reflexivity | exact K].
      * right. right. split; [exact T |].
        destruct A as [(_ & A) | [(cerr & W & X & A) | (cerr & W & X & A)]];
          inversion A; exists reason, wake, cerr;
          (split; [exact F |]); (split; [exact D |]); (split; [reflexivity |]);
          (split; [exact W |]).
        -- left. split; [exact X | reflexivity].
        -- right. split; [exact X | reflexivity].
Qed.

(** X5. A send that succeeds ends the loop at once: after any number of
    retried turns, the value of the first successful send is returned, the
    request is as the retried turns left it, and the turns after it play no
    part. Conversely a value the loop returns is the value of one of the
    sends. *)
Theorem handleRetriableRequest_success
    (pre : list (attempt_env Response)) (t : attempt_env Response)
    (rest : list (attempt_env Response)) (req req_i : retriableRequestPs)
    (res : Response) :
  handleRetriableRequest ControlledBackoff Response mapPsErrorToGocbError
    errors_Is_ErrTimeout errors_Is_DeadlineExceeded makeGenericError createdTime
    retryReasonFn pre req = Returns (Continue Response req_i) ->
  env_send Response t = inl res ->
  handleRetriableRequest ControlledBackoff Response mapPsErrorToGocbError
    errors_Is_ErrTimeout errors_Is_DeadlineExceeded makeGenericError createdTime
    retryReasonFn (pre ++ t :: rest) req = Returns (Done Response (inl res) req_i)
  /\ forall envs res' req',
       handleRetriableRequest ControlledBackoff Response mapPsErrorToGocbError
         errors_Is_ErrTimeout errors_Is_DeadlineExceeded makeGenericError createdTime
         retryReasonFn envs req = Returns (Done Response (inl res') req') ->
       exists t', In t' envs /\ env_send Response t' = inl res'.
Proof.
  intros P S. split.
  - rewrite (handleRetriableRequest_app _ _ _ _ _ _ _ _ pre (t :: rest) req req_i P).
    apply handleRetriableRequest_last. apply handle_attempt_success. exact S.
  - clear. intros envs. revert req. induction envs as [| e more IH]; intros req res' req' H.
    + simpl in H. discriminate.
    + simpl in H. destruct (attempt e req) as [s1 |] eqn:A; [| discriminate].
      simpl in H. destruct s1 as [req1 | r1 req1].
      * destruct (IH _ _ _ H) as (t' & I & S). exists t'. split; [right |]; assumption.
      * inversion H. subst r1 req1.
        apply handle_attempt_cases in A.
        destruct A as [(r & S & A) | (err & S & A)].
        -- inversion A. subst r. exists e. split; [left; reflexivity | exact S].
        -- simpl in A.
           destruct A as [(_ & A) | [(_ & A & _) | (_ & reason & wake & _ & _ & A)]];
             try discriminate.
           destruct A as [(_ & A) | [(cerr & _ & _ & A) | (cerr & _ & _ & A)]];
             discriminate.
Qed.

End MoreRetryLoop.

(** A request that fails twice with a retry granted and then gets its
    answer. *)
Lemma handleRetriableRequest_keeps_request_witness :
  let envs := [sample_turn "unavailable" TimerFired 200;
               sample_turn "unavailable" TimerFired 300;
               sample_turn "locked" TimerFired 400] in
  let s := Done Z (inr (sample_mapPsError (ErrorValue "locked") false))
             {| reasons := [sampleAllowsNonIdempotent]; attempts := 2;
                operation := "get"; identifier := "a1b2c3"; idempotent := false;
                strategy := strategy sampleBestEffortRequest |} in
  handleRetriableRequest sampleBackoff Z sample_mapPsError sample_isTimeout
    sample_isDeadlineExceeded sample_makeGenericError 100 sample_retryReasonFn
    envs sampleBestEffortRequest = Returns s
  /\ (identifier (loop_request s) = identifier sampleBestEffortRequest
      /\ operation (loop_request s) = operation sampleBestEffortRequest
      /\ idempotent (loop_request s) = idempotent sampleBestEffortRequest
      /\ strategy (loop_request s) = strategy sampleBestEffortRequest
      /\ exists suffix,
           reasons (loop_request s) = reasons sampleBestEffortRequest ++ suffix).
Proof.
  intros envs s. split; [reflexivity |].
  apply (handleRetriableRequest_keeps_request sampleBackoff Z sample_mapPsError
           sample_isTimeout sample_isDeadlineExceeded sample_makeGenericError 100
           sample_retryReasonFn envs sampleBestEffortRequest s).
  reflexivity.
Defined.

(** Two retried turns. *)
Lemma handleRetriableRequest_counts_retries_witness :
  let envs := [sample_turn "unavailable" TimerFired 200;
               sample_turn "unavailable" TimerFired 300] in
  let req' := {| reasons := [sampleAllowsNonIdempotent]; attempts := 2;
                 operation := "get"; identifier := "a1b2c3"; idempotent := false;
                 strategy := strategy sampleBestEffortRequest |} in
  handleRetriableRequest sampleBackoff Z sample_mapPsError sample_isTimeout
    sample_isDeadlineExceeded sample_makeGenericError 100 sample_retryReasonFn
    envs sampleBestEffortRequest = Returns (Continue Z req')
  /\ in_uint32 (attempts sampleBestEffortRequest)
  /\ attempts req' = wrap_uint32 (attempts sampleBestEffortRequest + Z.of_nat (length envs)).
Proof.
  intros envs req'. split; [reflexivity |].
  assert (in_uint32 (attempts sampleBestEffortRequest)) as R.
  { unfold in_uint32. simpl. lia. }
  split; [exact R |].
  apply (handleRetriableRequest_counts_retries sampleBackoff Z sample_mapPsError
           sample_isTimeout sample_isDeadlineExceeded sample_makeGenericError 100
           sample_retryReasonFn envs sampleBestEffortRequest req' eq_refl R).
Defined.

(** A retried turn, then a failure for a reason the strategy declines. *)
Lemma handleRetriableRequest_failure_kinds_witness :
  let envs := [sample_turn "unavailable" TimerFired 200;
               sample_turn "locked" TimerFired 300] in
  let req' := recordRetryAttempt sampleBestEffortRequest sampleAllowsNonIdempotent in
  let e := sample_mapPsError (ErrorValue "locked") false in
  handleRetriableRequest sampleBackoff Z sample_mapPsError sample_isTimeout
    sample_isDeadlineExceeded sample_makeGenericError 100 sample_retryReasonFn
    envs sampleBestEffortRequest = Returns (Done Z (inr e) req')
  /\ exists pre t rest req_i err,
       envs = pre ++ t :: rest
       /\ handleRetriableRequest sampleBackoff Z sample_mapPsError sample_isTimeout
            sample_isDeadlineExceeded sample_makeGenericError 100 sample_retryReasonFn
            pre sampleBestEffortRequest = Returns (Continue Z req_i)
       /\ env_send Z t = inr err.
Proof.
  intros envs req' e. split; [reflexivity |].
  destruct (handleRetriableRequest_failure_kinds sampleBackoff Z sample_mapPsError
              sample_isTimeout sample_isDeadlineExceeded sample_makeGenericError 100
              sample_retryReasonFn envs sampleBestEffortRequest req' e eq_refl)
    as (pre & t & rest & req_i & err & E & P & S & _).
  exists pre, t, rest, req_i, err. auto.
Defined.

(** A retried turn, then an answer; a third turn is never played. *)
Lemma handleRetriableRequest_success_witness :
  let run :=
    handleRetriableRequest sampleBackoff Z sample_mapPsError sample_isTimeout
      sample_isDeadlineExceeded sample_makeGenericError 100 sample_retryReasonFn in
  let turn1 := sample_turn "unavailable" TimerFired 200 in
  let turn2 := {| env_send := inl 42; env_now := 300; env_wait := TimerFired;
                  env_end := 301 |} in
  let turn3 := sample_turn "locked" TimerFired 400 in
  let req_1 := recordRetryAttempt sampleBestEffortRequest sampleAllowsNonIdempotent in
  run [turn1] sampleBestEffortRequest = Returns (Continue Z req_1)
  /\ env_send Z turn2 = inl 42
  /\ run ([turn1] ++ turn2 :: [turn3]) sampleBestEffortRequest
     = Returns (Done Z (inl 42) req_1).
Proof.
  intros run turn1 turn2 turn3 req_1.
  split; [reflexivity | split; [reflexivity |]].
  apply (handleRetriableRequest_success sampleBackoff Z sample_mapPsError sample_isTimeout
           sample_isDeadlineExceeded sample_makeGenericError 100 sample_retryReasonFn
           [turn1] turn2 [turn3] sampleBestEffortRequest req_1 42 eq_refl eq_refl).
Defined.

(** ** The decision under the best-effort strategy *)

Section BestEffortDecision.

Variable ControlledBackoff : Z -> Duration.
Variable defaultBackoff : BackoffCalculator.

(** X6. For a request whose strategy is the one
    [NewBestEffortRetryStrategy(calculator)] returns, [retryOrchMaybeRetry]
    never panics and decides as follows, with the given calculator or, when
    that is nil, the default one: a reason that is always retried is
    retried after the controlled backoff; any other reason is retried, after
    the calculator's duration for the attempt count, exactly when the
    request is idempotent or the reason allows non-idempotent retry, and
    that duration is not zero. *)
Theorem retryOrchMaybeRetry_best_effort
    (calculator : option BackoffCalculator)
    (now : Time) (req : retriableRequestPs) (reason : RetryReason) :
  strategy req = best_effort defaultBackoff calculator ->
  retryOrchMaybeRetry ControlledBackoff now req reason
  = if AlwaysRetry reason then
      Returns (true, Time_Add now (ControlledBackoff (attempts req)),
               recordRetryAttempt req reason)
    else if (idempotent req || AllowsNonIdempotentRetry reason)
            && negb (effective_calculator defaultBackoff calculator (attempts req) =? 0)
    then
      Returns (true,
               Time_Add now (effective_calculator defaultBackoff calculator (attempts req)),
               recordRetryAttempt req reason)
    else Returns (false, zeroTime, req).
Proof.
  intros S. unfold retryOrchMaybeRetry. rewrite S.
  destruct (AlwaysRetry reason); [reflexivity |].
  unfold best_effort, BestEffort_as_strategy, BestEffort_RetryAfter. simpl.
  destruct (idempotent req || AllowsNonIdempotentRetry reason); simpl; [| reflexivity].
  destruct calculator as [calc |]; simpl;
    match goal with
    | |- context [?d =? 0] => destruct (d =? 0)
    end; reflexivity.
Qed.

End BestEffortDecision.

Lemma retryOrchMaybeRetry_best_effort_witness :
  strategy sampleBestEffortRequest = best_effort sampleBackoff None
  /\ retryOrchMaybeRetry sampleBackoff 5 sampleBestEffortRequest sampleAllowsNonIdempotent
     = Returns (true, 1000005,
                recordRetryAttempt sampleBestEffortRequest sampleAllowsNonIdempotent)
  /\ retryOrchMaybeRetry sampleBackoff 5 sampleBestEffortRequest sampleIdempotentOnly
     = Returns (false, zeroTime, sampleBestEffortRequest).
Proof.
  split; [reflexivity |]. split.
  - rewrite (retryOrchMaybeRetry_best_effort sampleBackoff sampleBackoff None 5
               sampleBestEffortRequest sampleAllowsNonIdempotent eq_refl).
    reflexivity.
  - rewrite (retryOrchMaybeRetry_best_effort sampleBackoff sampleBackoff None 5
               sampleBestEffortRequest sampleIdempotentOnly eq_refl).
    reflexivity.
Defined.

Section LoopNeverPanics.

Variable ControlledBackoff : Z -> Duration.
Variable defaultBackoff : BackoffCalculator.
Variable Response : Type.
Variable mapPsErrorToGocbError : error -> bool -> error.
Variable errors_Is_ErrTimeout : error -> bool.
Variable errors_Is_DeadlineExceeded : error -> bool.
Variable makeGenericError : error -> error.
Variable createdTime : Time.
Variable retryReasonFn : error -> option RetryReason.

Lemma retryOrchMaybeRetry_returns calculator now req reason :
  strategy req = None \/ strategy req = best_effort defaultBackoff calculator ->
  exists r, retryOrchMaybeRetry ControlledBackoff now req reason = Returns r.
Proof.
  intros [S | S]; unfold retryOrchMaybeRetry; rewrite S;
    destruct (AlwaysRetry reason); eauto.
  unfold best_effort, BestEffort_as_strategy, BestEffort_RetryAfter. simpl.
  destruct (idempotent req || AllowsNonIdempotentRetry reason); simpl; [| eauto].
  destruct calculator as [calc |]; simpl;
    match goal with
    | |- context [?d =? 0] => destruct (d =? 0)
    end; eauto.
Qed.

Lemma handle_attempt_returns calculator e req :
  strategy req = None \/ strategy req = best_effort defaultBackoff calculator ->
  exists s,
    handle_attempt ControlledBackoff Response mapPsErrorToGocbError errors_Is_ErrTimeout
      errors_Is_DeadlineExceeded makeGenericError createdTime retryReasonFn e req
    = Returns s.
Proof.
  intros S. unfold handle_attempt.
  destruct (env_send Response e) as [res | err]; [eauto |].
  destruct (errors_Is_ErrTimeout _); [eauto |].
  destruct (retryReasonFn _) as [reason |]; [| eauto].
  destruct (retryOrchMaybeRetry_returns calculator (env_now Response e) req reason S)
    as [[[b wake] req'] ->].
  simpl. destruct b; simpl; [| eauto].
  destruct (env_wait Response e) as [| cerr]; [eauto |].
  destruct (errors_Is_DeadlineExceeded cerr); eauto.
Qed.

(** X7. With no strategy, or with the strategy
    [NewBestEffortRetryStrategy] returns (whatever calculator it is given,
    nil included), the loop never panics: against any turns of the
    environment it has returned or is still running. *)
Theorem handleRetriableRequest_never_panics
    (calculator : option BackoffCalculator)
    (envs : list (attempt_env Response)) (req : retriableRequestPs) :
  strategy req = None \/ strategy req = best_effort defaultBackoff calculator ->
  exists s,
    handleRetriableRequest ControlledBackoff Response mapPsErrorToGocbError
      errors_Is_ErrTimeout errors_Is_DeadlineExceeded makeGenericError createdTime
      retryReasonFn envs req = Returns s.
Proof.
  revert req. induction envs as [| e rest IH]; intros req S; simpl; [eauto |].
  destruct (handle_attempt_returns calculator e req S) as [s1 A]. rewrite A. simpl.
  destruct s1 as [req1 | res req1]; [| eauto].
  apply IH. apply handle_attempt_keeps in A. destruct A as (_ & _ & _ & St & _).
  simpl in St. rewrite St. exact S.
Qed.

End LoopNeverPanics.

(** A strategy built by hand around a nil calculator does panic, as soon as
    it is asked about a request it would retry. *)
Example nil_calculator_panics :
  retryOrchMaybeRetry sampleBackoff 5
    (sampleRequest true (Some (BestEffort_as_strategy {| BE_BackoffCalculator := None |})))
    sampleIdempotentOnly
  = Panics.
Proof. reflexivity. Qed.

Lemma handleRetriableRequest_never_panics_witness :
  (strategy sampleBestEffortRequest = None
   \/ strategy sampleBestEffortRequest = best_effort sampleBackoff None)
  /\ exists s,
       handleRetriableRequest sampleBackoff Z sample_mapPsError sample_isTimeout
         sample_isDeadlineExceeded sample_makeGenericError 100 sample_retryReasonFn
         [sample_turn "unavailable" TimerFired 200] sampleBestEffortRequest = Returns s.
Proof.
  assert (strategy sampleBestEffortRequest = None
          \/ strategy sampleBestEffortRequest = best_effort sampleBackoff None) as S
    by (right; reflexivity).
  split; [exact S |].
  apply (handleRetriableRequest_never_panics sampleBackoff sampleBackoff Z sample_mapPsError
           sample_isTimeout sample_isDeadlineExceeded sample_makeGenericError 100
           sample_retryReasonFn None [sample_turn "unavailable" TimerFired 200]
           sampleBestEffortRequest S).
Defined.

(** ** The handlers of the bulk provider *)

Section MoreHandlers.

Variable mapPsErrorToGocbError : error -> bool -> error.
Variable psMutToGoCbMut : option PsMutationToken -> option MutationToken.
Variable uint32_of_Seconds : Duration -> Z.
Variable meterValueServiceKV : string.

Local Abbreviation handle :=
  (worker_handle mapPsErrorToGocbError psMutToGoCbMut uint32_of_Seconds).

Ltac one_slot :=
  eexists; split; [reflexivity |]; split; [reflexivity |];
  first [ left; eexists; split; reflexivity
        | right; eexists; split; reflexivity ].

(** The same fact in the form the runs of [Do] use. *)
Lemma worker_handle_slots client start op :
  has_case (cs_i op) = true ->
  exists out,
    signalled (handle client start op) = [out]
    /\ inputs_of out = inputs_of (cs_i op)
    /\ ((exists e, BulkOp_Err out = Some e
                   /\ BulkOp_Result out = BulkOp_Result (cs_i op))
        \/ (exists r, BulkOp_Result out = Some r
                      /\ BulkOp_Err out = BulkOp_Err (cs_i op))).
Proof.
  unfold worker_handle.
  destruct (cs_i op) as [i | i | i | i | i | i | i | i | i | i | i |]; intros M;
    [| | | | | | | | | | | discriminate M].
  - unfold Get. destruct (client_Get _ _ _) as [res | err]; [| one_slot].
    destruct (get_Content res); simpl; one_slot.
  - unfold GetAndTouch. destruct (client_GetAndTouch _ _ _) as [res | err]; [| one_slot].
    destruct (gat_Content res); simpl; one_slot.
  - unfold Touch. destruct (client_Touch _ _ _); one_slot.
  - unfold Remove. destruct (client_Remove _ _ _); one_slot.
  - unfold Upsert. destruct (Encode _ _) as [[b f] | err]; [| one_slot].
    destruct (client_Upsert _ _ _); one_slot.
  - unfold Insert. destruct (Encode _ _) as [[b f] | err]; [| one_slot].
    destruct (client_Insert _ _ _); one_slot.
  - unfold Replace. destruct (Encode _ _) as [[b f] | err]; [| one_slot].
    destruct (client_Replace _ _ _); one_slot.
  - unfold Append. destruct (client_Append _ _ _); one_slot.
  - unfold Prepend. destruct (client_Prepend _ _ _); one_slot.
  - unfold Increment. destruct (client_Increment _ _ _); one_slot.
  - unfold Decrement. destruct (client_Decrement _ _ _); one_slot.
Qed.

(** X8. A handler sends exactly one item: the operation it was given with
    its inputs as they were, and with exactly one of the two slots
    written. When it fails, the error slot is set and the result slot is
    as it was; when it succeeds, the result slot is set and the error
    slot is as it was (an error left from an earlier use is not
    cleared). This holds of every value the worker's type switch has a
    case for, that is, whenever a handler runs; for any other value the
    worker does nothing: no span, no call, no send. *)
Theorem handler_writes_one_slot
    (client : KvServiceClient) (start : Time) (op : bulkOpChanStruct) :
  (has_case (cs_i op) = true ->
   exists out,
     signalled (worker_handle mapPsErrorToGocbError psMutToGoCbMut uint32_of_Seconds
                  client start op) = [out]
     /\ inputs_of out = inputs_of (cs_i op)
     /\ ((exists e, BulkOp_Err out = Some e
                    /\ BulkOp_Result out = BulkOp_Result (cs_i op))
         \/ (exists r, BulkOp_Result out = Some r
                       /\ BulkOp_Err out = BulkOp_Err (cs_i op))))
  /\ (has_case (cs_i op) = false ->
      worker_handle mapPsErrorToGocbError psMutToGoCbMut uint32_of_Seconds client start op
      = []).
Proof.
  unfold worker_handle.
  destruct (cs_i op) as [i | i | i | i | i | i | i | i | i | i | i |];
    (split; intros M; [| reflexivity || discriminate M]);
    [| | | | | | | | | | | discriminate M].
  - unfold Get. destruct (client_Get _ _ _) as [res | err]; [| one_slot].
    destruct (get_Content res); simpl; one_slot.
  - unfold GetAndTouch. destruct (client_GetAndTouch _ _ _) as [res | err]; [| one_slot].
    destruct (gat_Content res); simpl; one_slot.
  - unfold Touch. destruct (client_Touch _ _ _); one_slot.
  - unfold Remove. destruct (client_Remove _ _ _); one_slot.
  - unfold Upsert. destruct (Encode _ _) as [[b f] | err]; [| one_slot].
    destruct (client_Upsert _ _ _); one_slot.
  - unfold Insert. destruct (Encode _ _) as [[b f] | err]; [| one_slot].
    destruct (client_Insert _ _ _); one_slot.
  - unfold Replace. destruct (Encode _ _) as [[b f] | err]; [| one_slot].
    destruct (client_Replace _ _ _); one_slot.
  - unfold Append. destruct (client_Append _ _ _); one_slot.
  - unfold Prepend. destruct (client_Prepend _ _ _); one_slot.
  - unfold Increment. destruct (client_Increment _ _ _); one_slot.
  - unfold Decrement. destruct (client_Decrement _ _ _); one_slot.
Qed.

Ltac callback :=
  eexists; eexists; split; [reflexivity |]; split; [reflexivity |];
  repeat split.

Lemma worker_handle_callback client start op :
  has_case (cs_i op) = true ->
  exists out f,
    signalled (handle client start op) = [out]
    /\ BulkOp_finishFn out = Some f
    /\ hd_error (handle client start op) = Some (StartSpan (fc_span f))
    /\ span_name (fc_span f) = operation_name (kind_of (cs_i op))
    /\ span_parent (fc_span f) = cs_spanContext op
    /\ span_noAttributes (fc_span f) = false
    /\ fc_operation f = operation_name (kind_of (cs_i op))
    /\ fc_start f = start.
Proof.
  unfold worker_handle.
  destruct (cs_i op) as [i | i | i | i | i | i | i | i | i | i | i |]; intros M;
    [| | | | | | | | | | | discriminate M].
  - unfold Get. destruct (client_Get _ _ _) as [res | err]; [| callback].
    destruct (get_Content res); simpl; callback.
  - unfold GetAndTouch. destruct (client_GetAndTouch _ _ _) as [res | err]; [| callback].
    destruct (gat_Content res); simpl; callback.
  - unfold Touch. destruct (client_Touch _ _ _); callback.
  - unfold Remove. destruct (client_Remove _ _ _); callback.
  - unfold Upsert. destruct (Encode _ _) as [[b f] | err]; [| callback].
    destruct (client_Upsert _ _ _); callback.
  - unfold Insert. destruct (Encode _ _) as [[b f] | err]; [| callback].
    destruct (client_Insert _ _ _); callback.
  - unfold Replace. destruct (Encode _ _) as [[b f] | err]; [| callback].
    destruct (client_Replace _ _ _); callback.
  - unfold Append. destruct (client_Append _ _ _); callback.
  - unfold Prepend. destruct (client_Prepend _ _ _); callback.
  - unfold Increment. destruct (client_Increment _ _ _); callback.
  - unfold Decrement. destruct (client_Decrement _ _ _); callback.
Qed.

(** X9. The item a handler sends carries a completion callback that
    belongs to that run: the first thing the handler does is start a span
    named after the operation's kind under the batch's span context, and
    invoking [finish] on the item ends that very span and records the
    latency under the same name, measured from the handler's start
    time. This holds of every value the worker's type switch has a case
    for, that is, whenever a handler runs. *)
Theorem handler_callback_closes_its_span
    (client : KvServiceClient) (start : Time) (op : bulkOpChanStruct) :
  has_case (cs_i op) = true ->
  exists out span,
    signalled (worker_handle mapPsErrorToGocbError psMutToGoCbMut uint32_of_Seconds
                 client start op) = [out]
    /\ hd_error (worker_handle mapPsErrorToGocbError psMutToGoCbMut uint32_of_Seconds
                   client start op) = Some (StartSpan span)
    /\ span = {| span_name := operation_name (kind_of (cs_i op));
                 span_parent := cs_spanContext op;
                 span_noAttributes := false |}
    /\ finish meterValueServiceKV out
       = Returns [EndSpan span;
                  ValueRecord meterValueServiceKV (operation_name (kind_of (cs_i op)))
                    start].
Proof.
  intros M. destruct (worker_handle_callback client start op M)
    as (out & f & S & F & H & N & P & A & O & T).
  exists out, (fc_span f). split; [exact S |]. split; [exact H |]. split.
  - destruct (fc_span f) as [n p a]. simpl in N, P, A. subst. reflexivity.
  - unfold finish. rewrite F, O, T. reflexivity.
Qed.

(** X10. When the transcoder refuses the value of an Upsert, Insert or
    Replace, the handler does not call the service: what it does is the
    same for every client. The one item it sends has the transcoder's
    error in its error slot, as the transcoder returned it and not as the
    error mapper would map it, and its result slot is as it was. *)
Theorem encode_failure_skips_the_call
    (start : Time) (op : bulkOpChanStruct) (err : error) :
  encode_error (cs_transcoder op) (cs_i op) = Some err ->
  (forall client client',
     worker_handle mapPsErrorToGocbError psMutToGoCbMut uint32_of_Seconds client start op
     = worker_handle mapPsErrorToGocbError psMutToGoCbMut uint32_of_Seconds client' start op)
  /\ forall client,
       exists out,
         signalled (worker_handle mapPsErrorToGocbError psMutToGoCbMut uint32_of_Seconds
                      client start op) = [out]
         /\ BulkOp_Err out = Some err
         /\ BulkOp_Result out = BulkOp_Result (cs_i op).
Proof.
  unfold worker_handle, encode_error.
  destruct (cs_i op) as [i | i | i | i | i | i | i | i | i | i | i |]; try discriminate.
  - unfold Upsert. destruct (Encode _ _) as [[b f] | e]; [discriminate |].
    intros E. inversion E. subst. split; [reflexivity |].
    intros client. eexists. repeat split.
  - unfold Insert. destruct (Encode _ _) as [[b f] | e]; [discriminate |].
    intros E. inversion E. subst. split; [reflexivity |].
    intros client. eexists. repeat split.
  - unfold Replace. destruct (Encode _ _) as [[b f] | e]; [discriminate |].
    intros E. inversion E. subst. split; [reflexivity |].
    intros client. eexists. repeat split.
Qed.

(** X11. A successful Increment or Decrement reports the counter value of
    the response converted to an unsigned 64-bit number: the reported
    content always lies in the range of [uint64], it is the response's
    content when that is not negative, and a negative content comes out as
    that content plus 2^64. The CAS is the response's. *)
Theorem counter_content_is_unsigned
    (client : KvServiceClient) (ctx : Context) (start : Time)
    (tracectx : RequestSpanContext) (c : Collection) (res : CounterResponse) :
  in_int64 (cnt_Content res) ->
  let content := cr_content (counter_result psMutToGoCbMut res) in
  (0 <= content < 2 ^ 64
   /\ (0 <= cnt_Content res -> content = cnt_Content res)
   /\ (cnt_Content res < 0 -> content = cnt_Content res + 2 ^ 64))
  /\ (forall item : IncrementOp,
        (forall r, client_Increment client ctx r = inl res) ->
        signalled (Increment mapPsErrorToGocbError psMutToGoCbMut uint32_of_Seconds
                     client ctx start item tracectx c)
        = [IsIncrementOp
             (set_Result
                (set_finishFn item
                   (mkFinish (startKvOpTrace c "increment" tracectx false) "increment" start))
                {| cr_mt := psMutToGoCbMut (cnt_MutationToken res);
                   cr_cas := cnt_Cas res; cr_content := content |})])
  /\ (forall item : DecrementOp,
        (forall r, client_Decrement client ctx r = inl res) ->
        signalled (Decrement mapPsErrorToGocbError psMutToGoCbMut uint32_of_Seconds
                     client ctx start item tracectx c)
        = [IsDecrementOp
             (set_Result
                (set_finishFn item
                   (mkFinish (startKvOpTrace c "decrement" tracectx false) "decrement" start))
                {| cr_mt := psMutToGoCbMut (cnt_MutationToken res);
                   cr_cas := cnt_Cas res; cr_content := content |})]).
Proof.
  intros R content. split; [| split].
  - unfold content, counter_result, wrap_uint64. cbn [cr_content]. unfold in_int64 in R.
    split; [apply Z.mod_pos_bound; lia |]. split; intros H.
    + apply Z.mod_small. lia.
    + rewrite <- (Z_mod_plus_full (cnt_Content res) 1 (2 ^ 64)).
      rewrite Z.mul_1_l. apply Z.mod_small. lia.
  - intros item H. unfold Increment. rewrite H. reflexivity.
  - intros item H. unfold Decrement. rewrite H. reflexivity.
Qed.

End MoreHandlers.

(** A Get against a service that is unavailable. *)
Lemma handler_writes_one_slot_witness :
  let op := mkChanStruct context_Background (new_GetOp "g") [] (sample_collection 2500000000)
              sample_transcoder in
  let client := failing_client (ErrorValue "unavailable") in
  has_case (cs_i op) = true
  /\ exists out,
       signalled (worker_handle sample_mapPsError sample_psMutToGoCbMut sample_seconds
                    client 10 op) = [out]
       /\ inputs_of out = inputs_of (cs_i op)
       /\ ((exists e, BulkOp_Err out = Some e
                      /\ BulkOp_Result out = BulkOp_Result (cs_i op))
           \/ (exists r, BulkOp_Result out = Some r
                         /\ BulkOp_Err out = BulkOp_Err (cs_i op))).
Proof.
  intros op client. split; [reflexivity |].
  exact (proj1 (handler_writes_one_slot sample_mapPsError sample_psMutToGoCbMut
                  sample_seconds client 10 op) eq_refl).
Defined.

(** An Upsert that is stored. *)
Lemma handler_callback_closes_its_span_witness :
  let op := mkChanStruct context_Background (new_UpsertOp "u" "v"%string) ["bulk"%string]
              (sample_collection 2500000000) sample_transcoder in
  let client := answering_client ContentUnset in
  has_case (cs_i op) = true
  /\ exists out span,
       signalled (worker_handle sample_mapPsError sample_psMutToGoCbMut sample_seconds
                    client 10 op) = [out]
       /\ hd_error (worker_handle sample_mapPsError sample_psMutToGoCbMut sample_seconds
                      client 10 op) = Some (StartSpan span)
       /\ span = {| span_name := "upsert"; span_parent := ["bulk"%string];
                    span_noAttributes := false |}
       /\ finish "kv" out = Returns [EndSpan span; ValueRecord "kv" "upsert" 10].
Proof.
  intros op client. split; [reflexivity |].
  exact (handler_callback_closes_its_span sample_mapPsError sample_psMutToGoCbMut
           sample_seconds "kv" client 10 op eq_refl).
Defined.

(** A refused Upsert under a service that would have answered. *)
Lemma encode_failure_skips_the_call_witness :
  let op := mkChanStruct context_Background (new_UpsertOp "u" ""%string) []
              (sample_collection 2500000000) sample_transcoder in
  encode_error (cs_transcoder op) (cs_i op) = Some (ErrorValue "cannot encode")
  /\ worker_handle sample_mapPsError sample_psMutToGoCbMut sample_seconds
       (answering_client ContentUnset) 10 op
     = worker_handle sample_mapPsError sample_psMutToGoCbMut sample_seconds
         (failing_client ErrRequestCanceled) 10 op.
Proof.
  intros op. split; [reflexivity |].
  destruct (encode_failure_skips_the_call sample_mapPsError sample_psMutToGoCbMut
              sample_seconds 10 op (ErrorValue "cannot encode") eq_refl) as [H _].
  apply H.
Defined.

(** A counter below zero on the wire. *)
Lemma counter_content_is_unsigned_witness :
  let res := mkCounterResponse 86 (-1) None in
  in_int64 (cnt_Content res)
  /\ cr_content (counter_result sample_psMutToGoCbMut res) = 2 ^ 64 - 1.
Proof.
  intros res.
  assert (in_int64 (cnt_Content res)) as R by (unfold in_int64; simpl; lia).
  split; [exact R |].
  destruct (counter_content_is_unsigned sample_mapPsError sample_psMutToGoCbMut
              sample_seconds (answering_client ContentUnset) context_Background 10 []
              (sample_collection 2500000000) res R) as [(_ & _ & H) _].
  rewrite H; [reflexivity | simpl; lia].
Defined.

(** ** [Do]: what a batch looks like when it returns *)

Lemma Span_eq_dec (a b : Span) : {a = b} + {a <> b}.
Proof.
  decide equality; [apply Bool.bool_dec | apply (list_eq_dec string_dec) | apply string_dec].
Defined.

Lemma spans_started_app e1 e2 :
  spans_started (e1 ++ e2) = spans_started e1 ++ spans_started e2.
Proof.
  induction e1 as [| e rest IH]; [reflexivity |].
  destruct e; simpl; rewrite ?IH; reflexivity.
Qed.

Lemma spans_ended_app e1 e2 :
  spans_ended (e1 ++ e2) = spans_ended e1 ++ spans_ended e2.
Proof.
  induction e1 as [| e rest IH]; [reflexivity |].
  destruct e; simpl; rewrite ?IH; reflexivity.
Qed.

Lemma callback_spans_app l1 l2 :
  callback_spans (l1 ++ l2) = callback_spans l1 ++ callback_spans l2.
Proof.
  induction l1 as [| [k item] rest IH]; [reflexivity |].
  simpl. destruct (BulkOp_finishFn item); simpl; rewrite IH; reflexivity.
Qed.

(** Compare lists of spans by the number of occurrences of each span. *)
Ltac span_counting :=
  repeat match goal with
         | H : Permutation _ _ |- _ =>
             let x := fresh "cnt" in
             pose proof (proj1 (Permutation_count_occ Span_eq_dec _ _) H) as x;
             clear H
         end;
  apply (Permutation_count_occ Span_eq_dec); intros sp;
  repeat match goal with
         | H : forall x : Span, _ |- _ => specialize (H sp)
         end;
  repeat rewrite ?count_occ_app in *;
  cbn [count_occ] in *;
  repeat match goal with
         | |- context [Span_eq_dec ?a ?b] => destruct (Span_eq_dec a b)
         | H0 : context [Span_eq_dec ?a ?b] |- _ => destruct (Span_eq_dec a b)
         end;
  try lia.

Section DoTraces.

Variable mapPsErrorToGocbError : error -> bool -> error.
Variable psMutToGoCbMut : option PsMutationToken -> option MutationToken.
Variable uint32_of_Seconds : Duration -> Z.
Variable meterValueServiceKV : string.

Local Abbreviation handle :=
  (worker_handle mapPsErrorToGocbError psMutToGoCbMut uint32_of_Seconds).

Ltac traced_rest :=
  split; [reflexivity |]; split; [reflexivity |]; split; [| reflexivity];
  cbn [spans_started spans_ended];
  first [ apply Permutation_refl | apply perm_swap ].

Ltac traced :=
  first [ eexists [_], _, _; traced_rest
        | eexists [_; _], _, _; traced_rest
        | eexists [_; _; _], _, _; traced_rest ].

(** Before it sends, a handler has ended every span it started but the
    one its callback will end, and has recorded no latency. *)
Lemma worker_handle_trace client start op :
  has_case (cs_i op) = true ->
  exists pre out f,
    handle client start op = pre ++ [SignalSend out]
    /\ BulkOp_finishFn out = Some f
    /\ Permutation (spans_started pre) (fc_span f :: spans_ended pre)
    /\ values_recorded pre = [].
Proof.
  unfold worker_handle.
  destruct (cs_i op) as [i | i | i | i | i | i | i | i | i | i | i |]; intros M;
    [| | | | | | | | | | | discriminate M].
  - unfold Get. destruct (client_Get _ _ _) as [res | err]; [| traced].
    destruct (get_Content res); simpl; traced.
  - unfold GetAndTouch. destruct (client_GetAndTouch _ _ _) as [res | err]; [| traced].
    destruct (gat_Content res); simpl; traced.
  - unfold Touch. destruct (client_Touch _ _ _); traced.
  - unfold Remove. destruct (client_Remove _ _ _); traced.
  - unfold Upsert. destruct (Encode _ _) as [[b f] | err]; [| traced].
    destruct (client_Upsert _ _ _); traced.
  - unfold Insert. destruct (Encode _ _) as [[b f] | err]; [| traced].
    destruct (client_Insert _ _ _); traced.
  - unfold Replace. destruct (Encode _ _) as [[b f] | err]; [| traced].
    destruct (client_Replace _ _ _); traced.
  - unfold Append. destruct (client_Append _ _ _); traced.
  - unfold Prepend. destruct (client_Prepend _ _ _); traced.
  - unfold Increment. destruct (client_Increment _ _ _); traced.
  - unfold Decrement. destruct (client_Decrement _ _ _); traced.
Qed.

Lemma sent_item_trace client start op pre out :
  handle client start op = pre ++ [SignalSend out] ->
  exists f,
    BulkOp_finishFn out = Some f
    /\ Permutation (spans_started pre) (fc_span f :: spans_ended pre)
    /\ values_recorded pre = [].
Proof.
  intros H.
  destruct (worker_handle_trace client start op (sending_run_has_case _ _ _ _ _ _ _ _ H))
    as (pre0 & out0 & f & E & F & P & V).
  rewrite H in E. apply app_inj_tail in E. destruct E as [-> E]. inversion E. subst out0.
  exists f. auto.
Qed.

End DoTraces.

Section DoAtReturn.

Variable mapPsErrorToGocbError : error -> bool -> error.
Variable psMutToGoCbMut : option PsMutationToken -> option MutationToken.
Variable uint32_of_Seconds : Duration -> Z.
Variable meterValueServiceKV : string.
Variable c : Collection.
Variable ops : list BulkOp.
Variable opts : BulkOpOptions.
Variable now : Time.

Local Abbreviation step :=
  (Do_step mapPsErrorToGocbError psMutToGoCbMut uint32_of_Seconds meterValueServiceKV
     c ops opts now).
Local Abbreviation steps :=
  (Do_steps mapPsErrorToGocbError psMutToGoCbMut uint32_of_Seconds meterValueServiceKV
     c ops opts now).
Local Abbreviation Inv :=
  (Do_invariant mapPsErrorToGocbError psMutToGoCbMut uint32_of_Seconds c ops opts now).
Local Abbreviation Traced := (Do_trace_invariant c opts).

Lemma Do_trace_invariant_init : Traced (Do_init c ops opts).
Proof. split; [apply Permutation_refl | reflexivity]. Qed.

Lemma Do_trace_invariant_step s s' : Inv s -> Traced s -> step s s' -> Traced s'.
Proof.
  intros I [P V] St.
  destruct St as [s k item rest Hpc Hts Hw
                 | s Hpc Hts
                 | s w1 k op w2 client start pre out Hw Hrun Hroom
                 | s w1 k op w2 client start Hw Hrun
                 | s togo k item rest effs Hpc Hsig Hfin
                 | s togo k item rest Hpc Hsig Hfin
                 | s Hpc];
    unfold Do_trace_invariant, batch_span_open in *; simpl.
  - rewrite Hpc in P. split; assumption.
  - rewrite Hpc in P. split; assumption.
  - destruct (sent_item_trace _ _ _ _ _ _ _ _ Hrun) as (f & F & Q & R).
    rewrite spans_started_app, spans_ended_app, values_recorded_app, callback_spans_app, R.
    simpl. rewrite F, app_nil_r. split; [| exact V].
    destruct (st_pc s); span_counting.
  - split; assumption.
  - rewrite Hpc, Hsig in P. simpl in P.
    unfold finish in Hfin. destruct (BulkOp_finishFn item) as [f |]; [| discriminate].
    inversion Hfin. subst effs.
    rewrite spans_started_app, spans_ended_app, values_recorded_app, !length_app.
    simpl. rewrite app_nil_r. split; [| lia].
    span_counting.
  - exfalso. destruct I as (_ & _ & _ & _ & Tg & _). rewrite Hsig in Tg.
    destruct (Tg k item (or_introl eq_refl)) as (i0 & client & start & pre & _ & R).
    apply sent_item_has_callback in R.
    unfold finish in Hfin. destruct (BulkOp_finishFn item); [discriminate | congruence].
  - rewrite Hpc in P.
    rewrite spans_started_app, spans_ended_app, values_recorded_app.
    simpl. rewrite !app_nil_r. split; [| exact V].
    span_counting.
Qed.

Lemma Do_trace_invariant_steps n : forall s s',
  Inv s -> Traced s -> steps n s s' -> Traced s'.
Proof.
  induction n as [| n IH]; intros s s' I T R; inversion R; subst; [exact T |].
  eapply IH; [| | eassumption].
  - eapply Do_invariant_step; eassumption.
  - eapply Do_trace_invariant_step; eassumption.
Qed.



End DoAtReturn.

(** A batch of one Get against a service that is unavailable, run to its
    return. *)
Lemma one_get_run :
  let ops := [new_GetOp "g1"] in
  let c := sample_collection 2500000000 in
  exists s out,
    Do_steps sample_mapPsError sample_psMutToGoCbMut sample_seconds "kv"
      c ops (sample_options 0) 1000 5 (Do_init c ops (sample_options 0)) s
    /\ st_pc s = Returned None
    /\ st_finished s = [(0%nat, out)]
    /\ BulkOp_Err out = Some (sample_mapPsError (ErrorValue "unavailable") true).
Proof.
  intros ops c. eexists. eexists. split; [| split; [| split]].
  - unfold Do_init, indexed, ops. cbn [length seq combine].
    push_move.
    eapply steps_cons; [apply step_pushed_all; reflexivity | next_state].
    worker_move (failing_client (ErrorValue "unavailable")) 1001.
    drain_move.
    eapply steps_cons; [apply step_return; reflexivity | next_state].
    apply steps_nil.
  - reflexivity.
  - reflexivity.
  - reflexivity.
Defined.



(** ** [Do] on an empty batch *)

Section DoEmptyBatch.

Variable mapPsErrorToGocbError : error -> bool -> error.
Variable psMutToGoCbMut : option PsMutationToken -> option MutationToken.
Variable uint32_of_Seconds : Duration -> Z.
Variable meterValueServiceKV : string.
Variable c : Collection.
Variable opts : BulkOpOptions.
Variable now : Time.

Local Abbreviation step :=
  (Do_step mapPsErrorToGocbError psMutToGoCbMut uint32_of_Seconds meterValueServiceKV
     c [] opts now).
Local Abbreviation steps :=
  (Do_steps mapPsErrorToGocbError psMutToGoCbMut uint32_of_Seconds meterValueServiceKV
     c [] opts now).

Lemma empty_batch_step n s s' :
  empty_batch_state c opts n s -> step s s' -> empty_batch_state c opts (S n) s'.
Proof.
  intros (T & W & G & F & Pc) St.
  destruct St as [s k item rest Hpc Hts Hw
                 | s Hpc Hts
                 | s w1 k op w2 client start pre out Hw Hrun Hroom
                 | s w1 k op w2 client start Hw Hrun
                 | s togo k item rest effs Hpc Hsig Hfin
                 | s togo k item rest Hpc Hsig Hfin
                 | s Hpc];
    unfold empty_batch_state; simpl.
  - rewrite T in Hts. discriminate.
  - rewrite Hpc in Pc. destruct Pc as [-> Tr]. auto 10.
  - rewrite W in Hw. destruct w1; discriminate.
  - rewrite W in Hw. destruct w1; discriminate.
  - rewrite G in Hsig. discriminate.
  - rewrite G in Hsig. discriminate.
  - rewrite Hpc in Pc. destruct Pc as (-> & _ & Tr). rewrite Tr. auto 10.
Qed.

Lemma empty_batch_steps n : forall m s s',
  empty_batch_state c opts m s -> steps n s s' -> empty_batch_state c opts (m + n) s'.
Proof.
  induction n as [| n IH]; intros m s s' K R; inversion R; subst.
  - rewrite Nat.add_0_r. exact K.
  - rewrite Nat.add_succ_r. apply (IH (S m) _ _ (empty_batch_step _ _ _ K H0) H1).
Qed.

(** X14. On an empty batch [Do] starts no handler and waits for nothing:
    it returns nil after opening and closing the span of the batch, and
    no run does anything else. The timeout it sets is the option given,
    zero included, so that without an explicit timeout the batch's
    context is due at once. *)
Theorem Do_empty_batch :
  (exists s,
     Do_steps mapPsErrorToGocbError psMutToGoCbMut uint32_of_Seconds meterValueServiceKV
       c [] opts now 2 (Do_init c [] opts) s
     /\ st_pc s = Returned None)
  /\ (forall n s,
        Do_steps mapPsErrorToGocbError psMutToGoCbMut uint32_of_Seconds meterValueServiceKV
          c [] opts now n (Do_init c [] opts) s ->
        st_workers s = [] /\ st_signal s = [] /\ st_finished s = []
        /\ (n <= 2)%nat
        /\ forall e, st_pc s = Returned e ->
             e = None /\ n = 2%nat
             /\ st_trace s = [StartSpan (Do_span c opts); EndSpan (Do_span c opts)])
  /\ Do_timeout c [] opts = opt_Timeout opts
  /\ (opt_Context opts = None ->
      ctx_deadline (Do_ctx c [] opts now) = Some (Time_Add now (opt_Timeout opts))).
Proof.
  assert (Do_timeout c [] opts = opt_Timeout opts) as T.
  { unfold Do_timeout. simpl. rewrite Z.mul_0_r.
    destruct (opt_Timeout opts =? 0) eqn:E; [| reflexivity].
    apply Z.eqb_eq in E. rewrite E. reflexivity. }
  split; [| split; [| split]].
  - eexists. split.
    + eapply steps_cons; [apply step_pushed_all; reflexivity |].
      eapply steps_cons; [apply step_return; reflexivity |].
      apply steps_nil.
    + reflexivity.
  - intros n s R.
    assert (empty_batch_state c opts 0 (Do_init c [] opts)) as K0.
    { unfold empty_batch_state. simpl. auto 10. }
    pose proof (empty_batch_steps n 0 _ _ K0 R) as (_ & W & G & F & Pc). simpl in Pc.
    split; [exact W |]. split; [exact G |]. split; [exact F |]. split.
    + destruct (st_pc s); lia.
    + intros e E. rewrite E in Pc. destruct Pc as (-> & -> & Tr). auto.
  - exact T.
  - intros H. unfold Do_ctx. rewrite H, T. reflexivity.
Qed.

End DoEmptyBatch.

(** ** Range scans and sampling scans *)

Import RangeScans.

Lemma list_byte_of_string_app (a b : string) :
  list_byte_of_string (String.append a b)
  = list_byte_of_string a ++ list_byte_of_string b.
Proof.
  unfold list_byte_of_string.
  induction a as [| ch rest IH]; [reflexivity |].
  simpl. f_equal. exact IH.
Qed.

(** X15. [RangeScan.toCore] never fails, and in the configuration it
    builds each end of the range is given at most once: a missing term
    leaves both the inclusive and the exclusive bound of that end unset;
    a term sets the exclusive bound if it is exclusive and the inclusive
    bound otherwise, to the bytes of the term, and leaves the other
    unset. *)
Theorem RangeScan_toCore_bounds (rs : RangeScan) :
  exists cfg,
    RangeScan_toCore rs = inl cfg
    /\ match From rs with
       | None => cfg_Start cfg = None /\ cfg_ExclusiveStart cfg = None
       | Some t =>
           if Exclusive t then
             cfg_Start cfg = None
             /\ cfg_ExclusiveStart cfg = Some (list_byte_of_string (Term t))
           else
             cfg_Start cfg = Some (list_byte_of_string (Term t))
             /\ cfg_ExclusiveStart cfg = None
       end
    /\ match To rs with
       | None => cfg_End cfg = None /\ cfg_ExclusiveEnd cfg = None
       | Some t =>
           if Exclusive t then
             cfg_End cfg = None
             /\ cfg_ExclusiveEnd cfg = Some (list_byte_of_string (Term t))
           else
             cfg_End cfg = Some (list_byte_of_string (Term t))
             /\ cfg_ExclusiveEnd cfg = None
       end.
Proof.
  unfold RangeScan_toCore. eexists. split; [reflexivity |].
  destruct (From rs) as [[ft [|]] |], (To rs) as [[tt [|]] |]; simpl; auto.
Qed.

(** X16. The scan [NewRangeScanForPrefix] makes for a prefix becomes a
    configuration with inclusive bounds only: it starts at the bytes of
    the prefix and ends at those bytes followed by the seven bytes of the
    maximum term, which are F4 and the ASCII text 8fbfbf. Both bounds
    begin with the prefix. *)
Theorem NewRangeScanForPrefix_toCore (prefix : string) :
  RangeScan_toCore (NewRangeScanForPrefix prefix)
  = inl {| cfg_Start := Some (list_byte_of_string prefix);
           cfg_End := Some (list_byte_of_string prefix
                            ++ [Byte.xf4; Byte.x38; Byte.x66; Byte.x62; Byte.x66;
                                Byte.x62; Byte.x66]);
           cfg_ExclusiveStart := None;
           cfg_ExclusiveEnd := None |}
  /\ length (list_byte_of_string (Term ScanTermMaximum)) = 7%nat
  /\ list_byte_of_string (Term ScanTermMinimum) = [Byte.x00].
Proof.
  split; [| split; reflexivity].
  unfold RangeScan_toCore, NewRangeScanForPrefix. simpl.
  rewrite list_byte_of_string_app. reflexivity.
Qed.

Section MoreScans.

Variable makeInvalidArgumentsError : string -> error.
Variable ScanResult : Type.

(** X17. [SamplingScan.toCore] fails exactly when the limit is zero, with
    the invalid-arguments error; otherwise the configuration asks for as
    many samples as the limit, at least one, with the seed as given. *)
Theorem SamplingScan_toCore_limit (ss : SamplingScan) :
  0 <= Limit ss ->
  ((exists e, SamplingScan_toCore makeInvalidArgumentsError ss = inr e) <-> Limit ss = 0)
  /\ (Limit ss = 0 ->
      SamplingScan_toCore makeInvalidArgumentsError ss
      = inr (makeInvalidArgumentsError "sampling scan limit must be greater than 0"))
  /\ (forall cfg, SamplingScan_toCore makeInvalidArgumentsError ss = inl cfg ->
        cfg_Samples cfg = Limit ss /\ 1 <= cfg_Samples cfg /\ cfg_Seed cfg = Seed ss).
Proof.
  intros R. unfold SamplingScan_toCore.
  destruct (Limit ss =? 0) eqn:E.
  - apply Z.eqb_eq in E. split; [split; [auto | eauto] |]. split; [auto |].
    intros cfg H. discriminate.
  - apply Z.eqb_neq in E. split; [split; [intros [e H]; discriminate | contradiction] |].
    split; [contradiction |].
    intros cfg H. inversion H. simpl. repeat split. lia.
Qed.

(** X18. [Collection.Scan] asks for the provider first: when that fails,
    the error is returned, no scan is started and the caller's options
    are untouched. Otherwise the provider's [Scan] is called once, with
    the scan type as given and with the caller's options (the zero options
    if none were passed) in which a zero timeout has been replaced by the
    collection's scan timeout; that replacement is written into the
    caller's own options. An explicit timeout is passed on as it is. *)
Theorem Collection_Scan_timeout
    (KVScanTimeout : Duration) (scanType : ScanType) (opts : option ScanOptions) :
  (forall err,
     Collection_Scan ScanResult KVScanTimeout (inr err) scanType opts = (inr err, opts))
  /\ (forall agent,
        let given := match opts with Some o => o | None => zero_ScanOptions end in
        let passed :=
          set_so_Timeout given
            (if so_Timeout given =? 0 then KVScanTimeout else so_Timeout given) in
        Collection_Scan ScanResult KVScanTimeout (inl agent) scanType opts
        = (agent_Scan ScanResult agent scanType passed,
           match opts with Some _ => Some passed | None => None end)).
Proof.
  split; [reflexivity |].
  intros agent given passed. unfold Collection_Scan, passed, given.
  destruct opts as [o |]; simpl.
  - destruct (so_Timeout o =? 0); [reflexivity |]. destruct o; reflexivity.
  - reflexivity.
Qed.

End MoreScans.

Lemma SamplingScan_toCore_limit_witness :
  0 <= Limit (mkSamplingScan 0 7)
  /\ SamplingScan_toCore ErrorValue (mkSamplingScan 0 7)
     = inr (ErrorValue "sampling scan limit must be greater than 0").
Proof.
  assert (0 <= Limit (mkSamplingScan 0 7)) as R by (simpl; lia).
  split; [exact R |].
  destruct (SamplingScan_toCore_limit ErrorValue (mkSamplingScan 0 7) R) as (_ & H & _).
  apply H. reflexivity.
Defined.

(** ** The providers of a bucket *)

Import Buckets.

Section MoreBuckets.

Variable provider : Type.
Variable WaitUntilReadyOptions : Type.
Variable zero_WaitUntilReadyOptions : WaitUntilReadyOptions.
Variable options_Context : WaitUntilReadyOptions -> option Context.

(** X19. A bucket with a bootstrap error answers every request for a
    key-value, key-value capabilities, bulk, query or analytics provider,
    and every [WaitUntilReady], with that error, whatever its connection
    manager would say. Only [getQueryIndexProvider] does not look at the
    bootstrap error: its answer is always the connection manager's.
    Without a bootstrap error each getter returns what the connection
    manager returns for the bucket's name. *)
Theorem bootstrap_error_comes_first (b : Bucket provider WaitUntilReadyOptions) :
  (forall err, bootstrapError _ _ b = Some err ->
     getKvProvider _ _ b = inr err
     /\ getKvCapabilitiesProvider _ _ b = inr err
     /\ getKvBulkProvider _ _ b = inr err
     /\ getQueryProvider _ _ b = inr err
     /\ getAnalyticsProvider _ _ b = inr err
     /\ forall now timeout opts,
          WaitUntilReady _ _ zero_WaitUntilReadyOptions options_Context b now timeout opts
          = Some err)
  /\ getQueryIndexProvider _ _ b
     = cm_getQueryIndexProvider _ _ (bkt_connectionManager _ _ b)
  /\ (bootstrapError _ _ b = None ->
      getKvProvider _ _ b
      = cm_getKvProvider _ _ (bkt_connectionManager _ _ b) (bucketName _ _ b)
      /\ getKvCapabilitiesProvider _ _ b
         = cm_getKvCapabilitiesProvider _ _ (bkt_connectionManager _ _ b) (bucketName _ _ b)
      /\ getKvBulkProvider _ _ b
         = cm_getKvBulkProvider _ _ (bkt_connectionManager _ _ b) (bucketName _ _ b)
      /\ getQueryProvider _ _ b = cm_getQueryProvider _ _ (bkt_connectionManager _ _ b)
      /\ getAnalyticsProvider _ _ b
         = cm_getAnalyticsProvider _ _ (bkt_connectionManager _ _ b)).
Proof.
  split; [| split].
  - intros err E.
    unfold getKvProvider, getKvCapabilitiesProvider, getKvBulkProvider, getQueryProvider,
      getAnalyticsProvider, WaitUntilReady.
    rewrite E. repeat split.
  - unfold getQueryIndexProvider.
    destruct (cm_getQueryIndexProvider _ _ _); reflexivity.
  - intros E.
    unfold getKvProvider, getKvCapabilitiesProvider, getKvBulkProvider, getQueryProvider,
      getAnalyticsProvider.
    rewrite E.
    destruct (cm_getKvProvider _ _ _ _), (cm_getKvCapabilitiesProvider _ _ _ _),
      (cm_getKvBulkProvider _ _ _ _), (cm_getQueryProvider _ _ _),
      (cm_getAnalyticsProvider _ _ _); repeat split.
Qed.

(** X20. [WaitUntilReady] returns the first error in the order: bootstrap
    error, error of getting the provider for the bucket's name, error of
    the provider's own [WaitUntilReady]. A bootstrap error is returned
    whatever the connection manager would answer; without one, the error
    of getting the provider is returned; with the provider at hand, the
    result is that of the provider's [WaitUntilReady], its error or nil,
    called with the context of the options, the deadline [now + timeout]
    and the options given, the zero options standing in for nil. So the
    result is nil only when there is no error at all. *)
Theorem WaitUntilReady_first_error
    (b : Bucket provider WaitUntilReadyOptions) (now : Time) (timeout : Duration)
    (opts : option WaitUntilReadyOptions) :
  let o := match opts with Some o => o | None => zero_WaitUntilReadyOptions end in
  let cm := bkt_connectionManager _ _ b in
  let result :=
    WaitUntilReady _ _ zero_WaitUntilReadyOptions options_Context b now timeout opts in
  (forall e1, bootstrapError _ _ b = Some e1 -> result = Some e1)
  /\ (forall e2,
        bootstrapError _ _ b = None ->
        cm_getWaitUntilReadyProvider _ _ cm (bucketName _ _ b) = inr e2 ->
        result = Some e2)
  /\ (forall p,
        bootstrapError _ _ b = None ->
        cm_getWaitUntilReadyProvider _ _ cm (bucketName _ _ b) = inl p ->
        result = provider_WaitUntilReady _ _ cm p (options_Context o) (now + timeout) o)
  /\ (result = None <->
      bootstrapError _ _ b = None
      /\ exists p,
           cm_getWaitUntilReadyProvider _ _ cm (bucketName _ _ b) = inl p
           /\ provider_WaitUntilReady _ _ cm p (options_Context o) (now + timeout) o = None).
Proof.
  intros o cm result. unfold result, WaitUntilReady, Time_Add. fold o. fold cm.
  split; [| split; [| split]].
  - intros e1 ->. reflexivity.
  - intros e2 -> ->. reflexivity.
  - intros p -> ->.
    destruct (provider_WaitUntilReady _ _ cm p (options_Context o) (now + timeout) o);
      reflexivity.
  - destruct (bootstrapError _ _ b) as [e |].
    + split; [discriminate | intros [H _]; discriminate].
    + destruct (cm_getWaitUntilReadyProvider _ _ cm (bucketName _ _ b)) as [p | e].
      * destruct (provider_WaitUntilReady _ _ cm p (options_Context o) (now + timeout) o)
          as [e |] eqn:W.
        -- split; [discriminate |]. intros (_ & p' & E & W'). inversion E. subst p'.
           rewrite W in W'. discriminate.
        -- split; [| reflexivity]. intros _. split; [reflexivity |]. exists p. auto.
      * split; [discriminate |]. intros (_ & p' & E & _). discriminate.
Qed.

End MoreBuckets.

(** ** The search index provider: errors and control requests *)

Import SearchIndexes.

Section MoreSearchIndexes.

Variable strings_ToLower : string -> string.
Variable url_PathEscape : string -> string.
Variable ErrQuotaLimitedFailure : error.
Variable ErrRateLimitedFailure : error.
Variable ErrIndexNotFound : error.
Variable ErrIndexExists : error.
Variable errors_New : string -> error.
Variable invalidArgumentsError : string -> error.
Variable makeGenericMgmtError : error -> mgmtRequest -> mgmtResponse -> string -> error.
Variable makeMgmtBadStatusError : string -> mgmtRequest -> mgmtResponse -> error.
Variable createSpan : option Span -> string -> Span.
Variable executeMgmtRequest : option Context -> mgmtRequest -> mgmtResponse + error.

Local Abbreviation rateLimit :=
  (checkForRateLimitError strings_ToLower ErrQuotaLimitedFailure ErrRateLimitedFailure).
Local Abbreviation tryParse :=
  (tryParseErrorMessage strings_ToLower ErrQuotaLimitedFailure ErrRateLimitedFailure
     ErrIndexNotFound ErrIndexExists errors_New makeGenericMgmtError).
Local Abbreviation control :=
  (run_control strings_ToLower url_PathEscape ErrQuotaLimitedFailure ErrRateLimitedFailure
     ErrIndexNotFound ErrIndexExists errors_New invalidArgumentsError makeGenericMgmtError
     makeMgmtBadStatusError createSpan executeMgmtRequest).
Local Abbreviation drop :=
  (DropIndex url_PathEscape invalidArgumentsError makeMgmtBadStatusError createSpan
     executeMgmtRequest).

(** X21. [checkForRateLimitError] looks at the message only for the status
    codes 400 and 429: for any other status it returns nil. For 400 it
    returns the quota error exactly when the lower-cased message mentions
    [num_fts_indexes], and never the rate-limit error; for 429 it returns
    the rate-limit error exactly when the lower-cased message mentions one
    of the four limits, and never the quota error. *)
Theorem checkForRateLimitError_by_status (statusCode : Z) (errMsg : string) :
  let m := strings_ToLower errMsg in
  (statusCode <> 400 -> statusCode <> 429 ->
   checkForRateLimitError strings_ToLower ErrQuotaLimitedFailure ErrRateLimitedFailure
     statusCode errMsg = None)
  /\ (statusCode = 400 ->
      checkForRateLimitError strings_ToLower ErrQuotaLimitedFailure ErrRateLimitedFailure
        statusCode errMsg
      = if strings_Contains m "num_fts_indexes" then Some ErrQuotaLimitedFailure else None)
  /\ (statusCode = 429 ->
      checkForRateLimitError strings_ToLower ErrQuotaLimitedFailure ErrRateLimitedFailure
        statusCode errMsg
      = if strings_Contains m "num_concurrent_requests"
           || strings_Contains m "num_queries_per_min"
           || strings_Contains m "ingress_mib_per_min"
           || strings_Contains m "egress_mib_per_min"
        then Some ErrRateLimitedFailure else None).
Proof.
  intros m. unfold checkForRateLimitError. fold m. split; [| split].
  - intros N4 N9. apply Z.eqb_neq in N4, N9. rewrite N4, N9. reflexivity.
  - intros ->. simpl. destruct (strings_Contains m "num_fts_indexes"); reflexivity.
  - intros ->. simpl.
    destruct (strings_Contains m "num_concurrent_requests"),
      (strings_Contains m "num_queries_per_min"),
      (strings_Contains m "ingress_mib_per_min"),
      (strings_Contains m "egress_mib_per_min"); reflexivity.
Qed.

(** X22. [tryParseErrorMessage] returns nil only when the body of the
    response cannot be read. For a body that can be read it returns the
    generic management error around a cause chosen in this order: the
    quota or rate-limit error if the status and the body call for one,
    whatever else the body says; else the index-not-found error if the
    lower-cased body mentions it, even if it also says that the index
    exists; else the index-exists error; else a new error made of the
    body. *)
Theorem tryParseErrorMessage_cause (req : mgmtRequest) (resp : mgmtResponse) :
  let result :=
    tryParseErrorMessage strings_ToLower ErrQuotaLimitedFailure ErrRateLimitedFailure
      ErrIndexNotFound ErrIndexExists errors_New makeGenericMgmtError req resp in
  (result = None <-> exists e, resp_Body resp = inr e)
  /\ forall b, resp_Body resp = inl b ->
       let lower := strings_ToLower b in
       (forall e,
          checkForRateLimitError strings_ToLower ErrQuotaLimitedFailure
            ErrRateLimitedFailure (StatusCode resp) b = Some e ->
          result = Some (makeGenericMgmtError e req resp b))
       /\ (checkForRateLimitError strings_ToLower ErrQuotaLimitedFailure
             ErrRateLimitedFailure (StatusCode resp) b = None ->
           (strings_Contains lower "index not found" = true ->
            result = Some (makeGenericMgmtError ErrIndexNotFound req resp b))
           /\ (strings_Contains lower "index not found" = false ->
               strings_Contains lower "index with the same name already exists" = true ->
               result = Some (makeGenericMgmtError ErrIndexExists req resp b))
           /\ (strings_Contains lower "index not found" = false ->
               strings_Contains lower "index with the same name already exists" = false ->
               result = Some (makeGenericMgmtError (errors_New b) req resp b))).
Proof.
  intros result. unfold result, tryParseErrorMessage. split.
  - destruct (resp_Body resp) as [b | e].
    + split; [| intros [e H]; discriminate].
      destruct (rateLimit (StatusCode resp) b); discriminate.
    + split; [eauto | reflexivity].
  - intros b ->. simpl. split.
    + intros e ->. reflexivity.
    + intros ->. repeat split.
      * intros ->. reflexivity.
      * intros -> ->. reflexivity.
      * intros -> ->. reflexivity.
Qed.

Lemma control_unfold k indexName opts :
  control k indexName opts
  = control_operation strings_ToLower url_PathEscape ErrQuotaLimitedFailure
      ErrRateLimitedFailure ErrIndexNotFound ErrIndexExists errors_New invalidArgumentsError
      makeGenericMgmtError makeMgmtBadStatusError createSpan executeMgmtRequest
      (control_path k)
      match k with
      | CPauseIngest => "manager_search_pause_ingest"
      | CResumeIngest => "manager_search_resume_ingest"
      | CAllowQuerying => "manager_search_allow_querying"
      | CDisallowQuerying => "manager_search_disallow_querying"
      | CFreezePlan => "manager_search_freeze_plan"
      | CUnfreezePlan => "manager_search_unfreeze_plan"
      end indexName opts.
Proof. destruct k; reflexivity. Qed.

(** X23. Each of the six control operations (pause and resume ingest,
    allow and disallow querying, freeze and unfreeze plan) refuses an
    empty index name with the invalid-arguments error, without asking the
    management provider. For any other name it makes one request: a POST,
    marked idempotent, to [/api/index/<escaped name>] followed by the
    operation's control path, with the timeout and retry strategy of the
    options. An error of the provider is returned as it is, status 200
    gives nil, and any other status gives an error. *)
Theorem control_operation_outcomes
    (k : control_kind) (indexName : string) (opts : option SearchIndexOptions) :
  let o := match opts with Some o => o | None => zero_SearchIndexOptions end in
  let sent (r : mgmtRequest) : Prop :=
    Method r = "POST"%string
    /\ Path r = ("/api/index/" ++ url_PathEscape indexName ++ control_path k)%string
    /\ IsIdempotent r = true
    /\ Timeout r = sio_Timeout o
    /\ RetryStrategy r = sio_RetryStrategy o in
  let result :=
    run_control strings_ToLower url_PathEscape ErrQuotaLimitedFailure ErrRateLimitedFailure
      ErrIndexNotFound ErrIndexExists errors_New invalidArgumentsError makeGenericMgmtError
      makeMgmtBadStatusError createSpan executeMgmtRequest k indexName opts in
  (indexName = ""%string ->
   result = Some (invalidArgumentsError "indexName cannot be empty"))
  /\ (indexName <> ""%string ->
      exists r,
        sent r
        /\ match executeMgmtRequest (sio_Context o) r with
           | inr err => result = Some err
           | inl resp =>
               (StatusCode resp = 200 -> result = None)
               /\ (StatusCode resp <> 200 ->
                   result <> None
                   /\ (forall e, resp_Body resp = inr e ->
                         result = Some (makeMgmtBadStatusError
                                          "failed to perform the control request" r resp)))
           end).
Proof.
  intros o sent result. unfold result. rewrite control_unfold. unfold control_operation.
  fold o. split.
  - intros ->. reflexivity.
  - intros N. apply String.eqb_neq in N. rewrite N.
    unfold performControlRequest, doMgmtRequest.
    match goal with
    | |- context [executeMgmtRequest _ (mkMgmtRequest ?a ?b ?c ?d ?e ?f ?g ?h ?i)] =>
        exists (mkMgmtRequest a b c d e f g h i)
    end.
    split; [unfold sent; simpl; repeat split |].
    destruct (executeMgmtRequest _ _) as [resp | err]; [| reflexivity].
    split.
    + intros ->. reflexivity.
    + intros S. apply Z.eqb_neq in S. rewrite S. simpl. split.
      * destruct (tryParseErrorMessage _ _ _ _ _ _ _ _ _); discriminate.
      * intros e B. unfold tryParseErrorMessage. rewrite B. reflexivity.
Qed.

(** X24. [DropIndex] refuses an empty index name without asking the
    management provider. Otherwise it makes one DELETE request to
    [/api/index/<escaped name>], not marked idempotent. An error of the
    provider is returned as it is and status 200 gives nil; for any other
    status the error is the bad-status error, whatever the body of the
    response says: the body is not parsed for an index error. *)
Theorem DropIndex_outcomes (indexName : string) (opts : option SearchIndexOptions) :
  let o := match opts with Some o => o | None => zero_SearchIndexOptions end in
  let result :=
    DropIndex url_PathEscape invalidArgumentsError makeMgmtBadStatusError createSpan
      executeMgmtRequest indexName opts in
  (indexName = ""%string ->
   result = Some (invalidArgumentsError "indexName cannot be empty"))
  /\ (indexName <> ""%string ->
      exists r,
        (Method r = "DELETE"%string
         /\ Path r = ("/api/index/" ++ url_PathEscape indexName)%string
         /\ IsIdempotent r = false
         /\ Timeout r = sio_Timeout o
         /\ RetryStrategy r = sio_RetryStrategy o)
        /\ match executeMgmtRequest (sio_Context o) r with
           | inr err => result = Some err
           | inl resp =>
               (StatusCode resp = 200 -> result = None)
               /\ (StatusCode resp <> 200 ->
                   result = Some (makeMgmtBadStatusError "failed to drop the index" r resp))
           end).
Proof.
  intros o result. unfold result, DropIndex. fold o. split.
  - intros ->. reflexivity.
  - intros N. apply String.eqb_neq in N. rewrite N. unfold doMgmtRequest.
    match goal with
    | |- context [executeMgmtRequest _ (mkMgmtRequest ?a ?b ?c ?d ?e ?f ?g ?h ?i)] =>
        exists (mkMgmtRequest a b c d e f g h i)
    end.
    split; [simpl; repeat split |].
    destruct (executeMgmtRequest _ _) as [resp | err]; [| reflexivity].
    split.
    + intros ->. reflexivity.
    + intros S. apply Z.eqb_neq in S. rewrite S. reflexivity.
Qed.

End MoreSearchIndexes.

(** [strings_Contains] is the substring test. *)
Lemma prefix_app (p s : string) :
  String.prefix p s = true <-> exists rest, s = String.append p rest.
Proof.
  revert s. induction p as [| ch p IH]; intros s.
  - split; [intros _; exists s; reflexivity | intros _; destruct s; reflexivity].
  - destruct s as [| ch' s]; [split; [discriminate | intros [rest H]; discriminate] |].
    cbn [String.prefix]. destruct (Ascii.ascii_dec ch ch') as [-> | N].
    + split.
      * intros H. apply (proj1 (IH s)) in H. destruct H as [rest ->].
        exists rest. reflexivity.
      * intros [rest H]. apply (proj2 (IH s)). exists rest.
        simpl in H. inversion H. reflexivity.
    + split; [discriminate |]. intros [rest H]. simpl in H. inversion H. congruence.
Qed.

Lemma strings_Contains_spec (s substr : string) :
  strings_Contains s substr = true
  <-> exists before after, s = String.append before (String.append substr after).
Proof.
  induction s as [| ch s IH].
  - cbn [strings_Contains]. destruct (String.prefix substr EmptyString) eqn:P.
    + split; [intros _ | reflexivity].
      apply prefix_app in P. destruct P as [rest P]. exists EmptyString, rest. exact P.
    + split; [discriminate |]. intros (before & after & H).
      destruct before; [| discriminate].
      assert (String.prefix substr EmptyString = true) as Q
        by (apply prefix_app; exists after; exact H).
      congruence.
  - cbn [strings_Contains]. destruct (String.prefix substr (String ch s)) eqn:P.
    + split; [intros _ | reflexivity].
      apply prefix_app in P. destruct P as [rest P]. exists EmptyString, rest. exact P.
    + rewrite IH. split.
      * intros (before & after & ->). exists (String ch before), after. reflexivity.
      * intros (before & after & H). destruct before as [| ch' before].
        -- assert (String.prefix substr (String ch s) = true) as Q
             by (apply prefix_app; exists after; exact H).
           congruence.
        -- inversion H. exists before, after. reflexivity.
Qed.

(** ** [Do]: the order of completions *)

Section DoOrder.

Variable mapPsErrorToGocbError : error -> bool -> error.
Variable psMutToGoCbMut : option PsMutationToken -> option MutationToken.
Variable uint32_of_Seconds : Duration -> Z.
Variable meterValueServiceKV : string.
Variable c : Collection.
Variable ops : list BulkOp.
Variable opts : BulkOpOptions.
Variable now : Time.

Local Abbreviation step :=
  (Do_step mapPsErrorToGocbError psMutToGoCbMut uint32_of_Seconds meterValueServiceKV
     c ops opts now).
Local Abbreviation steps :=
  (Do_steps mapPsErrorToGocbError psMutToGoCbMut uint32_of_Seconds meterValueServiceKV
     c ops opts now).
Local Abbreviation Inv :=
  (Do_invariant mapPsErrorToGocbError psMutToGoCbMut uint32_of_Seconds c ops opts now).

Lemma completions_step s s' :
  Inv s -> step s s' ->
  exists suffix,
    st_finished s' ++ st_signal s' = (st_finished s ++ st_signal s) ++ suffix.
Proof.
  intros I St.
  destruct St as [s k item rest Hpc Hts Hw
                 | s Hpc Hts
                 | s w1 k op w2 client start pre out Hw Hrun Hroom
                 | s w1 k op w2 client start Hw Hrun
                 | s togo k item rest effs Hpc Hsig Hfin
                 | s togo k item rest Hpc Hsig Hfin
                 | s Hpc]; simpl.
  - exists []. rewrite app_nil_r. reflexivity.
  - exists []. rewrite app_nil_r. reflexivity.
  - exists [(k, out)]. rewrite app_assoc. reflexivity.
  - exists []. rewrite app_nil_r. reflexivity.
  - exists []. rewrite Hsig, app_nil_r, <- app_assoc. reflexivity.
  - exfalso. destruct I as (_ & _ & _ & _ & Tg & _). rewrite Hsig in Tg.
    destruct (Tg k item (or_introl eq_refl)) as (i0 & client & start & pre & _ & R).
    apply sent_item_has_callback in R.
    unfold finish in Hfin. destruct (BulkOp_finishFn item); [discriminate | congruence].
  - exists []. rewrite app_nil_r. reflexivity.
Qed.

Lemma completions_steps n : forall s s',
  Inv s -> steps n s s' ->
  exists suffix,
    st_finished s' ++ st_signal s' = (st_finished s ++ st_signal s) ++ suffix.
Proof.
  induction n as [| n IH]; intros s s' I R; inversion R; subst.
  - exists []. rewrite app_nil_r. reflexivity.
  - match goal with
    | H1 : step s ?m, H2 : steps n ?m s' |- _ =>
        destruct (completions_step _ _ I H1) as [x1 E1];
        destruct (IH _ _ (Do_invariant_step _ _ _ _ _ _ _ _ _ _ I H1) H2) as [x2 E2]
    end.
    exists (x1 ++ x2). rewrite E2, E1, app_assoc. reflexivity.
Qed.

End DoOrder.

Section DoOrderOfCompletion.

Variable mapPsErrorToGocbError : error -> bool -> error.
Variable psMutToGoCbMut : option PsMutationToken -> option MutationToken.
Variable uint32_of_Seconds : Duration -> Z.
Variable meterValueServiceKV : string.
Variable c : Collection.
Variable opts : BulkOpOptions.
Variable now : Time.

(** X25. [Do] finishes the operations in the order in which their
    handlers complete, which need not be the order of the batch. In every
    run the completions, finished or still waiting in [signal], only grow
    at the end; and for any batch of two or more operations, each with a
    case in the worker's type switch, there is a run to return in which
    the operation at position 1 is finished first. *)
Theorem Do_completion_order :
  (forall ops n m s s',
     Do_steps mapPsErrorToGocbError psMutToGoCbMut uint32_of_Seconds meterValueServiceKV
       c ops opts now n (Do_init c ops opts) s ->
     Do_steps mapPsErrorToGocbError psMutToGoCbMut uint32_of_Seconds meterValueServiceKV
       c ops opts now m s s' ->
     exists suffix,
       st_finished s' ++ st_signal s' = (st_finished s ++ st_signal s) ++ suffix)
  /\ (forall a b rest,
        forallb has_case (a :: b :: rest) = true ->
        exists n s out more,
          Do_steps mapPsErrorToGocbError psMutToGoCbMut uint32_of_Seconds
            meterValueServiceKV c (a :: b :: rest) opts now n
            (Do_init c (a :: b :: rest) opts) s
          /\ st_pc s = Returned None
          /\ st_finished s = (1%nat, out) :: more).
Proof.
  split.
  - intros ops n m s s' R1 R2.
    pose proof (Do_invariant_reachable _ _ _ _ _ _ _ _ _ _ R1) as I.
    exact (completions_steps _ _ _ _ _ _ _ _ m s s' I R2).
  - intros a b rest M. set (ops := a :: b :: rest) in *.
    destruct (worker_handle_sends mapPsErrorToGocbError psMutToGoCbMut uint32_of_Seconds
                (failing_client ErrRequestCanceled) now (chan_struct c ops opts now b))
      as (out & [pre Run] & _).
    { simpl. apply (matched_nth_error ops 1 b M). reflexivity. }
    assert (exists s3,
              Do_steps mapPsErrorToGocbError psMutToGoCbMut uint32_of_Seconds
                meterValueServiceKV c ops opts now 3 (Do_init c ops opts) s3
              /\ st_finished s3 = [] /\ st_signal s3 = [(1%nat, out)]) as (s3 & R3 & F3 & G3).
    { eexists. split; [| split].
      - eapply steps_cons.
        { eapply step_push; [reflexivity | reflexivity | reflexivity]. }
        eapply steps_cons.
        { eapply step_push; [reflexivity | reflexivity | reflexivity]. }
        eapply steps_cons.
        { eapply (step_worker _ _ _ _ _ _ _ _ _ [(0%nat, chan_struct c ops opts now a)]
                    1%nat (chan_struct c ops opts now b) []
                    (failing_client ErrRequestCanceled) now pre out);
            [reflexivity | exact Run | simpl; lia]. }
        apply steps_nil.
      - reflexivity.
      - reflexivity. }
    pose proof (Do_invariant_reachable _ _ _ _ _ _ _ _ _ _ R3) as I3.
    destruct (Do_runs_to_return _ _ _ meterValueServiceKV _ _ _ _ (moves_left s3) s3
                M (le_n _) I3) as (m & s & R & e & E).
    pose proof (steps_trans _ _ _ _ _ _ _ _ _ _ _ _ _ R3 R) as Rall.
    pose proof (Do_invariant_reachable _ _ _ _ _ _ _ _ _ _ Rall) as I.
    destruct (completions_steps _ _ _ _ _ _ _ _ _ _ _ I3 R) as [suffix C].
    destruct I as (_ & _ & _ & _ & _ & _ & _ & Pc). rewrite E in Pc.
    destruct Pc as (-> & _ & _ & G & _).
    rewrite G, F3, G3, app_nil_r in C. simpl in C.
    exists (3 + m)%nat, s, out, suffix. auto.
Qed.

End DoOrderOfCompletion.

(** Two Gets: the second may be finished first. *)
Lemma Do_completion_order_witness :
  let ops := [new_GetOp "g1"; new_GetOp "g2"] in
  let c := sample_collection 2500000000 in
  forallb has_case ops = true
  /\ exists n s out more,
       Do_steps sample_mapPsError sample_psMutToGoCbMut sample_seconds "kv"
         c ops (sample_options 0) 1000 n (Do_init c ops (sample_options 0)) s
       /\ st_pc s = Returned None
       /\ st_finished s = (1%nat, out) :: more.
Proof.
  intros ops c. split; [reflexivity |].
  exact (proj2 (Do_completion_order sample_mapPsError sample_psMutToGoCbMut sample_seconds
                  "kv" c (sample_options 0) 1000)
           (new_GetOp "g1") (new_GetOp "g2") [] eq_refl).
Defined.

(** ** Instances *)

(** A rate-limited response whose body also says that the index was not
    found: the rate limit wins. *)
Example tryParseErrorMessage_rate_limit_first :
  let req := mkMgmtRequest ServiceTypeSearch "POST" "/api/index/i/queryControl/allow" [] []
               true None 0 [] in
  let body := "Index Not Found; limit num_queries_per_min reached"%string in
  tryParseErrorMessage sample_ToLower (ErrorValue "quota limited")
    (ErrorValue "rate limited") (ErrorValue "index not found") (ErrorValue "index exists")
    ErrorValue sample_genericMgmtError req (mkMgmtResponse 429 (inl body))
  = Some (MappedError (ErrorValue "rate limited") true body)
  /\ tryParseErrorMessage sample_ToLower (ErrorValue "quota limited")
       (ErrorValue "rate limited") (ErrorValue "index not found") (ErrorValue "index exists")
       ErrorValue sample_genericMgmtError req (mkMgmtResponse 404 (inl body))
     = Some (MappedError (ErrorValue "index not found") true body).
Proof. split; reflexivity. Qed.

(** Pausing ingest and dropping an index against a provider that answers
    500 with a body naming a missing index: the control request reports
    the missing index, the drop reports only the bad status. *)
Example control_and_drop_on_bad_status :
  let exec := answering_provider 500 "index not found" in
  run_control sample_ToLower sample_PathEscape (ErrorValue "quota limited")
    (ErrorValue "rate limited") (ErrorValue "index not found") (ErrorValue "index exists")
    ErrorValue ErrorValue sample_genericMgmtError sample_badStatusError sample_createSpan
    exec CPauseIngest "idx" None
  = Some (MappedError (ErrorValue "index not found") true "index not found")
  /\ DropIndex sample_PathEscape ErrorValue sample_badStatusError sample_createSpan exec
       "idx" None
     = Some (MappedError (ErrorValue "failed to drop the index") false "/api/index/idx")
  /\ run_control sample_ToLower sample_PathEscape (ErrorValue "quota limited")
       (ErrorValue "rate limited") (ErrorValue "index not found")
       (ErrorValue "index exists") ErrorValue ErrorValue sample_genericMgmtError
       sample_badStatusError sample_createSpan exec CPauseIngest "" None
     = Some (ErrorValue "indexName cannot be empty").
Proof. repeat split. Qed.
